(** * NovoApkPesca: the fishing-log backend, embedded and verified

    The development follows the Python sources:
    - [src/models/database.py]  (the four mapped classes),
    - [src/routes/auth.py]      ([token_required], [/me], [/change-password]),
    - [src/routes/locations.py], [src/routes/fishing_sessions.py],
      [src/routes/catches.py]   (the CRUD routes),
    - [src/routes/stats.py]     (the statistics engine).

    Tables are lists of rows in insertion order, a request payload is a
    finite map from keys to JSON scalars, every route is a function from the
    store (and the request) to a response and the store after the request.
    The collaborators the routes call but do not define (binary floating
    point, the Unicode database, password hashing, SQL [ILIKE]) are the
    fields of one class, [Backend]; every theorem holds for every instance
    of it. The storage backend is PostgreSQL, which the statistics need
    ([date_trunc]). *)

From Stdlib Require Import ZArith Lia Ascii String.
From stdpp Require Import base decidable option list strings pretty gmap sorting.

Open Scope Z_scope.

(** ** Texts

    A text is kept as the bytes of its UTF-8 encoding. *)

Module Text.

Definition byte (c : ascii) : Z := Z.of_N (N_of_ascii c).

(** A character starts at every byte that is not a continuation byte
    [10xxxxxx]. *)
Definition starts_char (c : ascii) : bool :=
  negb ((128 <=? byte c) && (byte c <? 192)).

(** [char_length(s)], the length PostgreSQL measures a text by. *)
Definition char_length (s : string) : Z :=
  Z.of_nat
    (length (filter (λ c, starts_char c = true) (list_ascii_of_string s))).

(** The code points of a text: one, two, three or four bytes each. *)
Fixpoint code_points (cs : list ascii) : list Z :=
  match cs with
  | [] => []
  | c1 :: r1 =>
      let b1 := byte c1 in
      if b1 <? 192 then b1 :: code_points r1
      else
        match r1 with
        | [] => [b1]
        | c2 :: r2 =>
            let b2 := byte c2 - 128 in
            if b1 <? 224 then ((b1 - 192) * 64 + b2) :: code_points r2
            else
              match r2 with
              | [] => [b1]
              | c3 :: r3 =>
                  let b3 := byte c3 - 128 in
                  if b1 <? 240
                  then ((b1 - 224) * 4096 + b2 * 64 + b3) :: code_points r3
                  else
                    match r3 with
                    | [] => [b1]
                    | c4 :: r4 =>
                        ((b1 - 240) * 262144 + b2 * 4096 + b3 * 64
                         + (byte c4 - 128)) :: code_points r4
                    end
              end
        end
  end.

Definition of_string (s : string) : list Z :=
  code_points (list_ascii_of_string s).

End Text.

(** ** Python's [datetime] *)

Module Calendar.

(** A [datetime.date] is kept as its proleptic Gregorian ordinal, the value
    of [date.toordinal()]: day 1 is 0001-01-01. *)
Definition date := Z.

Definition MINYEAR : Z := 1.
Definition MAXYEAR : Z := 9999.
Definition MAXORDINAL : Z := 3652059.

Definition is_leap (year : Z) : bool :=
  (year mod 4 =? 0) && (negb (year mod 100 =? 0) || (year mod 400 =? 0)).

Definition days_before_year (year : Z) : Z :=
  let y := year - 1 in y * 365 + y / 4 - y / 100 + y / 400.

Definition days_in_month (year month : Z) : Z :=
  if (month =? 2) && is_leap year then 29
  else nth (Z.to_nat month) [0; 31; 28; 31; 30; 31; 30; 31; 31; 30; 31; 30; 31] 0.

Definition DAYS_BEFORE_MONTH : list Z :=
  [0; 0; 31; 59; 90; 120; 151; 181; 212; 243; 273; 304; 334].

Definition days_before_month (year month : Z) : Z :=
  nth (Z.to_nat month) DAYS_BEFORE_MONTH 0
  + (if (2 <? month) && is_leap year then 1 else 0).

Definition ymd2ord (year month day : Z) : Z :=
  days_before_year year + days_before_month year month + day.

(** [_ord2ymd] of CPython's [datetime], step by step. *)
Definition ord2ymd (ordinal : Z) : Z * Z * Z :=
  let n := ordinal - 1 in
  let n400 := n / 146097 in let n := n mod 146097 in
  let year := n400 * 400 + 1 in
  let n100 := n / 36524 in let n := n mod 36524 in
  let n4 := n / 1461 in let n := n mod 1461 in
  let n1 := n / 365 in let n := n mod 365 in
  let year := year + n100 * 100 + n4 * 4 + n1 in
  if (n1 =? 4) || (n100 =? 4) then (year - 1, 12, 31)
  else
    let leapyear := (n1 =? 3) && (negb (n4 =? 24) || (n100 =? 3)) in
    let month := Z.shiftr (n + 50) 5 in
    let preceding :=
      nth (Z.to_nat month) DAYS_BEFORE_MONTH 0
      + (if (2 <? month) && leapyear then 1 else 0) in
    if n <? preceding then
      let month := month - 1 in
      let preceding :=
        preceding
        - (nth (Z.to_nat month) [0; 31; 28; 31; 30; 31; 30; 31; 31; 30; 31; 30; 31] 0
           + (if (month =? 2) && leapyear then 1 else 0)) in
      (year, month, n - preceding + 1)
    else (year, month, n - preceding + 1).

Definition year_of (d : date) : Z := (ord2ymd d).1.1.
Definition month_of (d : date) : Z := (ord2ymd d).1.2.

(** A [datetime.time] as [strptime(..., '%H:%M').time()] builds it: the
    second and the microsecond are 0. *)
Record time := MkTime { hour : Z; minute : Z }.

Global Instance time_eq_dec : EqDecision time.
Proof. solve_decision. Defined.

Definition seconds_of_time (t : time) : Z := hour t * 3600 + minute t * 60.

Record datetime := MkDateTime { dt_date : date; dt_time : time }.

(** [datetime.combine(date, time)] *)
Definition combine (d : date) (t : time) : datetime := MkDateTime d t.

(** [a < b] on two [datetime]s: by date, then by time of day. *)
Definition datetime_ltb (a b : datetime) : bool :=
  (dt_date a <? dt_date b)
  || ((dt_date a =? dt_date b)
      && (seconds_of_time (dt_time a) <? seconds_of_time (dt_time b))).

(** [date + timedelta(days=n)]: [OverflowError] (here [None]) outside
    [1 .. MAXORDINAL]. *)
Definition date_add_days (d : date) (n : Z) : option date :=
  let o := d + n in
  if (0 <? o) && (o <=? MAXORDINAL) then Some o else None.

(** [(a - b).total_seconds()], an integral number of seconds here. *)
Definition total_seconds (a b : datetime) : Z :=
  (dt_date a - dt_date b) * 86400
  + (seconds_of_time (dt_time a) - seconds_of_time (dt_time b)).

(** [int(x / 60)] for an integral number of seconds [x]: the quotient of
    the float division is within one ulp of the exact one, so truncating it
    is truncating the exact quotient. *)
Definition int_div60 (secs : Z) : Z := Z.quot secs 60.

(** *** [strptime] for the two formats of the routes

    The regular expressions [_strptime] builds for the directives are tried
    alternative by alternative, in order, as the [re] module does, on the
    characters of the text. A position of a pattern is a class of ASCII
    digits, as [[0-3]], or [\d], which any decimal digit of Unicode
    matches; [decimal] gives the value of such a digit, and [int] reads
    the digits matched by their values. *)

Inductive atom := Class (lo hi : Z) | AnyDigit.

Definition matcher := list Z → option (Z * list Z).

Definition in_range (lo hi x : Z) : bool := (lo <=? x) && (x <=? hi).

Section Strptime.
Variable decimal : Z → option Z.

Definition read (a : atom) (c : Z) : option Z :=
  match a with
  | Class lo hi => if in_range (48 + lo) (48 + hi) c then Some (c - 48) else None
  | AnyDigit => decimal c
  end.

Definition one (a : atom) : matcher := λ cs,
  match cs with
  | c :: r => d ← read a c; Some (d, r)
  | _ => None
  end.

Definition two (a1 a2 : atom) : matcher := λ cs,
  match cs with
  | c1 :: c2 :: r => d1 ← read a1 c1; d2 ← read a2 c2; Some (10 * d1 + d2, r)
  | _ => None
  end.

Definition four (a : atom) : matcher := λ cs,
  match cs with
  | c1 :: c2 :: c3 :: c4 :: r =>
      d1 ← read a c1; d2 ← read a c2; d3 ← read a c3; d4 ← read a c4;
      Some (1000 * d1 + 100 * d2 + 10 * d3 + d4, r)
  | _ => None
  end.

Definition after_space (m : matcher) : matcher := λ cs,
  match cs with
  | c :: r => if decide (c = 32) then m r else None
  | _ => None
  end.

(** [%H]: [2[0-3]|[0-1]\d|\d]   [%M]: [[0-5]\d|\d]   [%Y]: [\d\d\d\d]
    [%m]: [1[0-2]|0[1-9]|[1-9]]
    [%d]: [3[01]|[12]\d|0[1-9]|[1-9]| [1-9]] *)
Definition re_H : list matcher :=
  [two (Class 2 2) (Class 0 3); two (Class 0 1) AnyDigit; one AnyDigit].
Definition re_M : list matcher := [two (Class 0 5) AnyDigit; one AnyDigit].
Definition re_Y : list matcher := [four AnyDigit].
Definition re_m : list matcher :=
  [two (Class 1 1) (Class 0 2); two (Class 0 0) (Class 1 9); one (Class 1 9)].
Definition re_d : list matcher :=
  [two (Class 3 3) (Class 0 1); two (Class 1 2) AnyDigit;
   two (Class 0 0) (Class 1 9); one (Class 1 9); after_space (one (Class 1 9))].

(** All the ways an alternation matches a prefix, first alternative first. *)
Definition alt (ms : list matcher) (cs : list Z) : list (Z * list Z) :=
  omap (λ m : matcher, m cs) ms.

Definition lit (c : Z) (cs : list Z) : list (list Z) :=
  match cs with
  | c' :: r => if decide (c' = c) then [r] else []
  | [] => []
  end.

Definition at_end (cs : list Z) : list unit :=
  match cs with [] => [()] | _ => [] end.

(** [datetime.strptime(s, '%H:%M').time()]; [None] is [ValueError]. *)
Definition strptime_time (s : string) : option time :=
  head (
    '(h, r1) ← alt re_H (Text.of_string s);
    r2 ← lit 58 r1;
    '(m, r3) ← alt re_M r2;
    _ ← at_end r3;
    [MkTime h m]).

(** [datetime.strptime(s, '%Y-%m-%d').date()]; [None] is [ValueError]
    (no match, year 0, or a day the month does not have). *)
Definition strptime_date (s : string) : option date :=
  '(y, m, d) ← head (
    '(y, r1) ← alt re_Y (Text.of_string s);
    r2 ← lit 45 r1;
    '(m, r3) ← alt re_m r2;
    r4 ← lit 45 r3;
    '(d, r5) ← alt re_d r4;
    _ ← at_end r5;
    [(y, m, d)]);
  if (MINYEAR <=? y) && (y <=? MAXYEAR) && (d <=? days_in_month y m)
  then Some (ymd2ord y m d) else None.

End Strptime.

(** [date_trunc('month', d)]: the first instant of the month of [d], kept
    as the pair of its year and month; [<=] on two of them. *)
Definition date_trunc_month (d : date) : Z * Z := (year_of d, month_of d).

Definition month_le (a b : Z * Z) : Prop :=
  a.1 < b.1 ∨ (a.1 = b.1 ∧ a.2 ≤ b.2).

Global Instance month_le_dec a b : Decision (month_le a b).
Proof. unfold month_le. apply _. Defined.

Definition digit_char (d : Z) : ascii :=
  ascii_of_N (Z.to_N (48 + d mod 10)).

(** [month.strftime('%Y-%m')]: four digits, a dash, two digits. *)
Definition strftime_Ym (ym : Z * Z) : string :=
  let '(y, m) := ym in
  String (digit_char (y / 1000)) (String (digit_char (y / 100))
    (String (digit_char (y / 10)) (String (digit_char y)
      (String "-"%char
        (String (digit_char (m / 10)) (String (digit_char m) EmptyString)))))).

End Calendar.

(** ** Python values, exceptions and the collaborators of the routes *)

Inductive exn :=
  | ValueError | TypeError | KeyError | OverflowError | AttributeError
  | UnboundLocalError    (* a local variable read before its assignment *)
  | IntegrityError       (* a NOT NULL, key or foreign-key constraint *)
  | DataError            (* a value the storage backend rejects *)
  | ProgrammingError     (* a statement the storage backend cannot run *)
  | InvalidRequestError. (* a query the mapping layer cannot build *)

Global Instance exn_eq_dec : EqDecision exn.
Proof. solve_decision. Defined.

(** What the routes use and do not define: Python's binary floating point
    and its Unicode database, Werkzeug's password hashing and SQL's
    [ILIKE]. *)
Class Backend := {
  float : Type;
  float_eq_dec :: EqDecision float;
  float_of_int : Z → float;               (* float(n) *)
  float_of_str : string → option float;   (* float(s); None: ValueError *)
  float_nonzero : float → bool;           (* bool(x) *)
  float_text : float → string;            (* a float stored in a text column *)
  decimal : Z → option Z;                 (* unicodedata.decimal(chr(c)) *)
  decimal_range : ∀ c d, decimal c = Some d → 0 ≤ d ≤ 9;
  fadd : float → float → float;
  fmul : float → float → float;
  fdiv : float → float → float;
  int_truediv : Z → Z → float;            (* a / b on two ints, b nonzero *)
  round_nd : float → Z → float;           (* round(x, ndigits) *)
  generate_password_hash : string → string → string;  (* salt, password *)
  check_password_hash : string → string → bool;       (* hash, password *)
  ilike : string → string → bool;         (* value ILIKE pattern *)
}.

Section Model.
Context `{B : Backend}.

(** A number as a response carries it: Python keeps [0] (an [int]) and
    [0.0] (a [float]) apart. *)
Inductive pynum := PInt (n : Z) | PFloat (x : float).

Global Instance pynum_eq_dec : EqDecision pynum.
Proof. solve_decision. Defined.

(** The values of a JSON payload. Arrays and objects as field values are
    outside the model. *)
Inductive json :=
  | JNull | JBool (b : bool) | JInt (n : Z) | JFloat (x : float)
  | JStr (s : string).

Global Instance json_eq_dec : EqDecision json.
Proof. solve_decision. Defined.

(** [bool(v)] *)
Definition truthy (v : json) : bool :=
  match v with
  | JNull => false
  | JBool b => b
  | JInt n => negb (n =? 0)
  | JFloat x => float_nonzero x
  | JStr s => negb (String.eqb s "")
  end.

(** The outcome of a route body: a value, an early [return] of a response,
    or a raised exception. *)
Inductive outcome (R A : Type) :=
  | Done (a : A)
  | Return (r : R)
  | Raise (e : exn).
Global Arguments Done {R A} a.
Global Arguments Return {R A} r.
Global Arguments Raise {R A} e.

Global Instance outcome_ret {R} : MRet (outcome R) := λ A, Done.
Global Instance outcome_bind {R} : MBind (outcome R) := λ A C f m,
  match m with
  | Done a => f a
  | Return r => Return r
  | Raise e => Raise e
  end.

(** [if c: return r] *)
Definition return_if {R} (c : bool) (r : R) : outcome R unit :=
  if c then Return r else Done ().

Definition raise_if {R} (c : bool) (e : exn) : outcome R unit :=
  if c then Raise e else Done ().

Definition of_option {R A} (o : option A) (e : exn) : outcome R A :=
  match o with Some a => Done a | None => Raise e end.

(** A payload is a [dict]: [data.get(k)], [k in data], [data[k]]. *)
Definition payload := gmap string json.

Definition get (data : payload) (k : string) : json :=
  default JNull (data !! k).

Definition has_key (data : payload) (k : string) : bool :=
  bool_decide (is_Some (data !! k)).

Definition item {R} (data : payload) (k : string) : outcome R json :=
  of_option (data !! k) KeyError.

(** [float(v)] *)
Definition to_float {R} (v : json) : outcome R float :=
  match v with
  | JNull => Raise TypeError
  | JBool b => Done (float_of_int (if b then 1 else 0))
  | JInt n => Done (float_of_int n)
  | JFloat x => Done x
  | JStr s => of_option (float_of_str s) ValueError
  end.

(** [float(v) if v else None] *)
Definition to_float_or_none {R} (v : json) : outcome R (option float) :=
  if truthy v then x ← to_float v; Done (Some x) else Done None.

(** [datetime.strptime(v, fmt)]: a [TypeError] unless [v] is a [str]. *)
Definition to_date {R} (v : json) : outcome R Calendar.date :=
  match v with
  | JStr s => of_option (Calendar.strptime_date decimal s) ValueError
  | _ => Raise TypeError
  end.

Definition to_time {R} (v : json) : outcome R Calendar.time :=
  match v with
  | JStr s => of_option (Calendar.strptime_time decimal s) ValueError
  | _ => Raise TypeError
  end.

(** A value compared with a text column in a [WHERE] clause. PostgreSQL
    has no [=] between a text and a number or a boolean, and refuses the
    statement. The routes compare only values they found true, so [None]
    does not get here. *)
Definition to_text_nn {R} (v : json) : outcome R string :=
  match v with
  | JStr s => Done s
  | JNull => Raise IntegrityError
  | _ => Raise ProgrammingError
  end.

(** The text PostgreSQL makes of a value assigned to a text column: a
    number or a boolean is cast to its text. *)
Definition text_of (v : json) : option string :=
  match v with
  | JNull => None
  | JBool b => Some (if b then "true" else "false")
  | JInt n => Some (pretty n)
  | JFloat x => Some (float_text x)
  | JStr s => Some s
  end.

(** [character varying(n)]: a longer text is refused, unless what
    exceeds [n] characters is spaces, which are cut off. *)
Definition varchar {R} (n : Z) (s : string) : outcome R string :=
  let cs := list_ascii_of_string s in
  let keep := (length cs - Z.to_nat (Text.char_length s - n))%nat in
  if Text.char_length s <=? n then Done s
  else if bool_decide (Forall (λ c, c = " "%char) (drop keep cs))
  then Done (string_of_list_ascii (take keep cs))
  else Raise DataError.

(** A value assigned to a column [String(n)], or [Text] for no [n]. *)
Definition bind_text {R} (n : option Z) (v : json) : outcome R (option string) :=
  match text_of v, n with
  | Some s, Some n => s' ← varchar n s; Done (Some s')
  | t, _ => Done t
  end.

(** The same for a column that is NOT NULL. *)
Definition bind_text_nn {R} (n : Z) (v : json) : outcome R string :=
  t ← bind_text (Some n) v; of_option t IntegrityError.

(** A value assigned to a foreign-key column. A key is the text of a
    UUID: the text of a number or a boolean is none and names no row. *)
Definition bind_key {R} (v : json) : outcome R string :=
  match v with
  | JStr s => Done s
  | _ => Raise IntegrityError
  end.

(** [v == column] on a payload value and the value loaded from a text
    column. *)
Definition same_text (v : json) (column : option string) : bool :=
  match v, column with
  | JNull, None => true
  | JStr s, Some s' => String.eqb s s'
  | _, _ => false
  end.

(** [row.column = v] and the commit: the mapping layer writes the column
    only when the value is not the one it loaded. *)
Definition set_text {R} (n : option Z) (v : json) (column : option string)
    : outcome R (option string) :=
  if same_text v column then Done column else bind_text n v.

Definition set_text_nn {R} (n : Z) (v : json) (column : string)
    : outcome R string :=
  if same_text v (Some column) then Done column else bind_text_nn n v.

(** The payload assigns a text column a value other than the one loaded. *)
Definition reassigned (v : option json) (column : option string) : bool :=
  match v with
  | Some v => negb (same_text v column)
  | None => false
  end.

(** ** The mapped classes of [src/models/database.py] *)

Record User := {
  u_id : string;
  u_email : string;
  u_username : string;
  u_password_hash : string;
  u_created_at : Z;
  u_updated_at : Z }.

Record Location := {
  l_id : string;
  l_user_id : string;
  l_name : string;
  l_latitude : float;
  l_longitude : float;
  l_description : option string;
  l_created_at : Z;
  l_updated_at : Z }.

Record FishingSession := {
  s_id : string;
  s_user_id : string;
  s_location_id : string;
  s_date : Calendar.date;
  s_start_time : Calendar.time;
  s_end_time : Calendar.time;
  s_duration_minutes : option Z;
  s_weather_conditions : option string;
  s_temperature_celsius : option float;
  s_notes : option string;
  s_created_at : Z;
  s_updated_at : Z }.

Record Catch := {
  c_id : string;
  c_session_id : string;
  c_species : string;
  c_weight_kg : option float;
  c_length_cm : option float;
  c_bait_used : option string;
  c_released : bool;
  c_photo_url : option string;
  c_created_at : Z;
  c_updated_at : Z }.

Global Instance User_eq_dec : EqDecision User.
Proof. solve_decision. Defined.
Global Instance Location_eq_dec : EqDecision Location.
Proof. solve_decision. Defined.
Global Instance FishingSession_eq_dec : EqDecision FishingSession.
Proof. solve_decision. Defined.
Global Instance Catch_eq_dec : EqDecision Catch.
Proof. solve_decision. Defined.

(** The four tables, each in insertion order. *)
Record store := {
  users : list User;
  locations : list Location;
  fishing_sessions : list FishingSession;
  catches : list Catch }.

Global Instance store_eq_dec : EqDecision store.
Proof. solve_decision. Defined.

Definition empty_store : store := Build_store [] [] [] [].

(** ** Requests and responses *)

(** What a request brings besides its payload: the clock, the UUID and
    the salt the server draws while it handles the request. *)
Record context := {
  now : Z;                  (* datetime.utcnow() *)
  today : Calendar.date;    (* datetime.now().date() *)
  new_id : string;          (* generate_uuid() *)
  salt : string }.

(** The [Authorization] header once [jwt.decode] has run on it. *)
Inductive token :=
  | NoToken | BadToken | ExpiredToken
  | ValidToken (user_id : string).

(** The texts of the ['error'] field, one constructor per text. *)
Inductive message :=
  | TokenRequired | TokenInvalid | TokenExpired
  | CurrentPasswordRequired | NewPasswordRequired | CurrentPasswordWrong
  | BadCredentials
  | EmailRequired | UsernameRequired | PasswordRequired
  | EmailTaken | UsernameTaken
  | NameRequired | LatitudeRequired | LongitudeRequired
  | LocationNameTaken | LocationNotFound | LatLonInvalid
  | LocationHasSessions
  | LocationRequired | DateRequired | StartTimeRequired | EndTimeRequired
  | DateTimeFormat | SessionNotFound
  | SessionIdRequired | SpeciesRequired | CatchNotFound
  | ValidationError (e : exn)     (* 'Erro de validação: ' + str(e) *)
  | Unhandled (e : exn).          (* str(e) *)

(** The texts of the ['message'] field. *)
Inductive success :=
  | UserCreated | PasswordChanged
  | LocationCreated | LocationUpdated | LocationDeleted (name : string)
  | SessionCreated | SessionUpdated
  | SessionDeleted (d : Calendar.date) (location_name : string)
  | CatchCreated | CatchUpdated
  | CatchDeleted (species : string) (weight : option float).

(** [User.to_dict()]: the hash is left out. *)
Record UserDict := {
  ud_id : string; ud_email : string; ud_username : string;
  ud_created_at : Z; ud_updated_at : Z }.

(** [FishingSession.to_dict()]: the columns and two derived entries. *)
Record SessionDict := {
  sd_row : FishingSession;
  sd_location_name : option string;
  sd_catches_count : Z }.

(** What [paginate] returns. *)
Record Page (A : Type) := {
  pg_items : list A; pg_total : Z; pg_pages : Z;
  pg_current_page : Z; pg_per_page : Z }.
Global Arguments pg_items {A} _.
Global Arguments pg_total {A} _.
Global Arguments pg_pages {A} _.
Global Arguments pg_current_page {A} _.
Global Arguments pg_per_page {A} _.
Global Arguments Build_Page {A} _ _ _ _ _.

Record Overview := {
  total_sessions : Z;
  total_catches : Z;
  total_locations : Z;
  released_count : Z;
  kept_count : Z;
  total_weight_kg : pynum;
  total_hours : pynum;
  last_session_date : option Calendar.date;
  last_session_location : option string }.

Record SpeciesStat := {
  sp_species : string;
  sp_count : Z;
  sp_avg_weight_kg : option float;
  sp_total_weight_kg : option float;
  sp_released_count : Z;
  sp_kept_count : Z }.

Record LocationStat := {
  ls_location_id : string;
  ls_location_name : string;
  ls_sessions_count : Z;
  ls_catches_count : Z;
  ls_total_hours : pynum;
  ls_avg_weight_kg : option float }.

Record BaitStat := {
  b_bait : string;
  b_count : Z;
  b_avg_weight_kg : option float;
  b_released_count : Z;
  b_kept_count : Z;
  b_success_rate : pynum }.

Record MonthStat := {
  m_month : string;
  m_sessions_count : Z;
  m_total_hours : pynum;
  m_catches_count : Z;
  m_total_weight_kg : pynum }.

Inductive body :=
  | BError (m : message)
  | BMessage (m : success)
  | BUser (m : option success) (u : UserDict)
  | BLocations (ls : list Location)
  | BLocation (m : option success) (l : Location)
  | BSessions (p : Page SessionDict)
  | BSession (m : option success) (s : SessionDict)
  | BSessionDetail (s : SessionDict) (cs : list Catch)
  | BCatches (p : Page Catch)
  | BCatch (m : option success) (c : Catch)
  | BSessionCatches (cs : list Catch) (sid : string)
      (d : Calendar.date) (location_name : string)
  | BOverview (o : Overview)
  | BSpecies (l : list SpeciesStat)
  | BLocationStats (l : list LocationStat)
  | BBaits (l : list BaitStat)
  | BMonthly (l : list MonthStat)
  | BRecent (ss : list SessionDict) (cs : list Catch).

Record response := { status : Z; content : body }.

Global Instance message_eq_dec : EqDecision message.
Proof. solve_decision. Defined.
Global Instance success_eq_dec : EqDecision success.
Proof. solve_decision. Defined.
Global Instance UserDict_eq_dec : EqDecision UserDict.
Proof. solve_decision. Defined.
Global Instance SessionDict_eq_dec : EqDecision SessionDict.
Proof. solve_decision. Defined.
Global Instance Page_eq_dec {A} `{EqDecision A} : EqDecision (Page A).
Proof. solve_decision. Defined.
Global Instance Overview_eq_dec : EqDecision Overview.
Proof. solve_decision. Defined.
Global Instance SpeciesStat_eq_dec : EqDecision SpeciesStat.
Proof. solve_decision. Defined.
Global Instance LocationStat_eq_dec : EqDecision LocationStat.
Proof. solve_decision. Defined.
Global Instance BaitStat_eq_dec : EqDecision BaitStat.
Proof. solve_decision. Defined.
Global Instance MonthStat_eq_dec : EqDecision MonthStat.
Proof. solve_decision. Defined.
Global Instance body_eq_dec : EqDecision body.
Proof. solve_decision. Defined.
Global Instance response_eq_dec : EqDecision response.
Proof. solve_decision. Defined.

Definition error (code : Z) (m : message) : response :=
  {| status := code; content := BError m |}.

Definition ok (code : Z) (b : body) : response :=
  {| status := code; content := b |}.

(** The body of a route ends with a response and the store it committed. *)
Definition route := outcome response (response * store).

(** [try: ... except ValueError ...: 400  except Exception as e: rollback; 500]:
    when the body raises, nothing was committed. [on_value_error] is the
    text of the [except ValueError] clause, when the route has one. *)
Definition try_except (on_value_error : option (exn → message))
    (st : store) (r : route) : response * store :=
  match r with
  | Done res => res
  | Return resp => (resp, st)
  | Raise e =>
      match on_value_error with
      | Some text =>
          if decide (e = ValueError) then (error 400 (text e), st)
          else (error 500 (Unhandled e), st)
      | None => (error 500 (Unhandled e), st)
      end
  end.

(** ** The queries of the routes *)

(** [User.query.get(uid)] *)
Definition get_user (st : store) (uid : string) : option User :=
  head (filter (λ u, u_id u = uid) (users st)).

(** [Location.query.filter_by(user_id=uid)] *)
Definition locations_of (st : store) (uid : string) : list Location :=
  filter (λ l, l_user_id l = uid) (locations st).

(** [Location.query.filter_by(id=lid, user_id=uid).first()] *)
Definition find_location (st : store) (lid uid : string) : option Location :=
  head (filter (λ l, l_id l = lid ∧ l_user_id l = uid) (locations st)).

(** [Location.query.filter_by(user_id=uid, name=name).first()] *)
Definition find_location_named (st : store) (uid name : string)
    : option Location :=
  head (filter (λ l, l_user_id l = uid ∧ l_name l = name) (locations st)).

(** [FishingSession.query.filter_by(user_id=uid)] *)
Definition sessions_of (st : store) (uid : string) : list FishingSession :=
  filter (λ s, s_user_id s = uid) (fishing_sessions st).

(** [FishingSession.query.filter_by(id=sid, user_id=uid).first()] *)
Definition find_session (st : store) (sid uid : string)
    : option FishingSession :=
  head (filter (λ s, s_id s = sid ∧ s_user_id s = uid) (fishing_sessions st)).

(** [db.session.query(Catch).join(FishingSession)]: every catch with every
    session its foreign key names. The queries that join select from
    [Catch] and [FishingSession] at most, which one foreign key links:
    the join has its left side (see [implicit_left] for the one query
    that has not). *)
Definition catch_join (st : store) : list (Catch * FishingSession) :=
  c ← catches st;
  s ← fishing_sessions st;
  if decide (c_session_id c = s_id s) then [(c, s)] else [].

(** [... .filter(FishingSession.user_id == uid)] *)
Definition catch_join_of (st : store) (uid : string)
    : list (Catch * FishingSession) :=
  filter (λ cs, s_user_id cs.2 = uid) (catch_join st).

Definition catches_of (st : store) (uid : string) : list Catch :=
  (catch_join_of st uid).*1.

(** [... .filter(Catch.id == cid, FishingSession.user_id == uid).first()] *)
Definition find_catch (st : store) (cid uid : string) : option Catch :=
  head (filter (λ c, c_id c = cid) (catches_of st uid)).

(** The relationships: [location.fishing_sessions], [session.location],
    [session.catches]. *)
Definition location_sessions (st : store) (l : Location)
    : list FishingSession :=
  filter (λ s, s_location_id s = l_id l) (fishing_sessions st).

Definition session_location (st : store) (s : FishingSession)
    : option Location :=
  head (filter (λ l, l_id l = s_location_id s) (locations st)).

Definition session_catches (st : store) (s : FishingSession) : list Catch :=
  filter (λ c, c_session_id c = s_id s) (catches st).

Definition user_to_dict (u : User) : UserDict :=
  {| ud_id := u_id u; ud_email := u_email u; ud_username := u_username u;
     ud_created_at := u_created_at u; ud_updated_at := u_updated_at u |}.

Definition session_to_dict (st : store) (s : FishingSession) : SessionDict :=
  {| sd_row := s;
     sd_location_name := l_name <$> session_location st s;
     sd_catches_count := Z.of_nat (length (session_catches st s)) |}.

(** [query.paginate(page=page, per_page=per_page, error_out=False)] of
    Flask-SQLAlchemy on an ordered result. *)
Definition paginate {A} (page per_page : Z) (rows : list A) : Page A :=
  let page := if page <? 1 then 1 else page in
  let per_page := if per_page <? 1 then 20 else per_page in
  let total := Z.of_nat (length rows) in
  {| pg_items :=
       take (Z.to_nat per_page) (drop (Z.to_nat ((page - 1) * per_page)) rows);
     pg_total := total;
     pg_pages := if total =? 0 then 0 else (total + per_page - 1) / per_page;
     pg_current_page := page;
     pg_per_page := per_page |}.

(** [.limit(n)]: the backend refuses a negative limit. *)
Definition limit {R A} (n : Z) (rows : list A) : outcome R (list A) :=
  if n <? 0 then Raise DataError else Done (take (Z.to_nat n) rows).

(** [ORDER BY]: a stable sort, so that rows the key does not tell apart
    keep the order of the table (SQL leaves their order open). *)
Definition order_by {A} (le : A → A → Prop) `{∀ x y, Decision (le x y)}
    (rows : list A) : list A :=
  merge_sort le rows.

(** ** Writing to the store *)

Definition set_users (st : store) (us : list User) : store :=
  {| users := us; locations := locations st;
     fishing_sessions := fishing_sessions st; catches := catches st |}.
Definition set_locations (st : store) (ls : list Location) : store :=
  {| users := users st; locations := ls;
     fishing_sessions := fishing_sessions st; catches := catches st |}.
Definition set_sessions (st : store) (ss : list FishingSession) : store :=
  {| users := users st; locations := locations st;
     fishing_sessions := ss; catches := catches st |}.
Definition set_catches (st : store) (cs : list Catch) : store :=
  {| users := users st; locations := locations st;
     fishing_sessions := fishing_sessions st; catches := cs |}.

Definition has_user (st : store) (uid : string) : bool :=
  bool_decide (uid ∈ u_id <$> users st).
Definition has_location (st : store) (lid : string) : bool :=
  bool_decide (lid ∈ l_id <$> locations st).
Definition has_session (st : store) (sid : string) : bool :=
  bool_decide (sid ∈ s_id <$> fishing_sessions st).
Definition has_catch (st : store) (cid : string) : bool :=
  bool_decide (cid ∈ c_id <$> catches st).

(** [db.session.add(row); db.session.commit()]: the INSERT fails on a
    primary key that is taken and on a foreign key that names no row. The
    texts of the row were bound to their columns before ([varchar],
    [bind_text]); a key is a UUID and a hash of Werkzeug has some 160
    characters, which their columns hold. *)
Definition insert_user {R} (st : store) (u : User) : outcome R store :=
  _ ← raise_if (has_user st (u_id u)) IntegrityError;
  _ ← raise_if (bool_decide (u_email u ∈ u_email <$> users st)) IntegrityError;
  _ ← raise_if (bool_decide (u_username u ∈ u_username <$> users st))
        IntegrityError;
  Done (set_users st (users st ++ [u])).

Definition insert_location {R} (st : store) (l : Location) : outcome R store :=
  _ ← raise_if (has_location st (l_id l)) IntegrityError;
  _ ← raise_if (negb (has_user st (l_user_id l))) IntegrityError;
  Done (set_locations st (locations st ++ [l])).

Definition insert_session {R} (st : store) (s : FishingSession)
    : outcome R store :=
  _ ← raise_if (has_session st (s_id s)) IntegrityError;
  _ ← raise_if (negb (has_user st (s_user_id s))) IntegrityError;
  _ ← raise_if (negb (has_location st (s_location_id s))) IntegrityError;
  Done (set_sessions st (fishing_sessions st ++ [s])).

Definition insert_catch {R} (st : store) (c : Catch) : outcome R store :=
  _ ← raise_if (has_catch st (c_id c)) IntegrityError;
  _ ← raise_if (negb (has_session st (c_session_id c))) IntegrityError;
  Done (set_catches st (catches st ++ [c])).

(** [UPDATE ... WHERE id = :id] on commit. The mapping layer writes a row
    only when an attribute was given another value than the one loaded,
    and stamps [updated_at] when it writes. [touched] tells that a text
    column was assigned such a value; the other columns hold the values
    assigned. *)
Definition replace_row {A} (key : A → string) (new : A) (rows : list A)
    : list A :=
  (λ r, if decide (key r = key new) then new else r) <$> rows.

Definition stamp_user (t : Z) (u : User) : User :=
  {| u_id := u_id u; u_email := u_email u; u_username := u_username u;
     u_password_hash := u_password_hash u;
     u_created_at := u_created_at u; u_updated_at := t |}.

Definition stamp_location (t : Z) (l : Location) : Location :=
  {| l_id := l_id l; l_user_id := l_user_id l; l_name := l_name l;
     l_latitude := l_latitude l; l_longitude := l_longitude l;
     l_description := l_description l;
     l_created_at := l_created_at l; l_updated_at := t |}.

Definition stamp_session (t : Z) (s : FishingSession) : FishingSession :=
  {| s_id := s_id s; s_user_id := s_user_id s;
     s_location_id := s_location_id s; s_date := s_date s;
     s_start_time := s_start_time s; s_end_time := s_end_time s;
     s_duration_minutes := s_duration_minutes s;
     s_weather_conditions := s_weather_conditions s;
     s_temperature_celsius := s_temperature_celsius s;
     s_notes := s_notes s;
     s_created_at := s_created_at s; s_updated_at := t |}.

Definition stamp_catch (t : Z) (c : Catch) : Catch :=
  {| c_id := c_id c; c_session_id := c_session_id c;
     c_species := c_species c; c_weight_kg := c_weight_kg c;
     c_length_cm := c_length_cm c; c_bait_used := c_bait_used c;
     c_released := c_released c; c_photo_url := c_photo_url c;
     c_created_at := c_created_at c; c_updated_at := t |}.

Definition stamp_if_changed {A} `{EqDecision A} (touched : bool)
    (stamp : A → A) (old new : A) : A :=
  if touched then stamp new
  else if decide (new = old) then old else stamp new.

Definition update_user (cx : context) (st : store) (old new : User) : store :=
  set_users st
    (replace_row u_id (stamp_if_changed false (stamp_user (now cx)) old new)
       (users st)).

Definition update_location_row {R} (cx : context) (st : store)
    (touched : bool) (old new : Location) : outcome R store :=
  Done (set_locations st
    (replace_row l_id
       (stamp_if_changed touched (stamp_location (now cx)) old new)
       (locations st))).

Definition update_session_row {R} (cx : context) (st : store)
    (touched : bool) (old new : FishingSession) : outcome R store :=
  _ ← raise_if (negb (has_location st (s_location_id new))) IntegrityError;
  Done (set_sessions st
    (replace_row s_id
       (stamp_if_changed touched (stamp_session (now cx)) old new)
       (fishing_sessions st))).

Definition update_catch_row {R} (cx : context) (st : store)
    (touched : bool) (old new : Catch) : outcome R store :=
  _ ← raise_if (negb (has_session st (c_session_id new))) IntegrityError;
  Done (set_catches st
    (replace_row c_id
       (stamp_if_changed touched (stamp_catch (now cx)) old new)
       (catches st))).

(** [db.session.delete(row); db.session.commit()] with the
    ['all, delete-orphan'] cascades of the relationships. *)
Definition delete_catch_row (st : store) (c : Catch) : store :=
  set_catches st (filter (λ c', c_id c' ≠ c_id c) (catches st)).

Definition delete_session_row (st : store) (s : FishingSession) : store :=
  set_sessions
    (set_catches st (filter (λ c, c_session_id c ≠ s_id s) (catches st)))
    (filter (λ s', s_id s' ≠ s_id s) (fishing_sessions st)).

Definition delete_location_row (st : store) (l : Location) : store :=
  set_locations
    (foldr (λ s acc, delete_session_row acc s) st (location_sessions st l))
    (filter (λ l', l_id l' ≠ l_id l) (locations st)).

(** ** [src/routes/auth.py] *)

Definition or_return {A} (o : option A) (r : response)
    : outcome response A :=
  match o with Some a => Done a | None => Return r end.

(** [data[k] != column] on a payload value and a text column *)
Definition json_ne_str (v : json) (s : string) : bool :=
  match v with JStr s' => negb (String.eqb s' s) | _ => true end.

(** A password handed to Werkzeug: [.encode()] exists on a [str] only. *)
Definition to_password (v : json) : outcome response string :=
  match v with JStr s => Done s | _ => Raise AttributeError end.

(** The decorator: the identity behind the token, or 401. *)
Definition token_required (f : User → store → response * store)
    (tk : token) (st : store) : response * store :=
  match tk with
  | NoToken => (error 401 TokenRequired, st)
  | BadToken => (error 401 TokenInvalid, st)
  | ExpiredToken => (error 401 TokenExpired, st)
  | ValidToken uid =>
      match get_user st uid with
      | None => (error 401 TokenInvalid, st)
      | Some current_user => f current_user st
      end
  end.

Definition register (cx : context) (data : payload) (st : store)
    : response * store :=
  try_except None st (
    _ ← return_if (negb (truthy (get data "email"))) (error 400 EmailRequired);
    _ ← return_if (negb (truthy (get data "username")))
          (error 400 UsernameRequired);
    _ ← return_if (negb (truthy (get data "password")))
          (error 400 PasswordRequired);
    email ← to_text_nn (get data "email");
    _ ← return_if (bool_decide (email ∈ u_email <$> users st))
          (error 400 EmailTaken);
    username ← to_text_nn (get data "username");
    _ ← return_if (bool_decide (username ∈ u_username <$> users st))
          (error 400 UsernameTaken);
    password ← to_password (get data "password");
    (* the INSERT binds the texts to [String(120)] and [String(80)] *)
    email ← varchar 120 email;
    username ← varchar 80 username;
    let user :=
      {| u_id := new_id cx; u_email := email; u_username := username;
         u_password_hash := generate_password_hash (salt cx) password;
         u_created_at := now cx; u_updated_at := now cx |} in
    st' ← insert_user st user;
    Done (ok 201 (BUser (Some UserCreated) (user_to_dict user)), st')).

Definition get_current_user (current_user : User) (st : store)
    : response * store :=
  (ok 200 (BUser None (user_to_dict current_user)), st).

Definition change_password (cx : context) (data : payload)
    (current_user : User) (st : store) : response * store :=
  try_except None st (
    _ ← return_if (negb (truthy (get data "current_password")))
          (error 400 CurrentPasswordRequired);
    _ ← return_if (negb (truthy (get data "new_password")))
          (error 400 NewPasswordRequired);
    current ← to_password (get data "current_password");
    _ ← return_if
          (negb (check_password_hash (u_password_hash current_user) current))
          (error 401 CurrentPasswordWrong);
    new ← to_password (get data "new_password");
    let user :=
      {| u_id := u_id current_user; u_email := u_email current_user;
         u_username := u_username current_user;
         u_password_hash := generate_password_hash (salt cx) new;
         u_created_at := u_created_at current_user;
         u_updated_at := u_updated_at current_user |} in
    Done (ok 200 (BMessage PasswordChanged),
          update_user cx st current_user user)).

(** ** [src/routes/locations.py] *)

Definition get_locations (current_user : User) (st : store)
    : response * store :=
  (ok 200 (BLocations (locations_of st (u_id current_user))), st).

Definition create_location (cx : context) (data : payload)
    (current_user : User) (st : store) : response * store :=
  try_except (Some (λ _, LatLonInvalid)) st (
    _ ← return_if (negb (truthy (get data "name"))) (error 400 NameRequired);
    _ ← return_if (negb (truthy (get data "latitude")))
          (error 400 LatitudeRequired);
    _ ← return_if (negb (truthy (get data "longitude")))
          (error 400 LongitudeRequired);
    name ← to_text_nn (get data "name");
    _ ← return_if
          (bool_decide
             (is_Some (find_location_named st (u_id current_user) name)))
          (error 400 LocationNameTaken);
    latitude ← to_float (get data "latitude");
    longitude ← to_float (get data "longitude");
    (* the INSERT binds the texts to [String(200)] and [Text] *)
    name ← varchar 200 name;
    description ← bind_text None (get data "description");
    let location :=
      {| l_id := new_id cx; l_user_id := u_id current_user; l_name := name;
         l_latitude := latitude; l_longitude := longitude;
         l_description := description;
         l_created_at := now cx; l_updated_at := now cx |} in
    st' ← insert_location st location;
    Done (ok 201 (BLocation (Some LocationCreated) location), st')).

Definition get_location (location_id : string) (current_user : User)
    (st : store) : response * store :=
  try_except None st (
    location ← or_return (find_location st location_id (u_id current_user))
                 (error 404 LocationNotFound);
    Done (ok 200 (BLocation None location), st)).

Definition update_location (cx : context) (location_id : string)
    (data : payload) (current_user : User) (st : store) : response * store :=
  try_except (Some (λ _, LatLonInvalid)) st (
    location ← or_return (find_location st location_id (u_id current_user))
                 (error 404 LocationNotFound);
    _ ← (if truthy (get data "name")
            && json_ne_str (get data "name") (l_name location)
         then
           name ← to_text_nn (get data "name");
           return_if
             (bool_decide
                (is_Some (find_location_named st (u_id current_user) name)))
             (error 400 LocationNameTaken)
         else Done ());
    latitude ← match data !! "latitude" with
               | Some v => to_float v
               | None => Done (l_latitude location)
               end;
    longitude ← match data !! "longitude" with
                | Some v => to_float v
                | None => Done (l_longitude location)
                end;
    (* the two text columns are bound when the commit writes the row *)
    name ← match data !! "name" with
           | Some v => set_text_nn 200 v (l_name location)
           | None => Done (l_name location)
           end;
    description ← match data !! "description" with
                  | Some v => set_text None v (l_description location)
                  | None => Done (l_description location)
                  end;
    let touched :=
      reassigned (data !! "name") (Some (l_name location))
      || reassigned (data !! "description") (l_description location) in
    let new :=
      {| l_id := l_id location; l_user_id := l_user_id location;
         l_name := name; l_latitude := latitude; l_longitude := longitude;
         l_description := description;
         l_created_at := l_created_at location;
         l_updated_at := l_updated_at location |} in
    st' ← update_location_row cx st touched location new;
    Done (ok 200 (BLocation (Some LocationUpdated)
                    (stamp_if_changed touched (stamp_location (now cx))
                       location new)),
          st')).

Definition delete_location (location_id : string) (current_user : User)
    (st : store) : response * store :=
  try_except None st (
    location ← or_return (find_location st location_id (u_id current_user))
                 (error 404 LocationNotFound);
    _ ← return_if (bool_decide (location_sessions st location ≠ []))
          (error 400 LocationHasSessions);
    Done (ok 200 (BMessage (LocationDeleted (l_name location))),
          delete_location_row st location)).

(** ** [src/routes/fishing_sessions.py] *)

(** [ORDER BY date DESC, start_time DESC] *)
Definition recent_first (a b : FishingSession) : Prop :=
  s_date b < s_date a
  ∨ (s_date b = s_date a
     ∧ Calendar.seconds_of_time (s_start_time b)
       ≤ Calendar.seconds_of_time (s_start_time a)).

Global Instance recent_first_dec a b : Decision (recent_first a b).
Proof. unfold recent_first. apply _. Defined.

(** [request.args.get(k)] is a string or missing; [if v:] on it. *)
Definition arg_given (a : option string) : option string :=
  match a with
  | Some s => if String.eqb s "" then None else Some s
  | None => None
  end.

Definition get_sessions (page per_page : option Z)
    (location_id : option string) (current_user : User) (st : store)
    : response * store :=
  try_except None st (
    let query := sessions_of st (u_id current_user) in
    let query :=
      match arg_given location_id with
      | Some lid => filter (λ s, s_location_id s = lid) query
      | None => query
      end in
    let query := order_by recent_first query in
    let sessions := paginate (default 1 page) (default 10 per_page) query in
    Done (ok 200 (BSessions
            {| pg_items := session_to_dict st <$> pg_items sessions;
               pg_total := pg_total sessions; pg_pages := pg_pages sessions;
               pg_current_page := pg_current_page sessions;
               pg_per_page := pg_per_page sessions |}), st)).

(** The duration of lines 77-84 of [create_session], which lines 179-185
    of [update_session] repeat on the fields of the session. *)
Definition duration_minutes_of {R} (date : Calendar.date)
    (start_time end_time : Calendar.time) : outcome R Z :=
  let start_datetime := Calendar.combine date start_time in
  let end_datetime := Calendar.combine date end_time in
  end_datetime ←
    (if Calendar.datetime_ltb end_datetime start_datetime
     then
       next ← of_option (Calendar.date_add_days date 1) OverflowError;
       Done (Calendar.combine next end_time)
     else Done end_datetime);
  Done (Calendar.int_div60 (Calendar.total_seconds end_datetime start_datetime)).

(** The inner [try: ... except ValueError: return ..., 400]. *)
Definition except_value_error {A} (m : outcome response A) (r : response)
    : outcome response A :=
  match m with
  | Raise ValueError => Return r
  | _ => m
  end.

Definition create_session (cx : context) (data : payload)
    (current_user : User) (st : store) : response * store :=
  try_except (Some ValidationError) st (
    _ ← return_if (negb (truthy (get data "location_id")))
          (error 400 LocationRequired);
    _ ← return_if (negb (truthy (get data "date"))) (error 400 DateRequired);
    _ ← return_if (negb (truthy (get data "start_time")))
          (error 400 StartTimeRequired);
    _ ← return_if (negb (truthy (get data "end_time")))
          (error 400 EndTimeRequired);
    location_id ← to_text_nn (get data "location_id");
    location ← or_return (find_location st location_id (u_id current_user))
                 (error 404 LocationNotFound);
    '(date, start_time, end_time) ←
      except_value_error
        (date ← to_date (get data "date");
         start_time ← to_time (get data "start_time");
         end_time ← to_time (get data "end_time");
         Done (date, start_time, end_time))
        (error 400 DateTimeFormat);
    duration_minutes ← duration_minutes_of date start_time end_time;
    temperature ← to_float_or_none (get data "temperature_celsius");
    (* the INSERT binds the texts to [String(100)] and [Text] *)
    weather ← bind_text (Some 100) (get data "weather_conditions");
    notes ← bind_text None (get data "notes");
    let session :=
      {| s_id := new_id cx; s_user_id := u_id current_user;
         s_location_id := location_id; s_date := date;
         s_start_time := start_time; s_end_time := end_time;
         s_duration_minutes := Some duration_minutes;
         s_weather_conditions := weather;
         s_temperature_celsius := temperature; s_notes := notes;
         s_created_at := now cx; s_updated_at := now cx |} in
    st' ← insert_session st session;
    Done (ok 201 (BSession (Some SessionCreated) (session_to_dict st' session)),
          st')).

Definition get_session (session_id : string) (current_user : User)
    (st : store) : response * store :=
  try_except None st (
    session ← or_return (find_session st session_id (u_id current_user))
                (error 404 SessionNotFound);
    Done (ok 200 (BSessionDetail (session_to_dict st session)
                    (session_catches st session)), st)).

Definition update_session (cx : context) (session_id : string)
    (data : payload) (current_user : User) (st : store) : response * store :=
  try_except (Some ValidationError) st (
    session ← or_return (find_session st session_id (u_id current_user))
                (error 404 SessionNotFound);
    _ ← (if truthy (get data "location_id")
            && json_ne_str (get data "location_id") (s_location_id session)
         then
           location_id ← to_text_nn (get data "location_id");
           _ ← or_return (find_location st location_id (u_id current_user))
                 (error 404 LocationNotFound);
           Done ()
         else Done ());
    date ← match data !! "date" with
           | Some v => to_date v
           | None => Done (s_date session)
           end;
    start_time ← match data !! "start_time" with
                 | Some v => to_time v
                 | None => Done (s_start_time session)
                 end;
    end_time ← match data !! "end_time" with
               | Some v => to_time v
               | None => Done (s_end_time session)
               end;
    temperature ← match data !! "temperature_celsius" with
                  | Some v => to_float_or_none v
                  | None => Done (s_temperature_celsius session)
                  end;
    duration_minutes ←
      (if has_key data "date" || has_key data "start_time"
          || has_key data "end_time"
       then d ← duration_minutes_of date start_time end_time; Done (Some d)
       else Done (s_duration_minutes session));
    (* the text columns are bound when the commit writes the row *)
    location_id ← match data !! "location_id" with
                  | Some v => bind_key v
                  | None => Done (s_location_id session)
                  end;
    weather ← match data !! "weather_conditions" with
              | Some v => set_text (Some 100) v (s_weather_conditions session)
              | None => Done (s_weather_conditions session)
              end;
    notes ← match data !! "notes" with
            | Some v => set_text None v (s_notes session)
            | None => Done (s_notes session)
            end;
    let touched :=
      reassigned (data !! "weather_conditions") (s_weather_conditions session)
      || reassigned (data !! "notes") (s_notes session) in
    let new :=
      {| s_id := s_id session; s_user_id := s_user_id session;
         s_location_id := location_id; s_date := date;
         s_start_time := start_time; s_end_time := end_time;
         s_duration_minutes := duration_minutes;
         s_weather_conditions := weather;
         s_temperature_celsius := temperature; s_notes := notes;
         s_created_at := s_created_at session;
         s_updated_at := s_updated_at session |} in
    st' ← update_session_row cx st touched session new;
    Done (ok 200 (BSession (Some SessionUpdated)
            (session_to_dict st'
               (stamp_if_changed touched (stamp_session (now cx))
                  session new))),
          st')).

Definition delete_session (session_id : string) (current_user : User)
    (st : store) : response * store :=
  try_except None st (
    session ← or_return (find_session st session_id (u_id current_user))
                (error 404 SessionNotFound);
    location ← of_option (session_location st session) AttributeError;
    Done (ok 200 (BMessage (SessionDeleted (s_date session) (l_name location))),
          delete_session_row st session)).

(** ** [src/routes/catches.py] *)

(** [ORDER BY created_at DESC] *)
Definition newest_first (a b : Catch) : Prop := c_created_at b ≤ c_created_at a.

Global Instance newest_first_dec a b : Decision (newest_first a b).
Proof. unfold newest_first. apply _. Defined.

Definition get_catches (page per_page : option Z)
    (session_id species released : option string) (current_user : User)
    (st : store) : response * store :=
  try_except None st (
    (* request.args.get('released', type=bool): bool(s) of the string *)
    let released := (λ s, negb (String.eqb s "")) <$> released in
    let query := catches_of st (u_id current_user) in
    let query :=
      match arg_given session_id with
      | Some sid => filter (λ c, c_session_id c = sid) query
      | None => query
      end in
    let query :=
      match arg_given species with
      | Some sp => filter (λ c, ilike (c_species c) ("%" +:+ sp +:+ "%")) query
      | None => query
      end in
    let query :=
      match released with
      | Some r => filter (λ c, c_released c = r) query
      | None => query
      end in
    let query := order_by newest_first query in
    Done (ok 200 (BCatches (paginate (default 1 page) (default 20 per_page) query)),
          st)).

Definition create_catch (cx : context) (data : payload)
    (current_user : User) (st : store) : response * store :=
  try_except (Some ValidationError) st (
    _ ← return_if (negb (truthy (get data "session_id")))
          (error 400 SessionIdRequired);
    _ ← return_if (negb (truthy (get data "species")))
          (error 400 SpeciesRequired);
    session_id ← to_text_nn (get data "session_id");
    session ← or_return (find_session st session_id (u_id current_user))
                (error 404 SessionNotFound);
    weight_kg ← to_float_or_none (get data "weight_kg");
    length_cm ← to_float_or_none (get data "length_cm");
    let released := truthy (get data "released") in
    (* the INSERT binds the texts to [String(100)] and [String(500)] *)
    species ← bind_text_nn 100 (get data "species");
    bait_used ← bind_text (Some 100) (get data "bait_used");
    photo_url ← bind_text (Some 500) (get data "photo_url");
    let catch :=
      {| c_id := new_id cx; c_session_id := session_id;
         c_species := species; c_weight_kg := weight_kg;
         c_length_cm := length_cm; c_bait_used := bait_used;
         c_released := released; c_photo_url := photo_url;
         c_created_at := now cx; c_updated_at := now cx |} in
    st' ← insert_catch st catch;
    Done (ok 201 (BCatch (Some CatchCreated) catch), st')).

Definition get_catch (catch_id : string) (current_user : User) (st : store)
    : response * store :=
  try_except None st (
    catch ← or_return (find_catch st catch_id (u_id current_user))
              (error 404 CatchNotFound);
    Done (ok 200 (BCatch None catch), st)).

Definition update_catch (cx : context) (catch_id : string) (data : payload)
    (current_user : User) (st : store) : response * store :=
  try_except (Some ValidationError) st (
    catch ← or_return (find_catch st catch_id (u_id current_user))
              (error 404 CatchNotFound);
    _ ← (if truthy (get data "session_id")
            && json_ne_str (get data "session_id") (c_session_id catch)
         then
           session_id ← to_text_nn (get data "session_id");
           _ ← or_return (find_session st session_id (u_id current_user))
                 (error 404 SessionNotFound);
           Done ()
         else Done ());
    weight_kg ← match data !! "weight_kg" with
                | Some v => to_float_or_none v
                | None => Done (c_weight_kg catch)
                end;
    length_cm ← match data !! "length_cm" with
                | Some v => to_float_or_none v
                | None => Done (c_length_cm catch)
                end;
    let released := match data !! "released" with
                    | Some v => truthy v
                    | None => c_released catch
                    end in
    (* the text columns are bound when the commit writes the row *)
    session_id ← match data !! "session_id" with
                 | Some v => bind_key v
                 | None => Done (c_session_id catch)
                 end;
    species ← match data !! "species" with
              | Some v => set_text_nn 100 v (c_species catch)
              | None => Done (c_species catch)
              end;
    bait_used ← match data !! "bait_used" with
                | Some v => set_text (Some 100) v (c_bait_used catch)
                | None => Done (c_bait_used catch)
                end;
    photo_url ← match data !! "photo_url" with
                | Some v => set_text (Some 500) v (c_photo_url catch)
                | None => Done (c_photo_url catch)
                end;
    let touched :=
      reassigned (data !! "species") (Some (c_species catch))
      || reassigned (data !! "bait_used") (c_bait_used catch)
      || reassigned (data !! "photo_url") (c_photo_url catch) in
    let new :=
      {| c_id := c_id catch; c_session_id := session_id;
         c_species := species; c_weight_kg := weight_kg;
         c_length_cm := length_cm; c_bait_used := bait_used;
         c_released := released; c_photo_url := photo_url;
         c_created_at := c_created_at catch;
         c_updated_at := c_updated_at catch |} in
    st' ← update_catch_row cx st touched catch new;
    Done (ok 200 (BCatch (Some CatchUpdated)
                    (stamp_if_changed touched (stamp_catch (now cx))
                       catch new)), st')).

Definition delete_catch (catch_id : string) (current_user : User)
    (st : store) : response * store :=
  try_except None st (
    catch ← or_return (find_catch st catch_id (u_id current_user))
              (error 404 CatchNotFound);
    let weight := match c_weight_kg catch with
                  | Some w => if float_nonzero w then Some w else None
                  | None => None
                  end in
    Done (ok 200 (BMessage (CatchDeleted (c_species catch) weight)),
          delete_catch_row st catch)).

Definition get_catches_by_session (session_id : string)
    (current_user : User) (st : store) : response * store :=
  try_except None st (
    session ← or_return (find_session st session_id (u_id current_user))
                (error 404 SessionNotFound);
    let catches :=
      order_by newest_first
        (filter (λ c, c_session_id c = session_id) (catches st)) in
    location ← of_option (session_location st session) AttributeError;
    Done (ok 200 (BSessionCatches catches (s_id session) (s_date session)
                    (l_name location)), st)).

(** ** [src/routes/stats.py] *)

(** SQL aggregates: [SUM] and [AVG] skip NULLs and are NULL on no value. *)
Definition sql_sum_int (xs : list Z) : option Z :=
  match xs with [] => None | _ => Some (foldr Z.add 0 xs) end.

Definition sql_sum_float (xs : list float) : option float :=
  match xs with [] => None | x :: r => Some (foldl fadd x r) end.

Definition sql_avg_float (xs : list float) : option float :=
  (λ sum, fdiv sum (float_of_int (Z.of_nat (length xs)))) <$> sql_sum_float xs.

(** [round(x, n) if x else None] *)
Definition round_or_none (x : option float) (n : Z) : option float :=
  match x with
  | Some v => if float_nonzero v then Some (round_nd v n) else None
  | None => None
  end.

(** [round(x, n) if x else 0] *)
Definition round_or_zero (x : option float) (n : Z) : pynum :=
  match x with
  | Some v => if float_nonzero v then PFloat (round_nd v n) else PInt 0
  | None => PInt 0
  end.

(** [round(total_minutes / 60, 1)] *)
Definition hours_of (total_minutes : Z) : pynum :=
  PFloat (round_nd (int_truediv total_minutes 60) 1).

(** [round(total_minutes / 60, 1) if total_minutes else 0] *)
Definition hours_or_zero (total_minutes : option Z) : pynum :=
  match total_minutes with
  | Some m => if m =? 0 then PInt 0 else hours_of m
  | None => PInt 0
  end.

Definition count {A} (rows : list A) : Z := Z.of_nat (length rows).

Definition get_overview_stats (current_user : User) (st : store)
    : response * store :=
  try_except None st (
    let uid := u_id current_user in
    let total_sessions := count (sessions_of st uid) in
    let total_catches := count (catches_of st uid) in
    let total_locations := count (locations_of st uid) in
    let released_count :=
      count (filter (λ c, c_released c = true) (catches_of st uid)) in
    let kept_count := total_catches - released_count in
    (* ... .scalar() or 0 *)
    let total_weight :=
      match sql_sum_float (omap c_weight_kg (catches_of st uid)) with
      | Some w => if float_nonzero w then PFloat w else PInt 0
      | None => PInt 0
      end in
    let total_minutes :=
      default 0 (sql_sum_int (omap s_duration_minutes (sessions_of st uid))) in
    let total_hours :=
      if 0 <? total_minutes then hours_of total_minutes else PInt 0 in
    let last_session := head (order_by recent_first (sessions_of st uid)) in
    last_location ←
      match last_session with
      | Some s =>
          l ← of_option (session_location st s) AttributeError;
          Done (Some (l_name l))
      | None => Done None
      end;
    Done (ok 200 (BOverview
      {| total_sessions := total_sessions;
         total_catches := total_catches;
         total_locations := total_locations;
         released_count := released_count;
         kept_count := kept_count;
         total_weight_kg :=
           match total_weight with
           | PFloat w => PFloat (round_nd w 2)
           | PInt n => PInt n
           end;
         total_hours := total_hours;
         last_session_date := s_date <$> last_session;
         last_session_location := last_location |}), st)).

(** [GROUP BY key]: the keys that occur, each with its rows. *)
Definition group_by {A K} `{EqDecision K} (key : A → K) (rows : list A)
    : list (K * list A) :=
  (λ k, (k, filter (λ r, key r = k) rows)) <$> remove_dups (key <$> rows).

Definition count_desc {A} (cnt : A → Z) (a b : A) : Prop := cnt b ≤ cnt a.

Global Instance count_desc_dec {A} (cnt : A → Z) a b
  : Decision (count_desc cnt a b).
Proof. unfold count_desc. apply _. Defined.

Definition get_species_stats (limit_arg : option Z) (current_user : User)
    (st : store) : response * store :=
  try_except None st (
    let lim := default 10 limit_arg in
    let rows := (catch_join_of st (u_id current_user)).*1 in
    let grouped :=
      (λ '(species, g),
         (species, count g,
          sql_avg_float (omap c_weight_kg g),
          sql_sum_float (omap c_weight_kg g),
          count (filter (λ c, c_released c = true) g)))
      <$> group_by c_species rows in
    species_counts ←
      limit lim (order_by (count_desc (λ r, r.1.1.1.2)) grouped);
    Done (ok 200 (BSpecies (
      (λ '(species, cnt, avg_weight, total_weight, released),
         {| sp_species := species;
            sp_count := cnt;
            sp_avg_weight_kg := round_or_none avg_weight 2;
            sp_total_weight_kg := round_or_none total_weight 2;
            sp_released_count := released;
            sp_kept_count := cnt - released |})
      <$> species_counts)), st)).

(** [left.outerjoin(right)]: a row of the left table with every row of the
    right one that matches it, or once with NULLs when none does. *)
Definition outerjoin {A C} (on : A → C → Prop) `{∀ a c, Decision (on a c)}
    (left : list A) (right : list C) : list (A * option C) :=
  a ← left;
  match filter (on a) right with
  | [] => [(a, None)]
  | matches => (λ c, (a, Some c)) <$> matches
  end.

(** The two [ON] clauses of [get_location_stats], from the foreign keys. *)
Definition session_at (l : Location) (s : FishingSession) : Prop :=
  s_location_id s = l_id l.

Global Instance session_at_dec l s : Decision (session_at l s).
Proof. unfold session_at. apply _. Defined.

Definition catch_in (row : Location * option FishingSession) (c : Catch)
    : Prop :=
  match row.2 with
  | Some s => c_session_id c = s_id s
  | None => False
  end.

Global Instance catch_in_dec row c : Decision (catch_in row c).
Proof. unfold catch_in. destruct (row.2); apply _. Defined.

(** The mapped tables and the foreign keys of [src/models/database.py],
    each from the table that has the column to the table it names. *)
Inductive table := TUsers | TLocations | TFishingSessions | TCatches.

Global Instance table_eq_dec : EqDecision table.
Proof. solve_decision. Defined.

Definition foreign_keys : list (table * table) :=
  [(TLocations, TUsers); (TFishingSessions, TUsers);
   (TFishingSessions, TLocations); (TCatches, TFishingSessions)].

Definition can_join (a b : table) : Prop :=
  (a, b) ∈ foreign_keys ∨ (b, a) ∈ foreign_keys.

Global Instance can_join_dec a b : Decision (can_join a b).
Proof. unfold can_join. apply _. Defined.

(** [query.join(target)] and [query.outerjoin(target)] with no ON clause,
    on a query without [select_from]: the left side is the one table,
    among those the columns of the query come from, that a foreign key
    links with [target]. With none or several the mapping layer cannot
    build the query. *)
Definition implicit_left {R} (froms : list table) (target : table)
    : outcome R table :=
  match filter (λ f, f ≠ target ∧ can_join f target) (remove_dups froms) with
  | [one] => Done one
  | _ => Raise InvalidRequestError
  end.

Definition get_location_stats (current_user : User) (st : store)
    : response * store :=
  try_except None st (
    (* Location.id, Location.name, count(FishingSession.id), count(Catch.id),
       sum(FishingSession.duration_minutes), avg(Catch.weight_kg) *)
    let froms :=
      [TLocations; TLocations; TFishingSessions; TCatches;
       TFishingSessions; TCatches] in
    _ ← implicit_left froms TFishingSessions;
    let joined :=
      outerjoin catch_in
        (outerjoin session_at (locations st) (fishing_sessions st))
        (catches st) in
    let rows :=
      filter (λ r, l_user_id r.1.1 = u_id current_user) joined in
    let location_stats :=
      order_by (count_desc (λ r, r.1.1.1.2)) (
        (λ '(key, g),
           (key.1, key.2,
            count (omap (λ r, r.1.2) g),
            count (omap snd g),
            sql_sum_int (omap (λ r, r.1.2 ≫= s_duration_minutes) g),
            sql_avg_float (omap (λ r, r.2 ≫= c_weight_kg) g)))
        <$> group_by (λ r, (l_id r.1.1, l_name r.1.1)) rows) in
    Done (ok 200 (BLocationStats (
      (λ '(location_id, name, sessions_count, catches_count,
            total_minutes, avg_weight),
         {| ls_location_id := location_id;
            ls_location_name := name;
            ls_sessions_count := sessions_count;
            ls_catches_count := catches_count;
            ls_total_hours := hours_or_zero total_minutes;
            ls_avg_weight_kg := round_or_none avg_weight 2 |})
      <$> location_stats)), st)).

(** [round((count / total_catches * 100), 1) if total_catches > 0 else 0];
    [total_catches] is a local variable of [get_bait_stats], and reading it
    before its assignment raises. *)
Definition success_rate (cnt : Z) (total_catches : option Z)
    : outcome response pynum :=
  total ← of_option total_catches UnboundLocalError;
  Done (if 0 <? total
        then PFloat (round_nd (fmul (int_truediv cnt total) (float_of_int 100)) 1)
        else PInt 0).

(** [Catch.bait_used.isnot(None), Catch.bait_used != ''] *)
Definition has_bait (c : Catch) : Prop :=
  match c_bait_used c with Some b => b ≠ "" | None => False end.

Global Instance has_bait_dec c : Decision (has_bait c).
Proof. unfold has_bait. destruct (c_bait_used c); apply _. Defined.

Definition get_bait_stats (limit_arg : option Z) (current_user : User)
    (st : store) : response * store :=
  try_except None st (
    let lim := default 10 limit_arg in
    let rows :=
      filter has_bait (catch_join_of st (u_id current_user)).*1 in
    let grouped :=
      (λ '(bait, g),
         (default "" bait, count g,
          sql_avg_float (omap c_weight_kg g),
          count (filter (λ c, c_released c = true) g)))
      <$> group_by c_bait_used rows in
    bait_stats ← limit lim (order_by (count_desc (λ r, r.1.1.2)) grouped);
    (* the first loop runs while total_catches is not assigned yet *)
    let total_catches : option Z := None in
    baits_data ←
      mapM (M := outcome response)
        (λ '(bait, cnt, avg_weight, released),
           rate ← success_rate cnt total_catches;
           Done {| b_bait := bait;
                   b_count := cnt;
                   b_avg_weight_kg := round_or_none avg_weight 2;
                   b_released_count := released;
                   b_kept_count := cnt - released;
                   b_success_rate := rate |})
        bait_stats;
    let total_catches := Some (count (catch_join_of st (u_id current_user))) in
    baits_data ←
      mapM (M := outcome response)
        (λ bait_data,
           rate ← success_rate (b_count bait_data) total_catches;
           Done {| b_bait := b_bait bait_data;
                   b_count := b_count bait_data;
                   b_avg_weight_kg := b_avg_weight_kg bait_data;
                   b_released_count := b_released_count bait_data;
                   b_kept_count := b_kept_count bait_data;
                   b_success_rate := rate |})
        baits_data;
    Done (ok 200 (BBaits baits_data), st)).

(** A Python [dict] with string keys, in insertion order. *)
Definition dict (V : Type) := list (string * V).

Definition dict_has {V} (k : string) (d : dict V) : bool :=
  bool_decide (k ∈ d.*1).

(** [d[k] = v] *)
Definition dict_set {V} (k : string) (v : V) (d : dict V) : dict V :=
  if dict_has k d
  then (λ kv, if decide (kv.1 = k) then (k, v) else kv) <$> d
  else d ++ [(k, v)].

(** [d[k][...] = ...]: the value under [k] is changed in place. *)
Definition dict_alter {V} (f : V → V) (k : string) (d : dict V) : dict V :=
  (λ kv, if decide (kv.1 = k) then (kv.1, f kv.2) else kv) <$> d.

Definition dict_values {V} (d : dict V) : list V := d.*2.

Definition month_str_le (a b : MonthStat) : Prop :=
  String.leb (m_month a) (m_month b) = true.

Global Instance month_str_le_dec a b : Decision (month_str_le a b).
Proof. unfold month_str_le. apply _. Defined.

(** The two grouped queries of [get_monthly_stats]: per month since
    [twelve_months_ago], the sessions with their minutes, and the catches
    (under the month of their session) with their weight. *)
Definition monthly_sessions (st : store) (uid : string)
    (twelve_months_ago : Calendar.date) : list (Z * Z * Z * option Z) :=
  (λ '(month, g), (month, count g, sql_sum_int (omap s_duration_minutes g)))
  <$> order_by (λ a b, Calendar.month_le a.1 b.1)
        (group_by (λ s, Calendar.date_trunc_month (s_date s))
           (filter (λ s, twelve_months_ago ≤ s_date s) (sessions_of st uid))).

Definition monthly_catches (st : store) (uid : string)
    (twelve_months_ago : Calendar.date) : list (Z * Z * Z * option float) :=
  (λ '(month, g),
     (month, count g, sql_sum_float (omap (λ r, c_weight_kg r.1) g)))
  <$> order_by (λ a b, Calendar.month_le a.1 b.1)
        (group_by (λ r, Calendar.date_trunc_month (s_date r.2))
           (filter (λ r, twelve_months_ago ≤ s_date r.2)
              (catch_join_of st uid))).

(** The bodies of the two loops that fill [monthly_data]. *)
Definition add_session_month (monthly_data : dict MonthStat)
    (row : Z * Z * Z * option Z) : dict MonthStat :=
  let '(month, sessions_count, total_minutes) := row in
  let month_str := Calendar.strftime_Ym month in
  dict_set month_str
    {| m_month := month_str;
       m_sessions_count := sessions_count;
       m_total_hours := hours_or_zero total_minutes;
       m_catches_count := 0;
       m_total_weight_kg := PInt 0 |} monthly_data.

Definition set_catches_of_month (catches_count : Z)
    (total_weight : option float) (e : MonthStat) : MonthStat :=
  {| m_month := m_month e;
     m_sessions_count := m_sessions_count e;
     m_total_hours := m_total_hours e;
     m_catches_count := catches_count;
     m_total_weight_kg := round_or_zero total_weight 2 |}.

Definition add_catch_month (monthly_data : dict MonthStat)
    (row : Z * Z * Z * option float) : dict MonthStat :=
  let '(month, catches_count, total_weight) := row in
  let month_str := Calendar.strftime_Ym month in
  if dict_has month_str monthly_data
  then dict_alter (set_catches_of_month catches_count total_weight)
         month_str monthly_data
  else monthly_data.

Definition get_monthly_stats (cx : context) (current_user : User)
    (st : store) : response * store :=
  try_except None st (
    twelve_months_ago ←
      of_option (Calendar.date_add_days (today cx) (-365)) OverflowError;
    let monthly_data : dict MonthStat := [] in
    let monthly_data :=
      foldl add_session_month monthly_data
        (monthly_sessions st (u_id current_user) twelve_months_ago) in
    let monthly_data :=
      foldl add_catch_month monthly_data
        (monthly_catches st (u_id current_user) twelve_months_ago) in
    let monthly_list := order_by month_str_le (dict_values monthly_data) in
    Done (ok 200 (BMonthly monthly_list), st)).

Definition get_recent_activity (limit_arg : option Z) (current_user : User)
    (st : store) : response * store :=
  try_except None st (
    let lim := default 5 limit_arg in
    recent_sessions ←
      limit lim (order_by recent_first (sessions_of st (u_id current_user)));
    recent_catches ←
      limit lim (order_by newest_first (catches_of st (u_id current_user)));
    Done (ok 200 (BRecent (session_to_dict st <$> recent_sessions)
                    recent_catches), st)).

(** ** The API as a whole *)

Definition login (data : payload) (st : store) : response * store :=
  try_except None st (
    _ ← return_if (negb (truthy (get data "email"))) (error 400 EmailRequired);
    _ ← return_if (negb (truthy (get data "password")))
          (error 400 PasswordRequired);
    email ← to_text_nn (get data "email");
    let user := head (filter (λ u, u_email u = email) (users st)) in
    match user with
    | None => Return (error 401 BadCredentials)
    | Some u =>
        password ← to_password (get data "password");
        _ ← return_if (negb (check_password_hash (u_password_hash u) password))
              (error 401 BadCredentials);
        Done (ok 200 (BUser None (user_to_dict u)), st)
    end).

(** The protected routes, each with the arguments of its request. *)
Inductive call :=
  | GetCurrentUser
  | ChangePassword (cx : context) (data : payload)
  | GetLocations
  | CreateLocation (cx : context) (data : payload)
  | GetLocation (location_id : string)
  | UpdateLocation (cx : context) (location_id : string) (data : payload)
  | DeleteLocation (location_id : string)
  | GetSessions (page per_page : option Z) (location_id : option string)
  | CreateSession (cx : context) (data : payload)
  | GetSession (session_id : string)
  | UpdateSession (cx : context) (session_id : string) (data : payload)
  | DeleteSession (session_id : string)
  | GetCatches (page per_page : option Z)
      (session_id species released : option string)
  | CreateCatch (cx : context) (data : payload)
  | GetCatch (catch_id : string)
  | UpdateCatch (cx : context) (catch_id : string) (data : payload)
  | DeleteCatch (catch_id : string)
  | GetCatchesBySession (session_id : string)
  | GetOverviewStats
  | GetSpeciesStats (limit_arg : option Z)
  | GetLocationStats
  | GetBaitStats (limit_arg : option Z)
  | GetMonthlyStats (cx : context)
  | GetRecentActivity (limit_arg : option Z).

Definition run (c : call) : User → store → response * store :=
  match c with
  | GetCurrentUser => get_current_user
  | ChangePassword cx data => change_password cx data
  | GetLocations => get_locations
  | CreateLocation cx data => create_location cx data
  | GetLocation lid => get_location lid
  | UpdateLocation cx lid data => update_location cx lid data
  | DeleteLocation lid => delete_location lid
  | GetSessions page per_page lid => get_sessions page per_page lid
  | CreateSession cx data => create_session cx data
  | GetSession sid => get_session sid
  | UpdateSession cx sid data => update_session cx sid data
  | DeleteSession sid => delete_session sid
  | GetCatches page per_page sid sp rel => get_catches page per_page sid sp rel
  | CreateCatch cx data => create_catch cx data
  | GetCatch cid => get_catch cid
  | UpdateCatch cx cid data => update_catch cx cid data
  | DeleteCatch cid => delete_catch cid
  | GetCatchesBySession sid => get_catches_by_session sid
  | GetOverviewStats => get_overview_stats
  | GetSpeciesStats lim => get_species_stats lim
  | GetLocationStats => get_location_stats
  | GetBaitStats lim => get_bait_stats lim
  | GetMonthlyStats cx => get_monthly_stats cx
  | GetRecentActivity lim => get_recent_activity lim
  end.

Definition is_create (c : call) : bool :=
  match c with
  | CreateLocation _ _ | CreateSession _ _ | CreateCatch _ _ => true
  | _ => false
  end.

Inductive request :=
  | Register (cx : context) (data : payload)
  | Login (data : payload)
  | Protected (tk : token) (c : call).

Definition handle (rq : request) (st : store) : response * store :=
  match rq with
  | Register cx data => register cx data st
  | Login data => login data st
  | Protected tk c => token_required (run c) tk st
  end.

(** [generate_uuid()] returns [str(uuid.uuid4())], 36 characters. *)
Definition uuid_drawn (cx : context) : Prop :=
  String.length (new_id cx) = 36%nat.

Definition context_of (rq : request) : option context :=
  match rq with
  | Register cx _ => Some cx
  | Protected _ (CreateLocation cx _) | Protected _ (CreateSession cx _)
  | Protected _ (CreateCatch cx _) => Some cx
  | _ => None
  end.

(** The stores the API produces, from the empty one. *)
Inductive reachable : store → Prop :=
  | reachable_empty : reachable empty_store
  | reachable_step st rq :
      reachable st →
      (∀ cx, context_of rq = Some cx → uuid_drawn cx) →
      reachable (handle rq st).2.

(** ** The properties of the specification, as definitions *)

(** The duration in the words of the specification: the whole minutes from
    the instant date+start to the instant date+end, the latter moved one
    day on when it is the earlier of the two. *)
Definition spec_duration (date : Calendar.date)
    (start_time end_time : Calendar.time) : Z :=
  let start_instant := date * 86400 + Calendar.seconds_of_time start_time in
  let end_instant := date * 86400 + Calendar.seconds_of_time end_time in
  let end_instant :=
    if end_instant <? start_instant then end_instant + 86400
    else end_instant in
  (end_instant - start_instant) / 60.

Definition valid_time (t : Calendar.time) : Prop :=
  0 ≤ Calendar.hour t ≤ 23 ∧ 0 ≤ Calendar.minute t ≤ 59.

(** A stored session whose duration is the one of its date and times. *)
Definition session_ok (s : FishingSession) : Prop :=
  valid_time (s_start_time s) ∧ valid_time (s_end_time s)
  ∧ s_duration_minutes s
    = Some (spec_duration (s_date s) (s_start_time s) (s_end_time s)).

Global Instance valid_time_dec t : Decision (valid_time t).
Proof. unfold valid_time. apply _. Defined.

Global Instance session_ok_dec s : Decision (session_ok s).
Proof. unfold session_ok. apply _. Defined.

(** What the constraints of the schema and the checks of the routes keep
    true of a store: primary keys are keys, foreign keys name rows, a
    session sits at a location of its own user, no key is the empty
    string, and every session satisfies [session_ok]. *)
Definition keys_ok (st : store) : Prop :=
  NoDup (u_id <$> users st) ∧ NoDup (l_id <$> locations st)
  ∧ NoDup (s_id <$> fishing_sessions st) ∧ NoDup (c_id <$> catches st)
  ∧ Forall (λ l, l_id l ≠ "") (locations st)
  ∧ Forall (λ s, s_id s ≠ "") (fishing_sessions st).

Definition owned_location_of (st : store) (s : FishingSession) : Prop :=
  Exists (λ l, l_id l = s_location_id s ∧ l_user_id l = s_user_id s)
    (locations st).

Definition references_ok (st : store) : Prop :=
  Forall (λ l, has_user st (l_user_id l) = true) (locations st)
  ∧ Forall (owned_location_of st) (fishing_sessions st)
  ∧ Forall (λ c, has_session st (c_session_id c) = true) (catches st).

Definition schema_ok (st : store) : Prop := keys_ok st ∧ references_ok st.

Definition wf (st : store) : Prop :=
  keys_ok st ∧ references_ok st ∧ Forall session_ok (fishing_sessions st).

Global Instance wf_dec st : Decision (wf st).
Proof.
  unfold wf, keys_ok, references_ok, owned_location_of. apply _.
Defined.

Definition sessions_ok (st : store) : Prop :=
  Forall session_ok (fishing_sessions st).


(** What a text column holds once a value was assigned to it, in the
    words of the database: NULL for [null], a string as it is when the
    column has room for it, and otherwise less the spaces at its end that
    the column has no room for; a number or a boolean as its text. *)
Definition spaces (k : nat) : string :=
  string_of_list_ascii (replicate k " "%char).

Definition kept (n : option Z) (s s' : string) : Prop :=
  match n with
  | None => s' = s
  | Some n =>
      (Text.char_length s ≤ n → s' = s)
      ∧ ∃ k, s = s' +:+ spaces k ∧ (k = 0%nat ∨ Text.char_length s' = n)
  end.

Definition holds_text (n : option Z) (v : json) (column : option string)
    : Prop :=
  match v with
  | JNull => column = None
  | JBool b => ∃ s', column = Some s' ∧ kept n (if b then "true" else "false") s'
  | JInt k => ∃ s', column = Some s' ∧ kept n (pretty k) s'
  | JFloat x => ∃ s', column = Some s' ∧ kept n (float_text x) s'
  | JStr s => ∃ s', column = Some s' ∧ kept n s s'
  end.

(** [float(v)] in the words of Python: the number itself, the float of an
    integer or of a boolean, the number a string spells; and
    [float(v) if v else None], nothing for a value that is false. *)
Definition float_of (v : json) (x : float) : Prop :=
  match v with
  | JFloat y => x = y
  | JInt n => x = float_of_int n
  | JBool b => x = float_of_int (if b then 1 else 0)
  | JStr s => float_of_str s = Some x
  | JNull => False
  end.

Definition holds_float (v : json) (column : option float) : Prop :=
  if truthy v then ∃ x, float_of v x ∧ column = Some x else column = None.


(** Strictly ascending months, as the sort of [get_monthly_stats] orders
    them. *)
Definition month_str_lt (a b : MonthStat) : Prop :=
  String.ltb (m_month a) (m_month b) = true.

(** A [dict] whose entries carry their own key as [m_month]. *)
Definition keyed (d : dict MonthStat) : Prop :=
  Forall (λ kv, m_month kv.2 = kv.1) d.

(** The month a session falls in, as the breakdown names it. *)
Definition month_of_session (s : FishingSession) : string :=
  Calendar.strftime_Ym (Calendar.date_trunc_month (s_date s)).




(** Every session of the store has times of day. *)
Definition times_valid (st : store) : Prop :=
  Forall (λ s, valid_time (s_start_time s) ∧ valid_time (s_end_time s))
    (fishing_sessions st).

(** A body whose early returns all carry an error status. *)
Definition errs_only {A} (m : outcome response A) : Prop :=
  ∀ r, m = Return r → 400 ≤ status r.

(** The session [update_session] writes: each column is the value of the
    payload when the key is there and the column of [old] otherwise. *)
Record updated_from (data : payload) (old new : FishingSession) : Prop := {
  upd_id : s_id new = s_id old;
  upd_user_id : s_user_id new = s_user_id old;
  upd_created_at : s_created_at new = s_created_at old;
  upd_updated_at : s_updated_at new = s_updated_at old;
  upd_location_id :
    match data !! "location_id" with
    | Some v => bind_key (R := response) v = Done (s_location_id new)
    | None => s_location_id new = s_location_id old
    end;
  upd_date :
    match data !! "date" with
    | Some v => to_date (R := response) v = Done (s_date new)
    | None => s_date new = s_date old
    end;
  upd_start_time :
    match data !! "start_time" with
    | Some v => to_time (R := response) v = Done (s_start_time new)
    | None => s_start_time new = s_start_time old
    end;
  upd_end_time :
    match data !! "end_time" with
    | Some v => to_time (R := response) v = Done (s_end_time new)
    | None => s_end_time new = s_end_time old
    end;
  upd_weather :
    match data !! "weather_conditions" with
    | Some v =>
        set_text (R := response) (Some 100) v (s_weather_conditions old)
        = Done (s_weather_conditions new)
    | None => s_weather_conditions new = s_weather_conditions old
    end;
  upd_temperature :
    match data !! "temperature_celsius" with
    | Some v =>
        to_float_or_none (R := response) v = Done (s_temperature_celsius new)
    | None => s_temperature_celsius new = s_temperature_celsius old
    end;
  upd_notes :
    match data !! "notes" with
    | Some v =>
        set_text (R := response) None v (s_notes old) = Done (s_notes new)
    | None => s_notes new = s_notes old
    end;
  upd_duration :
    if has_key data "date" || has_key data "start_time"
       || has_key data "end_time"
    then ∃ d, duration_minutes_of (R := response) (s_date new)
                (s_start_time new) (s_end_time new) = Done d
              ∧ s_duration_minutes new = Some d
    else s_duration_minutes new = s_duration_minutes old }.

(** The calls that compute a duration, and the key of the session a call
    writes. *)
Definition computes_duration (c : call) : Prop :=
  match c with
  | CreateSession _ _ => True
  | UpdateSession _ _ data =>
      has_key data "date" || has_key data "start_time"
      || has_key data "end_time" = true
  | _ => False
  end.

Definition written_session (c : call) : option string :=
  match c with
  | CreateSession cx _ => Some (new_id cx)
  | UpdateSession _ session_id _ => Some session_id
  | _ => None
  end.

(** A catch belongs to the user of the session it was made in. *)
Definition owned (st : store) (uid : string) (c : Catch) : Prop :=
  Exists (λ s, s_id s = c_session_id c) (sessions_of st uid).

Global Instance owned_dec st uid c : Decision (owned st uid c).
Proof. unfold owned. apply _. Defined.

Definition owned_catches (st : store) (uid : string) : list Catch :=
  filter (owned st uid) (catches st).

(** The rows of a user: the user's own row and the locations, sessions
    and catches the user owns, directly or through a session. *)
Record view := {
  v_user : option User;
  v_locations : list Location;
  v_sessions : list FishingSession;
  v_catches : list Catch }.

Global Instance view_eq_dec : EqDecision view.
Proof. solve_decision. Defined.

Definition view_of (st : store) (uid : string) : view :=
  {| v_user := get_user st uid;
     v_locations := locations_of st uid;
     v_sessions := sessions_of st uid;
     v_catches := owned_catches st uid |}.

(** Two runs of a body that end alike: with results related by [Q], with
    the same early return, or with the same exception. *)
Definition outcome_rel {A} (Q : A → A → Prop) (m1 m2 : outcome response A)
    : Prop :=
  match m1, m2 with
  | Done a1, Done a2 => Q a1 a2
  | Return r1, Return r2 => r1 = r2
  | Raise e1, Raise e2 => e1 = e2
  | _, _ => False
  end.

(** Two runs that end alike give the same response, and stores related
    as the ones they started from. *)
Definition same_answer (P : store → store → Prop)
    (r1 r2 : response * store) : Prop :=
  r1.1 = r2.1 ∧ P r1.2 r2.2.

(** The session a catch is joined with, among the given sessions. *)
Definition session_for (ss : list FishingSession) (c : Catch)
    : option FishingSession :=
  head (filter (λ s, s_id s = c_session_id c) ss).

(** Two stores look the same to user [uid]. *)
Definition same_view (uid : string) (s1 s2 : store) : Prop :=
  view_of s1 uid = view_of s2 uid.

(** ** The rest of the routes: what they are asked about *)

(** The calls behind a [GET]. *)
Definition is_read (c : call) : bool :=
  match c with
  | GetCurrentUser | GetLocations | GetLocation _ | GetSessions _ _ _
  | GetSession _ | GetCatches _ _ _ _ _ | GetCatch _
  | GetCatchesBySession _ | GetOverviewStats | GetSpeciesStats _
  | GetLocationStats | GetBaitStats _ | GetMonthlyStats _
  | GetRecentActivity _ => true
  | _ => false
  end.

(** The requests that have nothing to commit: [login], which only issues
    a token, and the [GET] routes. *)
Definition reads_only (rq : request) : bool :=
  match rq with
  | Register _ _ => false
  | Login _ => true
  | Protected _ c => is_read c
  end.

(** What [register] keeps true of the accounts: no two users share an
    email or a username, and neither is empty. *)
Definition accounts_ok (st : store) : Prop :=
  NoDup (u_email <$> users st) ∧ NoDup (u_username <$> users st)
  ∧ Forall (λ u, u_email u ≠ "" ∧ u_username u ≠ "") (users st).

(** A name the routes look for before they write it. [update_location]
    writes the name of a payload without looking when the value is false:
    the empty string, and 0, [false] and a float that is zero, which the
    database stores as their texts. And a name of 200 characters may be
    what the column kept of a longer one, which is the one looked for. *)
Definition plain_name (name : string) : Prop :=
  name ≠ "" ∧ name ≠ "0" ∧ name ≠ "false"
  ∧ (∀ x, float_nonzero x = false → name ≠ float_text x)
  ∧ Text.char_length name < 200.

(** What [create_location] and [update_location] keep true of the names:
    two locations of one user with the same plain name are one
    location. *)
Definition names_unique (st : store) : Prop :=
  ∀ l1 l2, l1 ∈ locations st → l2 ∈ locations st →
           l_user_id l1 = l_user_id l2 → l_name l1 = l_name l2 →
           plain_name (l_name l1) → l1 = l2.

(** ** [FishingSession.calculate_duration] of [src/models/database.py]

    The method no route calls. Its module imports [datetime] alone
    (line 2), so the name [timedelta] of line 100 is not bound there, and
    evaluating it raises [NameError]. A session in the making may lack a
    time ([None]); a [time] that is there is true. *)
Inductive calculated :=
  | Minutes (m : option Z)      (* the value returned *)
  | NameError (name : string).  (* name 'timedelta' is not defined *)

Global Instance calculated_eq_dec : EqDecision calculated.
Proof. solve_decision. Defined.

Definition calculate_duration (date : Calendar.date)
    (start_time end_time : option Calendar.time) : calculated :=
  match start_time, end_time with
  | Some start_time, Some end_time =>
      let start_datetime := Calendar.combine date start_time in
      let end_datetime := Calendar.combine date end_time in
      if Calendar.datetime_ltb end_datetime start_datetime
      then NameError "timedelta"
      else Minutes (Some (Calendar.int_div60
                            (Calendar.total_seconds end_datetime
                               start_datetime)))
  | _, _ => Minutes None
  end.


End Model.

(** ** A backend to run the routes on examples

    Numbers with six decimals, kept as integers: enough to evaluate the
    routes on concrete stores. No theorem depends on it. *)

Module Fixed.

Definition scale : Z := 1000000.

(** Rounding to the nearest multiple of [unit], ties to the even one. *)
Definition round_to (unit x : Z) : Z :=
  let q := x / unit in
  let r := x mod unit in
  if 2 * r <? unit then q * unit
  else if unit <? 2 * r then (q + 1) * unit
  else if Z.even q then q * unit else (q + 1) * unit.

Definition digit_of (c : ascii) : option Z :=
  if Calendar.in_range 48 57 (Text.byte c) then Some (Text.byte c - 48)
  else None.

Fixpoint digits (cs : list ascii) (acc : Z) : option (Z * list ascii) :=
  match cs with
  | c :: r =>
      match digit_of c with
      | Some d => digits r (10 * acc + d)
      | None => Some (acc, cs)
      end
  | [] => Some (acc, [])
  end.

(** Decimal numerals [ddd] and [ddd.ddd]. *)
Definition of_str (s : string) : option Z :=
  match list_ascii_of_string s with
  | [] => None
  | cs =>
      '(whole, r) ← digits cs 0;
      match r with
      | [] => Some (whole * scale)
      | c :: frac =>
          if decide (c = "."%char) then
            '(f, r') ← digits (take 6 frac) 0;
            match r' with
            | [] => Some (whole * scale
                          + f * 10 ^ (6 - Z.of_nat (length (take 6 frac))))
            | _ => None
            end
          else None
      end
  end.

(** The digits of a number in micro-units, as [ddd.dddddd]. *)
Definition to_str (x : Z) : string :=
  let frac := pretty (Z.abs x mod scale) in
  (if x <? 0 then "-" else "") +:+ pretty (Z.abs x / scale) +:+ "."
  +:+ string_of_list_ascii
        (replicate (6 - String.length frac) "0"%char) +:+ frac.

(** The code points of the digit 0 of every script of Unicode 14.0; the
    nine that follow each are its digits 1 to 9. *)
Definition decimal_zeros : list Z :=
  [48; 1632; 1776; 1984; 2406; 2534; 2662; 2790; 2918; 3046; 3174; 3302;
   3430; 3558; 3664; 3792; 3872; 4160; 4240; 6112; 6160; 6470; 6608; 6784;
   6800; 6992; 7088; 7232; 7248; 42528; 43216; 43264; 43472; 43504; 43600;
   44016; 65296; 66720; 68912; 69734; 69872; 69942; 70096; 70384; 70736;
   70864; 71248; 71360; 71472; 71904; 72016; 72784; 73040; 73120; 92768;
   92864; 93008; 120782; 120792; 120802; 120812; 120822; 123200; 123632;
   125264; 130032].

Definition decimal_of (c : Z) : option Z :=
  (λ z, c - z) <$> head (filter (λ z, z ≤ c ≤ z + 9) decimal_zeros).

Definition decimal_of_range c d : decimal_of c = Some d → 0 ≤ d ≤ 9.
Proof.
  unfold decimal_of. destruct (head _) as [z|] eqn:E; [|done].
  apply head_Some_elem_of, list_elem_of_filter in E as [? _].
  intros [= <-]. lia.
Qed.

Fixpoint drop_salt (s : string) : string :=
  match s with
  | EmptyString => EmptyString
  | String c r => if decide (c = "$"%char) then r else drop_salt r
  end.

Fixpoint contains (n : nat) (needle hay : string) : bool :=
  String.prefix needle hay
  || match n, hay with
     | S n, String _ r => contains n needle r
     | _, _ => false
     end.

Definition strip_percent (p : string) : string :=
  let cs := list_ascii_of_string p in
  let cs := match cs with c :: r => if decide (c = "%"%char) then r else cs | [] => [] end in
  let cs := match reverse cs with c :: r => if decide (c = "%"%char) then reverse r else cs | [] => [] end in
  string_of_list_ascii cs.

#[export] Instance backend : Backend := {|
  float := Z;
  float_of_int n := n * scale;
  float_of_str := of_str;
  float_nonzero x := negb (x =? 0);
  float_text := to_str;
  decimal := decimal_of;
  decimal_range := decimal_of_range;
  fadd := Z.add;
  fmul x y := Z.quot (x * y) scale;
  fdiv x y := (x * scale) / y;
  int_truediv a b := (a * scale) / b;
  round_nd x n := round_to (10 ^ (6 - n)) x;
  generate_password_hash sl pw := sl +:+ "$" +:+ pw;
  check_password_hash h pw := String.eqb (drop_salt h) pw;
  ilike v p := contains (String.length v) (strip_percent p) v;
|}.

End Fixed.

(** ** A store and some requests to evaluate the routes on *)

Module Demo.
Import Fixed.

Definition at_time (t : Z) (id : string) : context :=
  {| now := t; today := 739052; new_id := id; salt := "salt" |}.

Definition alice : User :=
  {| u_id := "6f1c2f0e-0000-4000-8000-0000000000a1";
     u_email := "a@x.com"; u_username := "a";
     u_password_hash := "salt$pw123";
     u_created_at := 100; u_updated_at := 100 |}.

Definition bob : User :=
  {| u_id := "6f1c2f0e-0000-4000-8000-0000000000b2";
     u_email := "b@x.com"; u_username := "b";
     u_password_hash := "salt$hunter2";
     u_created_at := 90; u_updated_at := 90 |}.

Definition lake1 : Location :=
  {| l_id := "6f1c2f0e-0000-4000-8000-00000000001a";
     l_user_id := u_id alice; l_name := "Lake1";
     l_latitude := 1000000; l_longitude := 2000000;
     l_description := None; l_created_at := 101; l_updated_at := 101 |}.

Definition pond : Location :=
  {| l_id := "6f1c2f0e-0000-4000-8000-00000000002b";
     l_user_id := u_id bob; l_name := "Pond";
     l_latitude := 3000000; l_longitude := 4000000;
     l_description := None; l_created_at := 95; l_updated_at := 95 |}.

(** 2024-01-01, 20:00 to 23:30. *)
Definition evening : FishingSession :=
  {| s_id := "6f1c2f0e-0000-4000-8000-0000000000e1";
     s_user_id := u_id alice; s_location_id := l_id lake1;
     s_date := 738886;
     s_start_time := Calendar.MkTime 20 0;
     s_end_time := Calendar.MkTime 23 30;
     s_duration_minutes := Some 210;
     s_weather_conditions := None; s_temperature_celsius := None;
     s_notes := None; s_created_at := 102; s_updated_at := 102 |}.

Definition bass : Catch :=
  {| c_id := "6f1c2f0e-0000-4000-8000-0000000000c1";
     c_session_id := s_id evening; c_species := "Bass";
     c_weight_kg := Some 2500000; c_length_cm := None;
     c_bait_used := None; c_released := false; c_photo_url := None;
     c_created_at := 103; c_updated_at := 103 |}.

Definition trout : Catch :=
  {| c_id := "6f1c2f0e-0000-4000-8000-0000000000c2";
     c_session_id := s_id evening; c_species := "Trout";
     c_weight_kg := Some 1000000; c_length_cm := None;
     c_bait_used := Some "worm"; c_released := true; c_photo_url := None;
     c_created_at := 104; c_updated_at := 104 |}.

(** The scenario of the specification: one user, one location, one
    session, one catch; and the same with a second user and a second
    catch. *)
Definition scenario : store :=
  {| users := [alice]; locations := [lake1];
     fishing_sessions := [evening]; catches := [bass] |}.

Definition two_users : store :=
  {| users := [alice; bob]; locations := [lake1; pond];
     fishing_sessions := [evening]; catches := [bass; trout] |}.

(** The scenario next to another user and that user's location. *)
Definition with_bob : store :=
  {| users := [alice; bob]; locations := [lake1; pond];
     fishing_sessions := [evening]; catches := [bass] |}.

Definition data_of (l : list (string * json)) : payload := list_to_map l.

(** An update that moves the session to 22:00 - 02:00. *)
Definition overnight : call :=
  UpdateSession (at_time 110 "") (s_id evening)
    (data_of [("start_time", JStr "22:00"); ("end_time", JStr "02:00")]).

Definition evening_overnight : FishingSession :=
  {| s_id := s_id evening;
     s_user_id := u_id alice; s_location_id := l_id lake1;
     s_date := 738886;
     s_start_time := Calendar.MkTime 22 0;
     s_end_time := Calendar.MkTime 2 0;
     s_duration_minutes := Some 240;
     s_weather_conditions := None; s_temperature_celsius := None;
     s_notes := None; s_created_at := 102; s_updated_at := 110 |}.

Definition scenario_overview : Overview :=
  {| total_sessions := 1; total_catches := 1; total_locations := 1;
     released_count := 0; kept_count := 1;
     total_weight_kg := PFloat 2500000; total_hours := PFloat 3500000;
     last_session_date := Some 738886;
     last_session_location := Some "Lake1" |}.

(** What [get_monthly_stats] answers on [scenario]. *)
Definition scenario_months : list MonthStat :=
  [ {| m_month := "2024-01"; m_sessions_count := 1;
       m_total_hours := PFloat 3500000; m_catches_count := 1;
       m_total_weight_kg := PFloat 2500000 |} ].

(** 2030-01-01, a session entered ahead of its day: the clock of
    [at_time] is at 2024-06-15. *)
Definition planned : FishingSession :=
  {| s_id := "6f1c2f0e-0000-4000-8000-0000000000e4";
     s_user_id := u_id alice; s_location_id := l_id lake1;
     s_date := 741078;
     s_start_time := Calendar.MkTime 6 0;
     s_end_time := Calendar.MkTime 8 0;
     s_duration_minutes := Some 120;
     s_weather_conditions := None; s_temperature_celsius := None;
     s_notes := None; s_created_at := 105; s_updated_at := 105 |}.

Definition plan_cx : context := at_time 105 (s_id planned).

Definition plan_data : payload :=
  data_of [("location_id", JStr (l_id lake1)); ("date", JStr "2030-01-01");
           ("start_time", JStr "06:00"); ("end_time", JStr "08:00")].

Definition planner : store :=
  {| users := [alice]; locations := [lake1];
     fishing_sessions := [evening; planned]; catches := [bass] |}.

(** What [get_monthly_stats] answers on [planner] on 2024-06-15. *)
Definition planner_months : list MonthStat :=
  [ {| m_month := "2024-01"; m_sessions_count := 1;
       m_total_hours := PFloat 3500000; m_catches_count := 1;
       m_total_weight_kg := PFloat 2500000 |};
    {| m_month := "2030-01"; m_sessions_count := 1;
       m_total_hours := PFloat 2000000; m_catches_count := 0;
       m_total_weight_kg := PInt 0 |} ].




(** The scenario again, through the API from the empty store. *)
Definition register_alice : request :=
  Register (at_time 100 (u_id alice))
    (data_of [("email", JStr "a@x.com"); ("username", JStr "a");
              ("password", JStr "pw123")]).

Definition create_lake1 : request :=
  Protected (ValidToken (u_id alice))
    (CreateLocation (at_time 101 (l_id lake1))
       (data_of [("name", JStr "Lake1"); ("latitude", JFloat 1000000);
                 ("longitude", JFloat 2000000)])).

Definition create_evening : request :=
  Protected (ValidToken (u_id alice))
    (CreateSession (at_time 102 (s_id evening))
       (data_of [("location_id", JStr (l_id lake1));
                 ("date", JStr "2024-01-01");
                 ("start_time", JStr "20:00"); ("end_time", JStr "23:30")])).

Definition create_bass : request :=
  Protected (ValidToken (u_id alice))
    (CreateCatch (at_time 103 (c_id bass))
       (data_of [("session_id", JStr (s_id evening)); ("species", JStr "Bass");
                 ("weight_kg", JFloat 2500000); ("released", JBool false)])).

Definition built : store :=
  (handle create_bass
     (handle create_evening
        (handle create_lake1 (handle register_alice empty_store).2).2).2).2.

(** Three more rows for Alice to create on the scenario. *)
Definition river_cx : context :=
  at_time 130 "6f1c2f0e-0000-4000-8000-00000000003c".

Definition river_data : payload :=
  data_of [("name", JStr "River"); ("latitude", JStr "5.5");
           ("longitude", JInt 7)].

Definition dawn_cx : context :=
  at_time 131 "6f1c2f0e-0000-4000-8000-0000000000e5".

Definition dawn_data : payload :=
  data_of [("location_id", JStr (l_id lake1)); ("date", JStr "2024-02-01");
           ("start_time", JStr "06:00"); ("end_time", JStr "09:00")].

Definition perch_cx : context :=
  at_time 132 "6f1c2f0e-0000-4000-8000-0000000000c3".

Definition perch_data : payload :=
  data_of [("session_id", JStr (s_id evening)); ("species", JStr "Perch")].

(** Bob registers, and Alice changes her password. *)
Definition bob_cx : context := at_time 90 (u_id bob).

Definition bob_data : payload :=
  data_of [("email", JStr "b@x.com"); ("username", JStr "b");
           ("password", JStr "hunter2")].

(** Carol registers with an email of 127 characters, the last 120 of them
    spaces. *)
Definition carol_cx : context :=
  at_time 95 "6f1c2f0e-0000-4000-8000-0000000000c9".

Definition carol_data : payload :=
  data_of [("email", JStr ("c@x.com" +:+ spaces 120)); ("username", JStr "c");
           ("password", JStr "pw456")].

Definition new_password : call :=
  ChangePassword (at_time 140 "")
    (data_of [("current_password", JStr "pw123");
              ("new_password", JStr "tr0ut")]).

(** Alice adds the river and then takes the name off both her locations. *)
Definition unname (location_id : string) : request :=
  Protected (ValidToken (u_id alice))
    (UpdateLocation (at_time 150 "") location_id
       (data_of [("name", JStr "")])).

Definition unnamed : store :=
  (handle (unname (new_id river_cx))
     (handle (unname (l_id lake1))
        (handle (Protected (ValidToken (u_id alice))
                   (CreateLocation river_cx river_data)) built).2).2).2.

(** The same with the name [false], which is not a string. *)
Definition name_false (location_id : string) : request :=
  Protected (ValidToken (u_id alice))
    (UpdateLocation (at_time 150 "") location_id
       (data_of [("name", JBool false)])).

Definition both_false : store :=
  (handle (name_false (new_id river_cx))
     (handle (name_false (l_id lake1))
        (handle (Protected (ValidToken (u_id alice))
                   (CreateLocation river_cx river_data)) built).2).2).2.

(** A partial update of a location. *)
Definition deep : payload := data_of [("description", JStr "deep")].

(** The bass is let go after all. *)
Definition let_go : payload := data_of [("released", JInt 1)].

End Demo.

(** * Verification *)

Section Proofs.
Context `{B : Backend}.

(** ** Route bodies: what a [Done] tells about the steps before it *)

Lemma bind_Done {R A C} (m : outcome R A) (k : A → outcome R C) (v : C) :
  m ≫= k = Done v → ∃ a, m = Done a ∧ k a = Done v.
Proof. destruct m; simpl; intros H; try discriminate. eauto. Qed.

Lemma return_if_Done {R} (c : bool) (r : R) (u : unit) :
  return_if c r = Done u → c = false.
Proof. by destruct c. Qed.

Lemma raise_if_Done {R} (c : bool) (e : exn) (u : unit) :
  raise_if (R := R) c e = Done u → c = false.
Proof. by destruct c. Qed.

Lemma of_option_Done {R A} (o : option A) (e : exn) (a : A) :
  of_option (R := R) o e = Done a → o = Some a.
Proof. destruct o; simpl; congruence. Qed.

Lemma or_return_Done {A} (o : option A) (r : response) (a : A) :
  or_return o r = Done a → o = Some a.
Proof. destruct o; simpl; congruence. Qed.

Lemma except_value_error_Done {A} (m : outcome response A) r (a : A) :
  except_value_error m r = Done a → m = Done a.
Proof. destruct m as [| |[]]; simpl; congruence. Qed.

Lemma try_except_inv h (st : store) (r : route) resp st' :
  try_except h st r = (resp, st') → r = Done (resp, st') ∨ st' = st.
Proof.
  destruct r as [[]| |e]; simpl.
  - intros [= -> ->]. by left.
  - intros [= _ ->]. by right.
  - destruct h; [case_decide|]; intros [= _ ->]; by right.
Qed.

(** One step back through a body that ended in [Done]. *)
Ltac step_back H :=
  match type of H with
  | _ ≫= _ = Done _ =>
      let H1 := fresh "Hstep" in
      apply bind_Done in H as (? & H1 & H); step_back H1
  | return_if _ _ = Done _ => apply return_if_Done in H
  | raise_if _ _ = Done _ => apply raise_if_Done in H
  | of_option _ _ = Done _ => apply of_option_Done in H
  | or_return _ _ = Done _ => apply or_return_Done in H
  | except_value_error _ _ = Done _ =>
      apply except_value_error_Done in H; step_back H
  | Done _ = Done _ => injection H as H
  | Raise _ = Done _ => discriminate H
  | Return _ = Done _ => discriminate H
  | _ => idtac
  end.

Ltac steps_back H :=
  step_back H;
  repeat match goal with
         | H' : _ ≫= _ = Done _ |- _ => step_back H'
         | H' : Done _ = Done _ |- _ => injection H' as H'
         | H' : (_, _) = (_, _) |- _ => injection H' as ??
         | H' : (let '(_, _) := ?x in _) = Done _ |- _ => is_var x; destruct x
         end.

(** ** The calendar *)

Lemma read_range a c d :
  Calendar.read decimal a c = Some d →
  match a with
  | Calendar.Class lo hi => lo ≤ d ≤ hi
  | Calendar.AnyDigit => 0 ≤ d ≤ 9
  end.
Proof.
  destruct a as [lo hi|]; simpl.
  - unfold Calendar.in_range. destruct (_ && _) eqn:E; [|done].
    intros [= <-]. lia.
  - apply decimal_range.
Qed.

Lemma one_range a cs v r :
  Calendar.one decimal a cs = Some (v, r) →
  match a with
  | Calendar.Class lo hi => lo ≤ v ≤ hi
  | Calendar.AnyDigit => 0 ≤ v ≤ 9
  end.
Proof.
  unfold Calendar.one. destruct cs as [|c cs]; [done|].
  destruct (Calendar.read decimal a c) as [d|] eqn:E; simpl; [|done].
  intros [= <- _]. by apply read_range in E.
Qed.

Lemma two_range lo hi cs v r :
  Calendar.two decimal (Calendar.Class lo hi) Calendar.AnyDigit cs
  = Some (v, r) →
  10 * lo ≤ v ≤ 10 * hi + 9.
Proof.
  unfold Calendar.two. destruct cs as [|c1 [|c2 cs]]; [done..|].
  destruct (Calendar.read decimal _ c1) as [d1|] eqn:E1; simpl; [|done].
  destruct (decimal c2) as [d2|] eqn:E2; simpl; [|done].
  intros [= <- _]. apply read_range in E1. apply decimal_range in E2.
  simpl in *. lia.
Qed.

Lemma re_H_range cs h r :
  (h, r) ∈ Calendar.alt (Calendar.re_H decimal) cs → 0 ≤ h ≤ 23.
Proof.
  unfold Calendar.alt, Calendar.re_H. rewrite list_elem_of_omap.
  intros (m & Hm & Heq). repeat (apply elem_of_cons in Hm as [->|Hm]).
  - unfold Calendar.two in Heq. destruct cs as [|c1 [|c2 cs]]; [done..|].
    destruct (Calendar.read decimal (Calendar.Class 2 2) c1) as [d1|] eqn:E1;
      [|done].
    destruct (Calendar.read decimal (Calendar.Class 0 3) c2) as [d2|] eqn:E2;
      [|done].
    injection Heq as <- _. apply read_range in E1, E2. simpl in *. lia.
  - apply two_range in Heq. lia.
  - apply one_range in Heq. simpl in Heq. lia.
  - by apply elem_of_nil in Hm.
Qed.

Lemma re_M_range cs m r :
  (m, r) ∈ Calendar.alt (Calendar.re_M decimal) cs → 0 ≤ m ≤ 59.
Proof.
  unfold Calendar.alt, Calendar.re_M. rewrite list_elem_of_omap.
  intros (f & Hf & Heq). repeat (apply elem_of_cons in Hf as [->|Hf]).
  - apply two_range in Heq. lia.
  - apply one_range in Heq. simpl in Heq. lia.
  - by apply elem_of_nil in Hf.
Qed.

Lemma strptime_time_valid s t :
  Calendar.strptime_time decimal s = Some t → valid_time t.
Proof.
  unfold Calendar.strptime_time. intros H%head_Some_elem_of.
  apply list_elem_of_bind in H as ([h r1] & H & Hh).
  apply list_elem_of_bind in H as (r2 & H & _).
  apply list_elem_of_bind in H as ([m r3] & H & Hm).
  apply list_elem_of_bind in H as (_ & H & _).
  apply list_elem_of_singleton in H as ->.
  apply re_H_range in Hh. apply re_M_range in Hm. by split.
Qed.

Lemma to_time_valid {R} v t : to_time (R := R) v = Done t → valid_time t.
Proof.
  destruct v; simpl; try discriminate.
  intros H%of_option_Done. by eapply strptime_time_valid.
Qed.

Lemma seconds_of_time_range t :
  valid_time t → 0 ≤ Calendar.seconds_of_time t ≤ 86340
                 ∧ Calendar.seconds_of_time t mod 60 = 0.
Proof.
  unfold valid_time, Calendar.seconds_of_time. intros [? ?]. split; [lia|].
  replace (Calendar.hour t * 3600 + Calendar.minute t * 60)
    with ((Calendar.hour t * 60 + Calendar.minute t) * 60) by lia.
  apply Z_mod_mult.
Qed.

(** The duration the routes compute is the one of the specification. *)
Lemma duration_minutes_of_spec {R} date start_time end_time d :
  valid_time start_time → valid_time end_time →
  duration_minutes_of (R := R) date start_time end_time = Done d →
  d = spec_duration date start_time end_time.
Proof.
  intros Hs He. apply seconds_of_time_range in Hs as [Hs _].
  apply seconds_of_time_range in He as [He _].
  unfold duration_minutes_of, spec_duration, Calendar.datetime_ltb,
    Calendar.combine, Calendar.int_div60, Calendar.total_seconds,
    Calendar.date_add_days; simpl.
  rewrite Z.ltb_irrefl, Z.eqb_refl; simpl.
  destruct (_ <? Calendar.seconds_of_time start_time) eqn:E.
  - assert ((date * 86400 + Calendar.seconds_of_time end_time
            <? date * 86400 + Calendar.seconds_of_time start_time) = true) as ->
      by lia.
    destruct (_ && _); simpl; [|done]. intros [= <-].
    rewrite Z.quot_div_nonneg by lia. f_equal. lia.
  - assert ((date * 86400 + Calendar.seconds_of_time end_time
            <? date * 86400 + Calendar.seconds_of_time start_time) = false) as ->
      by lia.
    simpl. intros [= <-]. rewrite Z.quot_div_nonneg by lia. f_equal. lia.
Qed.

Lemma spec_duration_range date start_time end_time :
  valid_time start_time → valid_time end_time →
  0 ≤ spec_duration date start_time end_time < 1440.
Proof.
  intros [Hs _]%seconds_of_time_range [He _]%seconds_of_time_range.
  unfold spec_duration.
  destruct (_ <? _) eqn:E.
  - split; [apply Z.div_pos; lia|apply Z.div_lt_upper_bound; lia].
  - split; [apply Z.div_pos; lia|apply Z.div_lt_upper_bound; lia].
Qed.

Lemma spec_duration_same date t : spec_duration date t t = 0.
Proof. unfold spec_duration. rewrite Z.ltb_irrefl. by rewrite Z.sub_diag. Qed.

(** ** Early returns carry an error status *)

Lemma errs_only_Done {A} (a : A) : errs_only (Done a).
Proof. by intros r. Qed.

Lemma errs_only_Raise {A} e : errs_only (A := A) (Raise e).
Proof. by intros r. Qed.

Lemma errs_only_bind {A C} (m : outcome response A) (k : A → outcome response C) :
  errs_only m → (∀ a, errs_only (k a)) → errs_only (m ≫= k).
Proof.
  intros Hm Hk r. destruct m; simpl; [apply Hk| |done].
  intros [= ->]. by apply Hm.
Qed.

Lemma errs_only_return_if c code msg :
  400 ≤ code → errs_only (return_if c (error code msg)).
Proof. intros ? r. destruct c; simpl; [|done]. by intros [= <-]. Qed.

Lemma errs_only_or_return {A} (o : option A) code msg :
  400 ≤ code → errs_only (or_return o (error code msg)).
Proof. intros ? r. destruct o; simpl; [done|]. by intros [= <-]. Qed.

Lemma errs_only_raise_if c e : errs_only (raise_if c e).
Proof. intros r. by destruct c. Qed.

Lemma errs_only_of_option {A} (o : option A) e : errs_only (of_option o e).
Proof. intros r. by destruct o. Qed.

Lemma errs_only_except_value_error {A} (m : outcome response A) code msg :
  400 ≤ code → errs_only m → errs_only (except_value_error m (error code msg)).
Proof.
  intros ? Hm r. destruct m as [| |[]]; simpl; try done; try apply Hm.
  by intros [= <-].
Qed.

Lemma errs_only_to_text_nn v : errs_only (to_text_nn v).
Proof. intros r. by destruct v. Qed.

Lemma errs_only_varchar n s : errs_only (varchar n s).
Proof. intros r. unfold varchar. by repeat case_match. Qed.

Lemma errs_only_bind_text n v : errs_only (bind_text n v).
Proof.
  intros r. unfold bind_text. destruct (text_of v), n; simpl; try done.
  pose proof (errs_only_varchar z s) as H.
  destruct (varchar z s); simpl; try done. intros [= <-]. by apply H.
Qed.

Lemma errs_only_bind_text_nn n v : errs_only (bind_text_nn n v).
Proof.
  intros r. unfold bind_text_nn.
  pose proof (errs_only_bind_text (Some n) v) as H.
  destruct (bind_text _ v) as [[]| |]; simpl; try done.
  intros [= <-]. by apply H.
Qed.

Lemma errs_only_bind_key v : errs_only (bind_key v).
Proof. intros r. by destruct v. Qed.

Lemma errs_only_set_text n v c : errs_only (set_text n v c).
Proof.
  unfold set_text. destruct (same_text v c); [by intros r|].
  apply errs_only_bind_text.
Qed.

Lemma errs_only_set_text_nn n v c : errs_only (set_text_nn n v c).
Proof.
  unfold set_text_nn. destruct (same_text v _); [by intros r|].
  apply errs_only_bind_text_nn.
Qed.

Lemma errs_only_implicit_left froms target :
  errs_only (implicit_left froms target).
Proof. intros r. unfold implicit_left. by repeat case_match. Qed.

Lemma errs_only_to_float v : errs_only (to_float v).
Proof. intros r. destruct v; simpl; try done. by destruct (float_of_str _). Qed.

Lemma errs_only_to_float_or_none v : errs_only (to_float_or_none v).
Proof.
  unfold to_float_or_none. destruct (truthy v); [|apply errs_only_Done].
  apply errs_only_bind; [apply errs_only_to_float|intros; apply errs_only_Done].
Qed.

Lemma errs_only_to_date v : errs_only (to_date v).
Proof. intros r. destruct v; simpl; try done. by destruct (Calendar.strptime_date _ _). Qed.

Lemma errs_only_to_time v : errs_only (to_time v).
Proof. intros r. destruct v; simpl; try done. by destruct (Calendar.strptime_time _ _). Qed.

Lemma errs_only_to_password v : errs_only (to_password v).
Proof. intros r. by destruct v. Qed.

Lemma errs_only_duration_minutes_of d s e : errs_only (duration_minutes_of d s e).
Proof.
  intros r. unfold duration_minutes_of.
  destruct (Calendar.datetime_ltb _ _); simpl; [|done].
  by destruct (Calendar.date_add_days _ _).
Qed.

Lemma errs_only_limit {A} n (rows : list A) : errs_only (limit n rows).
Proof. intros r. unfold limit. by destruct (_ <? _). Qed.

Lemma errs_only_success_rate cnt tc : errs_only (success_rate cnt tc).
Proof. intros r. unfold success_rate. by destruct tc. Qed.

Lemma errs_only_mapM {A C} (f : A → outcome response C) l :
  (∀ a, errs_only (f a)) → errs_only (mapM f l).
Proof.
  intros Hf. induction l as [|a l IH]; simpl; [apply errs_only_Done|].
  apply errs_only_bind; [apply Hf|intros c].
  apply errs_only_bind; [apply IH|intros; apply errs_only_Done].
Qed.

Lemma errs_only_insert_user st u : errs_only (insert_user st u).
Proof.
  unfold insert_user.
  repeat (apply errs_only_bind; [apply errs_only_raise_if|intros _]).
  apply errs_only_Done.
Qed.

Lemma errs_only_insert_location st l : errs_only (insert_location st l).
Proof.
  unfold insert_location.
  repeat (apply errs_only_bind; [apply errs_only_raise_if|intros _]).
  apply errs_only_Done.
Qed.

Lemma errs_only_insert_session st s : errs_only (insert_session st s).
Proof.
  unfold insert_session.
  repeat (apply errs_only_bind; [apply errs_only_raise_if|intros _]).
  apply errs_only_Done.
Qed.

Lemma errs_only_insert_catch st c : errs_only (insert_catch st c).
Proof.
  unfold insert_catch.
  repeat (apply errs_only_bind; [apply errs_only_raise_if|intros _]).
  apply errs_only_Done.
Qed.

Lemma errs_only_update_location_row cx st t o n :
  errs_only (update_location_row cx st t o n).
Proof. apply errs_only_Done. Qed.

Lemma errs_only_update_session_row cx st t o n :
  errs_only (update_session_row cx st t o n).
Proof.
  unfold update_session_row.
  apply errs_only_bind; [apply errs_only_raise_if|intros _; apply errs_only_Done].
Qed.

Lemma errs_only_update_catch_row cx st t o n :
  errs_only (update_catch_row cx st t o n).
Proof.
  unfold update_catch_row.
  apply errs_only_bind; [apply errs_only_raise_if|intros _; apply errs_only_Done].
Qed.

Create HintDb errs discriminated.
Hint Resolve errs_only_Done errs_only_Raise errs_only_raise_if
  errs_only_of_option errs_only_to_text_nn errs_only_varchar
  errs_only_bind_text errs_only_bind_text_nn errs_only_bind_key
  errs_only_set_text errs_only_set_text_nn errs_only_implicit_left
  errs_only_to_float errs_only_to_float_or_none errs_only_to_date
  errs_only_to_time errs_only_to_password errs_only_duration_minutes_of
  errs_only_limit errs_only_success_rate errs_only_insert_user
  errs_only_insert_location errs_only_insert_session errs_only_insert_catch
  errs_only_update_location_row errs_only_update_session_row
  errs_only_update_catch_row : errs.

Ltac errs :=
  repeat first
    [ progress auto with errs
    | apply errs_only_bind; [|intros ?]
    | apply errs_only_return_if; lia
    | apply errs_only_or_return; lia
    | apply errs_only_except_value_error; [lia|]
    | apply errs_only_mapM; intros ?
    | match goal with
      | |- errs_only (match ?x with _ => _ end) => destruct x
      | |- errs_only (if ?c then _ else _) => destruct c
      | |- errs_only (let _ := _ in _) => cbv zeta
      end ].

(** A route that answers below 400 ran its body to the end. *)
Lemma try_except_cases h (st : store) (r : route) resp st' :
  errs_only r →
  try_except h st r = (resp, st') →
  r = Done (resp, st') ∨ (st' = st ∧ 400 ≤ status resp).
Proof.
  intros Hr. destruct r as [[]| |e]; simpl.
  - intros [= -> ->]. by left.
  - intros [= <- ->]. right. split; [done|]. by apply Hr.
  - destruct h; [case_decide|]; intros [= <- ->]; right; (split; [done|simpl; lia]).
Qed.

Lemma insert_user_Done {R} st u st' :
  insert_user (R := R) st u = Done st' →
  has_user st (u_id u) = false ∧ st' = set_users st (users st ++ [u]).
Proof. unfold insert_user. intros H. steps_back H. by subst. Qed.

Lemma insert_user_unique {R} st u st' :
  insert_user (R := R) st u = Done st' →
  (u_email u ∉ u_email <$> users st)
  ∧ (u_username u ∉ u_username <$> users st).
Proof.
  unfold insert_user. intros H. steps_back H.
  repeat match goal with
         | H : bool_decide _ = false |- _ => apply bool_decide_eq_false in H
         end.
  done.
Qed.

Lemma insert_location_Done {R} st l st' :
  insert_location (R := R) st l = Done st' →
  has_location st (l_id l) = false ∧ has_user st (l_user_id l) = true
  ∧ st' = set_locations st (locations st ++ [l]).
Proof.
  unfold insert_location. intros H. steps_back H. subst.
  by apply negb_false_iff in Hstep0.
Qed.

Lemma insert_session_Done {R} st s st' :
  insert_session (R := R) st s = Done st' →
  has_session st (s_id s) = false ∧ has_user st (s_user_id s) = true
  ∧ has_location st (s_location_id s) = true
  ∧ st' = set_sessions st (fishing_sessions st ++ [s]).
Proof.
  unfold insert_session. intros H. steps_back H. subst.
  apply negb_false_iff in Hstep0, Hstep1. done.
Qed.

Lemma insert_catch_Done {R} st c st' :
  insert_catch (R := R) st c = Done st' →
  has_catch st (c_id c) = false ∧ has_session st (c_session_id c) = true
  ∧ st' = set_catches st (catches st ++ [c]).
Proof.
  unfold insert_catch. intros H. steps_back H. subst.
  by apply negb_false_iff in Hstep0.
Qed.

Lemma update_session_row_Done {R} cx st touched old new st' :
  update_session_row (R := R) cx st touched old new = Done st' →
  has_location st (s_location_id new) = true
  ∧ st' = set_sessions st
            (replace_row s_id
               (stamp_if_changed touched (stamp_session (now cx)) old new)
               (fishing_sessions st)).
Proof.
  unfold update_session_row. intros H. steps_back H. subst.
  by apply negb_false_iff in Hstep.
Qed.

Lemma update_catch_row_Done {R} cx st touched old new st' :
  update_catch_row (R := R) cx st touched old new = Done st' →
  has_session st (c_session_id new) = true
  ∧ st' = set_catches st
            (replace_row c_id
               (stamp_if_changed touched (stamp_catch (now cx)) old new)
               (catches st)).
Proof.
  unfold update_catch_row. intros H. steps_back H. subst.
  by apply negb_false_iff in Hstep.
Qed.

(** The statement of [get_location_stats] selects from three tables, two
    of which a foreign key links with [FishingSession]: its first
    [outerjoin] has no one left side. *)
Lemma location_stats_join {R} :
  implicit_left (R := R)
    [TLocations; TLocations; TFishingSessions; TCatches;
     TFishingSessions; TCatches] TFishingSessions
  = Raise InvalidRequestError.
Proof. reflexivity. Qed.

(** The joins of the other queries have one: they select from [Catch],
    or from [Catch] and [FishingSession]. *)
Lemma catch_join_left {R} :
  implicit_left (R := R) [TCatches] TFishingSessions = Done TCatches
  ∧ implicit_left (R := R) [TFishingSessions; TCatches; TCatches]
      TFishingSessions = Done TCatches.
Proof. split; reflexivity. Qed.

Lemma get_location_stats_raises current_user st :
  get_location_stats current_user st
  = (error 500 (Unhandled InvalidRequestError), st).
Proof. unfold get_location_stats. by rewrite location_stats_join. Qed.

Lemma to_text_nn_Done {R} (v : json) s :
  to_text_nn (R := R) v = Done s → v = JStr s.
Proof. destruct v; simpl; congruence. Qed.

Lemma bind_key_Done {R} (v : json) s :
  bind_key (R := R) v = Done s → v = JStr s.
Proof. destruct v; simpl; congruence. Qed.

(** What a successful [create_session] did. *)
Lemma create_session_cases cx data cu st resp st' :
  create_session cx data cu st = (resp, st') →
  status resp < 400 →
  ∃ location_id location date start_time end_time d temperature weather notes,
    to_text_nn (R := response) (get data "location_id") = Done location_id
    ∧ find_location st location_id (u_id cu) = Some location
    ∧ to_date (R := response) (get data "date") = Done date
    ∧ to_time (R := response) (get data "start_time") = Done start_time
    ∧ to_time (R := response) (get data "end_time") = Done end_time
    ∧ duration_minutes_of (R := response) date start_time end_time = Done d
    ∧ to_float_or_none (R := response) (get data "temperature_celsius")
      = Done temperature
    ∧ bind_text (R := response) (Some 100) (get data "weather_conditions")
      = Done weather
    ∧ bind_text (R := response) None (get data "notes") = Done notes
    ∧ has_session st (new_id cx) = false
    ∧ let session :=
        {| s_id := new_id cx; s_user_id := u_id cu;
           s_location_id := location_id; s_date := date;
           s_start_time := start_time; s_end_time := end_time;
           s_duration_minutes := Some d;
           s_weather_conditions := weather;
           s_temperature_celsius := temperature; s_notes := notes;
           s_created_at := now cx; s_updated_at := now cx |} in
      st' = set_sessions st (fishing_sessions st ++ [session])
      ∧ resp = ok 201 (BSession (Some SessionCreated)
                         (session_to_dict st' session)).
Proof.
  unfold create_session. intros H Hst.
  apply try_except_cases in H as [H|[_ ?]]; [|lia|errs].
  steps_back H. subst.
  match goal with
  | H : insert_session _ _ = Done _ |- _ =>
      apply insert_session_Done in H as (Hfresh & _ & _ & ->); simpl in Hfresh
  end.
  eexists _, _, _, _, _, _, _, _, _. repeat (split; [eassumption|]).
  split; reflexivity.
Qed.

(** What [update_session] did: nothing, with an error status, or the
    write of a session [updated_from] the payload. *)
Lemma update_session_cases cx sid data cu st resp st' :
  update_session cx sid data cu st = (resp, st') →
  (st' = st ∧ 400 ≤ status resp)
  ∨ ∃ old new,
      find_session st sid (u_id cu) = Some old
      ∧ updated_from data old new
      ∧ has_location st (s_location_id new) = true
      ∧ (truthy (get data "location_id")
         && json_ne_str (get data "location_id") (s_location_id old) = true →
         is_Some (find_location st (s_location_id new) (u_id cu)))
      ∧ ∃ touched,
        let stored :=
          stamp_if_changed touched (stamp_session (now cx)) old new in
        st' = set_sessions st (replace_row s_id stored (fishing_sessions st))
        ∧ resp = ok 200 (BSession (Some SessionUpdated)
                           (session_to_dict st' stored)).
Proof.
  unfold update_session. intros H.
  apply try_except_cases in H as [H|?]; [|by left|errs].
  right. steps_back H. subst.
  match goal with
  | H : update_session_row _ _ _ _ _ = Done _ |- _ =>
      apply update_session_row_Done in H as (Hfk & ->)
  end.
  eexists _, _. split; [eassumption|].
  split; [|split; [exact Hfk|split; [|eexists; split; reflexivity]]].
  - split; simpl; try done;
      try (match goal with
           | H : match ?d !! ?k with _ => _ end = Done _
             |- match ?d !! ?k with _ => _ end =>
               destruct (d !! k) eqn:E; [exact H|by injection H]
           end).
    match goal with
    | H : (if ?c then _ else _) = Done _ |- if ?c then _ else _ =>
        destruct c; [steps_back H; subst; eauto|by injection H]
    end.
  - simpl. intros Hc.
    match goal with
    | H : (if _ && _ then _ else _) = Done _ |- _ =>
        rewrite Hc in H; steps_back H
    end.
    unfold get in *. destruct (data !! "location_id") as [v|] eqn:E; simpl in *.
    + match goal with
      | H1 : to_text_nn v = Done ?a, H2 : bind_key v = Done ?b |- _ =>
          apply to_text_nn_Done in H1; apply bind_key_Done in H2;
          rewrite H1 in H2; injection H2 as <-
      end. eauto.
    + done.
Qed.
(** ** Texts and the columns that hold them *)

Lemma string_of_list_ascii_app l1 l2 :
  string_of_list_ascii (l1 ++ l2)
  = string_of_list_ascii l1 +:+ string_of_list_ascii l2.
Proof. induction l1 as [|c l1 IH]; simpl; [done|by rewrite IH]. Qed.

Lemma list_ascii_of_string_app s1 s2 :
  list_ascii_of_string (s1 +:+ s2)
  = list_ascii_of_string s1 ++ list_ascii_of_string s2.
Proof.
  induction s1 as [|c s1 IH]; [done|].
  change (String c s1 +:+ s2) with (String c (s1 +:+ s2)). simpl. by f_equal.
Qed.

Lemma append_empty_r s : s +:+ "" = s.
Proof.
  induction s as [|c s IH]; [done|].
  change (String c s +:+ "") with (String c (s +:+ "")). by f_equal.
Qed.

Lemma char_length_app s1 s2 :
  Text.char_length (s1 +:+ s2) = Text.char_length s1 + Text.char_length s2.
Proof.
  unfold Text.char_length.
  rewrite list_ascii_of_string_app, filter_app, length_app. lia.
Qed.

Lemma char_length_spaces k : Text.char_length (spaces k) = Z.of_nat k.
Proof.
  unfold Text.char_length, spaces.
  rewrite list_ascii_of_string_of_list_ascii. f_equal.
  induction k as [|k IH]; [done|].
  change (replicate (S k) " "%char) with (" "%char :: replicate k " "%char).
  rewrite filter_cons_True by done. simpl. by rewrite IH.
Qed.

Lemma char_length_le s :
  Text.char_length s ≤ Z.of_nat (length (list_ascii_of_string s)).
Proof.
  unfold Text.char_length.
  pose proof (length_filter (λ c, Text.starts_char c = true)
                (list_ascii_of_string s)). lia.
Qed.

Lemma char_length_nonneg s : 0 ≤ Text.char_length s.
Proof. unfold Text.char_length. lia. Qed.

Lemma char_length_empty s : Text.char_length s = 0 ∨ s ≠ "".
Proof. destruct s; [by left|by right]. Qed.

Lemma kept_refl n s : kept n s s.
Proof.
  destruct n as [n|]; simpl; [|done]. split; [done|].
  exists 0%nat. split; [|by left].
  unfold spaces. simpl. by rewrite append_empty_r.
Qed.

Lemma append_spaces_0 s : s +:+ spaces 0 = s.
Proof. unfold spaces. simpl. apply append_empty_r. Qed.

(** What [varchar] returns is the text, less spaces at its end when the
    column has no room for them; it has room for what is returned. *)
Lemma varchar_Done_length {R} n s s' :
  0 ≤ n → varchar (R := R) n s = Done s' →
  kept (Some n) s s' ∧ Text.char_length s' ≤ n.
Proof.
  intros Hn. unfold varchar. destruct (_ <=? n) eqn:E.
  { intros [= <-]. split; [apply kept_refl|lia]. }
  case_bool_decide as Hsp; [|done]. intros [= <-]. simpl.
  set (cs := list_ascii_of_string s) in *.
  set (keep := (length cs - Z.to_nat (Text.char_length s - n))%nat) in *.
  assert (drop keep cs = replicate (length (drop keep cs)) " "%char) as Hdrop.
  { symmetry. apply replicate_as_Forall. split; [done|].
    eapply Forall_impl; [exact Hsp|]. by intros c ->. }
  assert (s = string_of_list_ascii (take keep cs)
              +:+ spaces (length (drop keep cs))) as Hs.
  { unfold spaces. rewrite <- Hdrop, <- string_of_list_ascii_app.
    rewrite take_drop. unfold cs. by rewrite string_of_list_ascii_of_string. }
  pose proof (char_length_le s) as Hle. fold cs in Hle.
  pose proof (f_equal Text.char_length Hs) as Hlen.
  rewrite char_length_app, char_length_spaces, length_drop in Hlen.
  apply Z.leb_gt in E.
  assert (Text.char_length (string_of_list_ascii (take keep cs)) = n)
    as Hkept by (unfold keep in *; lia).
  split; [|lia]. split; [lia|].
  exists (length (drop keep cs)). split; [exact Hs|by right].
Qed.

Lemma varchar_Done {R} n s s' :
  0 ≤ n → varchar (R := R) n s = Done s' → kept (Some n) s s'.
Proof. intros Hn H. by apply varchar_Done_length in H as [? _]. Qed.

Lemma varchar_length {R} n s s' :
  0 ≤ n → varchar (R := R) n s = Done s' → Text.char_length s' ≤ n.
Proof. intros Hn H. by apply varchar_Done_length in H as [_ ?]. Qed.

Lemma varchar_fits {R} n s :
  Text.char_length s ≤ n → varchar (R := R) n s = Done s.
Proof. intros H. unfold varchar. destruct (_ <=? n) eqn:E; [done|lia]. Qed.


Lemma kept_nonempty n s s' : 0 < n → kept (Some n) s s' → s ≠ "" → s' ≠ "".
Proof.
  intros Hn [_ (k & -> & [->|Hk])] Hs; [by rewrite append_spaces_0 in Hs|].
  intros ->. simpl in Hk. unfold Text.char_length in Hk. simpl in Hk. lia.
Qed.

Lemma varchar_nonempty {R} n s s' :
  0 < n → varchar (R := R) n s = Done s' → s ≠ "" → s' ≠ "".
Proof. intros Hn H%varchar_Done; [|lia]. by apply (kept_nonempty n s). Qed.

Lemma bind_text_holds {R} n v column :
  0 ≤ default 0 n →
  bind_text (R := R) n v = Done column → holds_text n v column.
Proof.
  intros Hn. unfold bind_text, holds_text.
  destruct v, n as [n|]; simpl; try (by intros [= <-]; eauto);
    intros H; steps_back H; subst; eexists;
    (split; [reflexivity|by eapply varchar_Done]).
Qed.

Lemma same_text_holds n v column :
  same_text v column = true → holds_text n v column.
Proof.
  destruct v, column; simpl; try done.
  intros ->%String.eqb_eq. eexists. split; [done|apply kept_refl].
Qed.

Lemma set_text_holds {R} n v old column :
  0 ≤ default 0 n →
  set_text (R := R) n v old = Done column → holds_text n v column.
Proof.
  intros Hn. unfold set_text. destruct (same_text v old) eqn:E.
  - intros [= <-]. by apply same_text_holds.
  - by apply bind_text_holds.
Qed.

Lemma set_text_nn_holds {R} n v old column :
  0 ≤ n →
  set_text_nn (R := R) n v old = Done column →
  holds_text (Some n) v (Some column).
Proof.
  intros Hn. unfold set_text_nn. destruct (same_text v (Some old)) eqn:E.
  - intros [= <-]. by apply same_text_holds.
  - unfold bind_text_nn. intros H. steps_back H.
    apply of_option_Done in H as ->.
    apply bind_text_holds in Hstep; [done|simpl; lia].
Qed.

Lemma bind_text_nn_holds {R} n v column :
  0 ≤ n →
  bind_text_nn (R := R) n v = Done column →
  holds_text (Some n) v (Some column).
Proof.
  intros Hn. unfold bind_text_nn. intros H. steps_back H.
  apply of_option_Done in H as ->.
  apply bind_text_holds in Hstep; [done|simpl; lia].
Qed.

Lemma to_float_holds {R} v x : to_float (R := R) v = Done x → float_of v x.
Proof.
  destruct v; simpl; try done; try (by intros [= <-]).
  by intros H%of_option_Done.
Qed.

Lemma to_float_or_none_holds {R} v column :
  to_float_or_none (R := R) v = Done column → holds_float v column.
Proof.
  unfold to_float_or_none, holds_float. destruct (truthy v) eqn:E.
  - intros H. steps_back H. subst. apply to_float_holds in Hstep. eauto.
  - by intros [= <-].
Qed.



(** ** What the lookups find *)

Lemma find_location_Some st lid uid l :
  find_location st lid uid = Some l →
  l ∈ locations st ∧ l_id l = lid ∧ l_user_id l = uid.
Proof.
  unfold find_location. intros H%head_Some_elem_of.
  apply list_elem_of_filter in H as [[? ?] ?]. done.
Qed.

Lemma find_session_Some st sid uid s :
  find_session st sid uid = Some s →
  s ∈ fishing_sessions st ∧ s_id s = sid ∧ s_user_id s = uid.
Proof.
  unfold find_session. intros H%head_Some_elem_of.
  apply list_elem_of_filter in H as [[? ?] ?]. done.
Qed.

Lemma has_session_false st sid s :
  has_session st sid = false → s ∈ fishing_sessions st → s_id s ≠ sid.
Proof.
  unfold has_session. intros H%bool_decide_eq_false Hs <-.
  apply H. by apply list_elem_of_fmap_2.
Qed.

Lemma elem_of_replace_row {A} (key : A → string) (new : A) rows r :
  r ∈ replace_row key new rows →
  r = new ∨ (r ∈ rows ∧ key r ≠ key new).
Proof.
  unfold replace_row. intros (r' & -> & Hr')%list_elem_of_fmap.
  case_decide; [by left|by right].
Qed.

Lemma stamp_if_changed_session touched t old new :
  let stored := stamp_if_changed touched (stamp_session t) old new in
  s_id stored = s_id new ∧ s_user_id stored = s_user_id new
  ∧ s_location_id stored = s_location_id new ∧ s_date stored = s_date new
  ∧ s_start_time stored = s_start_time new
  ∧ s_end_time stored = s_end_time new
  ∧ s_duration_minutes stored = s_duration_minutes new
  ∧ s_weather_conditions stored = s_weather_conditions new
  ∧ s_temperature_celsius stored = s_temperature_celsius new
  ∧ s_notes stored = s_notes new
  ∧ s_created_at stored = s_created_at new.
Proof.
  unfold stamp_if_changed. simpl. destruct touched; [done|].
  case_decide as E; [by rewrite E|done].
Qed.

(** The times of a session [updated_from] a payload are times of day when
    those of the session before are. *)
Lemma updated_from_times data old new :
  updated_from data old new →
  valid_time (s_start_time old) → valid_time (s_end_time old) →
  valid_time (s_start_time new) ∧ valid_time (s_end_time new).
Proof.
  intros U Hs He. split.
  - pose proof (upd_start_time _ _ _ U) as H.
    destruct (data !! "start_time"); [by eapply to_time_valid|by rewrite H].
  - pose proof (upd_end_time _ _ _ U) as H.
    destruct (data !! "end_time"); [by eapply to_time_valid|by rewrite H].
Qed.

Lemma times_valid_elem st s :
  times_valid st → s ∈ fishing_sessions st →
  valid_time (s_start_time s) ∧ valid_time (s_end_time s).
Proof. unfold times_valid. rewrite Forall_forall. auto. Qed.

(** ** The stored duration *)

Lemma spec_duration_22_02 date :
  spec_duration date (Calendar.MkTime 22 0) (Calendar.MkTime 2 0) = 240.
Proof.
  unfold spec_duration, Calendar.seconds_of_time; simpl.
  destruct (_ <? _) eqn:E; [|lia].
  replace (date * 86400 + (2 * 3600 + 0 * 60) + 86400
           - (date * 86400 + (22 * 3600 + 0 * 60))) with (240 * 60) by lia.
  by rewrite Z.div_mul.
Qed.

(** C1. A session that [create_session] created, or that an
    [update_session] whose payload has one of the keys [date],
    [start_time], [end_time] wrote, carries as [duration_minutes] the whole
    minutes from date+start to date+end, the end moved one day on when it
    is the earlier instant; from 22:00 to 02:00 that is 240. *)
Theorem C1_stored_duration (c : call) (current_user : User) (st : store)
    (session_id : string) (s : FishingSession) :
  times_valid st →
  computes_duration c →
  written_session c = Some session_id →
  status (run c current_user st).1 < 400 →
  s ∈ fishing_sessions (run c current_user st).2 →
  s_id s = session_id →
  s_duration_minutes s
  = Some (spec_duration (s_date s) (s_start_time s) (s_end_time s))
  ∧ (s_start_time s = Calendar.MkTime 22 0 →
     s_end_time s = Calendar.MkTime 2 0 →
     s_duration_minutes s = Some 240).
Proof.
  intros Hvalid Hc Hw Hok Hs Hid.
  assert (s_duration_minutes s
          = Some (spec_duration (s_date s) (s_start_time s) (s_end_time s)))
    as Hd.
  { destruct c; simpl in Hc, Hw; try done; injection Hw as Hw; simpl in *.
    - (* create_session *)
      destruct (create_session cx data current_user st) as [resp st'] eqn:E.
      apply create_session_cases in E
        as (lid & l & d & t1 & t2 & m & tc & w & n & _ & _ & _ & Ht1 & Ht2
            & Hm & _ & _ & _ & Hfresh & -> & _); [|done].
      simpl in Hs. apply elem_of_app in Hs as [Hs|Hs].
      + eapply has_session_false in Hfresh; [|done]. congruence.
      + apply list_elem_of_singleton in Hs as ->. simpl. f_equal.
        eapply duration_minutes_of_spec; [..|exact Hm]; by eapply to_time_valid.
    - (* update_session *)
      destruct (update_session cx session_id0 data current_user st)
        as [resp st'] eqn:E.
      apply update_session_cases in E
        as [[_ ?]|(old & new & Hf & U & _ & _ & touched & -> & _)];
        [simpl in Hok; lia|].
      apply find_session_Some in Hf as (Hold & Hoid & _).
      destruct (times_valid_elem _ _ Hvalid Hold) as [Hso Heo].
      destruct (updated_from_times _ _ _ U Hso Heo) as [Hsn Hen].
      pose proof (stamp_if_changed_session touched (now cx) old new)
        as (Ei & _ & _ & Ed & Es & Ee & Em & _).
      simpl in Hs. apply elem_of_replace_row in Hs as [->|[_ Hne]].
      + rewrite Em, Ed, Es, Ee.
        pose proof (upd_duration _ _ _ U) as Hdur. rewrite Hc in Hdur.
        destruct Hdur as (m & Hm & ->). f_equal.
        by eapply duration_minutes_of_spec.
      + rewrite Ei, (upd_id _ _ _ U) in Hne. congruence. }
  split; [done|]. intros Hs22 He2.
  by rewrite Hd, Hs22, He2, spec_duration_22_02.
Qed.

(** ** What the API keeps true of the sessions *)

Lemma try_except_snd (P : store → Prop) h st (r : route) :
  P st → (∀ resp st', r = Done (resp, st') → P st') → P (try_except h st r).2.
Proof.
  intros Hst Hr. destruct r as [[resp st']| |e]; simpl; [by eapply Hr|done|].
  destruct h; [case_decide|]; done.
Qed.

Lemma token_required_snd (P : store → Prop) f tk st :
  P st → (∀ cu, P (f cu st).2) → P (token_required f tk st).2.
Proof.
  intros Hst Hf. destruct tk; simpl; try done.
  destruct (get_user st user_id); [apply Hf|done].
Qed.

Lemma sessions_ok_elem st s : sessions_ok st → s ∈ fishing_sessions st → session_ok s.
Proof. unfold sessions_ok. rewrite Forall_forall. auto. Qed.

Lemma sessions_ok_times st : sessions_ok st → times_valid st.
Proof.
  unfold sessions_ok, times_valid. intros H.
  eapply Forall_impl; [exact H|]. by intros s (? & ? & _).
Qed.

Lemma sessions_ok_same st st' :
  fishing_sessions st' = fishing_sessions st → sessions_ok st → sessions_ok st'.
Proof. unfold sessions_ok. by intros ->. Qed.

Lemma sessions_ok_subseteq st st' :
  fishing_sessions st' ⊆ fishing_sessions st → sessions_ok st → sessions_ok st'.
Proof.
  unfold sessions_ok. rewrite !Forall_forall. intros Hsub H s Hs. by apply H, Hsub.
Qed.

Lemma delete_session_row_sessions st s :
  fishing_sessions (delete_session_row st s) ⊆ fishing_sessions st.
Proof. simpl. intros x [_ ?]%list_elem_of_filter. done. Qed.

Lemma delete_sessions_sessions st ss :
  fishing_sessions (foldr (λ s acc, delete_session_row acc s) st ss)
  ⊆ fishing_sessions st.
Proof.
  induction ss as [|s ss IH]; simpl; [done|].
  intros x [_ ?]%list_elem_of_filter. by apply IH.
Qed.

Lemma delete_location_row_sessions st l :
  fishing_sessions (delete_location_row st l) ⊆ fishing_sessions st.
Proof. unfold delete_location_row. simpl. apply delete_sessions_sessions. Qed.

Lemma stamp_session_ok t s : session_ok s → session_ok (stamp_session t s).
Proof. done. Qed.

Lemma create_session_ok cx data cu st :
  sessions_ok st → sessions_ok (create_session cx data cu st).2.
Proof.
  intros Hok. destruct (create_session cx data cu st) as [resp st'] eqn:E.
  destruct (decide (status resp < 400)) as [Hs|Hs].
  - apply create_session_cases in E
      as (lid & l & d & t1 & t2 & m & tc & w & n & _ & _ & _ & Ht1 & Ht2
          & Hm & _ & _ & _ & _ & -> & _); [|done].
    unfold sessions_ok; simpl. apply Forall_app. split; [done|].
    apply Forall_singleton. apply to_time_valid in Ht1, Ht2.
    split; [done|split; [done|]]. simpl. f_equal.
    by eapply duration_minutes_of_spec.
  - unfold create_session in E.
    apply try_except_cases in E as [E|[-> _]]; [|done|errs].
    exfalso. apply Hs. steps_back E. subst. simpl. lia.
Qed.

Lemma update_session_ok cx sid data cu st :
  sessions_ok st → sessions_ok (update_session cx sid data cu st).2.
Proof.
  intros Hok. destruct (update_session cx sid data cu st) as [resp st'] eqn:E.
  apply update_session_cases in E
    as [[-> _]|(old & new & Hf & U & _ & _ & touched & -> & _)]; [done|].
  apply find_session_Some in Hf as (Hold & _ & _).
  destruct (sessions_ok_elem _ _ Hok Hold) as (Hso & Heo & Hdo).
  destruct (updated_from_times _ _ _ U Hso Heo) as [Hsn Hen].
  assert (session_ok new) as Hnew.
  { split; [done|split; [done|]].
    pose proof (upd_duration _ _ _ U) as Hd.
    destruct (_ || _) eqn:Ek.
    - destruct Hd as (m & Hm & ->). f_equal. by eapply duration_minutes_of_spec.
    - apply orb_false_iff in Ek as [[Ek1 Ek2]%orb_false_iff Ek3].
      unfold has_key in *.
      apply bool_decide_eq_false in Ek1, Ek2, Ek3.
      rewrite <- eq_None_not_Some in Ek1, Ek2, Ek3.
      pose proof (upd_date _ _ _ U) as H1.
      pose proof (upd_start_time _ _ _ U) as H2.
      pose proof (upd_end_time _ _ _ U) as H3.
      rewrite Ek1 in H1. rewrite Ek2 in H2. rewrite Ek3 in H3.
      by rewrite Hd, H1, H2, H3. }
  unfold sessions_ok; simpl. unfold replace_row. apply Forall_fmap.
  eapply Forall_impl; [exact Hok|]. intros s Hs. simpl.
  case_decide; [|done]. unfold stamp_if_changed.
  destruct touched; [done|]. by case_decide.
Qed.

Ltac unfold_routes :=
  unfold get_current_user, change_password, get_locations, create_location,
    get_location, update_location, delete_location, get_sessions,
    get_session, delete_session, get_catches, create_catch, get_catch,
    update_catch, delete_catch, get_catches_by_session, get_overview_stats,
    get_species_stats, get_location_stats, get_bait_stats, get_monthly_stats,
    get_recent_activity.

(** No call takes a session out of [session_ok]. *)
Lemma run_sessions_ok c cu st : sessions_ok st → sessions_ok (run c cu st).2.
Proof.
  intros Hok. destruct c; simpl;
    try (by apply create_session_ok); try (by apply update_session_ok);
    unfold_routes; try done;
    (apply try_except_snd; [done|]; intros resp st' H; steps_back H; subst;
     try done).
  - (* create_location *)
    match goal with
    | H : insert_location _ _ = Done _ |- _ =>
        apply insert_location_Done in H as (_ & _ & ->)
    end. done.
  - (* update_location *)
    unfold update_location_row in *.
    match goal with H : Done _ = Done _ |- _ => injection H as <- end. done.
  - (* delete_location *)
    eapply sessions_ok_subseteq; [apply delete_location_row_sessions|done].
  - (* delete_session *)
    eapply sessions_ok_subseteq; [apply delete_session_row_sessions|done].
  - (* create_catch *)
    match goal with
    | H : insert_catch _ _ = Done _ |- _ =>
        apply insert_catch_Done in H as (_ & _ & ->)
    end. done.
  - (* update_catch *)
    match goal with
    | H : update_catch_row _ _ _ _ _ = Done _ |- _ =>
        apply update_catch_row_Done in H as (_ & ->)
    end. done.
Qed.

Lemma handle_sessions_ok rq st : sessions_ok st → sessions_ok (handle rq st).2.
Proof.
  intros Hok. destruct rq as [cx data|data|tk c]; simpl.
  - unfold register.
    apply try_except_snd; [done|]. intros resp st' H. steps_back H. subst.
    match goal with
    | H : insert_user _ _ = Done _ |- _ =>
        apply insert_user_Done in H as (_ & ->)
    end. done.
  - unfold login.
    apply try_except_snd; [done|]. intros resp st' H. steps_back H.
    destruct (head _); [|done]. steps_back H. by subst.
  - apply token_required_snd; [done|]. intros cu. by apply run_sessions_ok.
Qed.

Lemma reachable_sessions_ok st : reachable st → sessions_ok st.
Proof.
  induction 1 as [|st rq _ IH _]; [by constructor|by apply handle_sessions_ok].
Qed.

Lemma sum_durations_nonneg ss :
  Forall session_ok ss → 0 ≤ foldr Z.add 0 (omap s_duration_minutes ss).
Proof.
  induction 1 as [|s ss (Hs & He & Hd) _ IH]; simpl; [done|].
  rewrite Hd. simpl. pose proof (spec_duration_range (s_date s) _ _ Hs He).
  unfold omap in IH. lia.
Qed.

(** C10. In a store the API produced, every session carries a duration [d]
    with [0 <= d < 1440], which is 0 when its start and end times are the
    same; so the durations of any of its sessions add up to a number that
    is not negative. *)
Theorem C10_duration_range (st : store) :
  reachable st →
  (∀ s, s ∈ fishing_sessions st →
     ∃ d, s_duration_minutes s = Some d ∧ 0 ≤ d < 1440
          ∧ (s_start_time s = s_end_time s → d = 0))
  ∧ (∀ ss, ss ⊆ fishing_sessions st →
       0 ≤ default 0 (sql_sum_int (omap s_duration_minutes ss))).
Proof.
  intros Hok%reachable_sessions_ok. split.
  - intros s Hs. destruct (sessions_ok_elem _ _ Hok Hs) as (H1 & H2 & Hd).
    eexists. split; [exact Hd|]. split; [by apply spec_duration_range|].
    intros ->. apply spec_duration_same.
  - intros ss Hss.
    assert (Forall session_ok ss) as Hall.
    { apply Forall_forall. intros s Hs. by eapply sessions_ok_elem, Hss. }
    apply sum_durations_nonneg in Hall. unfold sql_sum_int.
    destruct (omap _ ss); simpl in *; lia.
Qed.
(** ** Partial updates *)



Lemma NoDup_key_inj {A} (key : A → string) (rows : list A) x y :
  NoDup (key <$> rows) → x ∈ rows → y ∈ rows → key x = key y → x = y.
Proof.
  induction rows as [|r rows IH]; simpl; [by intros _ ?%elem_of_nil|].
  intros [Hr Hnd]%NoDup_cons [->|Hx]%elem_of_cons [->|Hy]%elem_of_cons Hk;
    [done| | |by apply IH].
  - exfalso. apply Hr. rewrite Hk. by apply list_elem_of_fmap_2.
  - exfalso. apply Hr. rewrite <- Hk. by apply list_elem_of_fmap_2.
Qed.







(** ** The guard of [delete_location] *)

Lemma location_sessions_id st l l' :
  l_id l = l_id l' → location_sessions st l = location_sessions st l'.
Proof. unfold location_sessions. by intros ->. Qed.

Lemma find_location_None st lid uid :
  find_location st lid uid = None →
  ∀ l, l ∈ locations st → l_id l = lid → l_user_id l ≠ uid.
Proof.
  unfold find_location. intros H%head_None l Hl Hid Hu.
  assert (l ∈ filter (λ l, l_id l = lid ∧ l_user_id l = uid) (locations st))
    as Hin by (by apply list_elem_of_filter).
  rewrite H in Hin. by apply elem_of_nil in Hin.
Qed.

(** C6. Deleting a location that has a session changes nothing and does
    not succeed, whoever asks: its owner is answered 400 and the refusal,
    so a delete that succeeds was of a location without sessions. *)
Theorem C6_delete_location_guard (location_id : string)
    (current_user : User) (st : store) (l : Location) :
  l ∈ locations st → l_id l = location_id →
  location_sessions st l ≠ [] →
  (delete_location location_id current_user st).2 = st
  ∧ 400 ≤ status (delete_location location_id current_user st).1
  ∧ (l_user_id l = u_id current_user →
     (delete_location location_id current_user st).1
     = error 400 LocationHasSessions).
Proof.
  intros Hl Hid Hs. unfold delete_location.
  destruct (find_location st location_id (u_id current_user)) as [l'|] eqn:E;
    simpl.
  - apply find_location_Some in E as (_ & Hid' & _).
    rewrite (location_sessions_id st l' l) by congruence.
    rewrite bool_decide_eq_true_2 by done. simpl. done.
  - split; [done|]. split; [simpl; lia|]. intros Hu.
    by eapply find_location_None in E.
Qed.

(** ** Creating under a parent that is not the caller's *)

Lemma find_location_None_intro st lid uid :
  (∀ l, l ∈ locations st → l_id l = lid → l_user_id l ≠ uid) →
  find_location st lid uid = None.
Proof.
  intros H. destruct (find_location st lid uid) as [l|] eqn:E; [|done].
  apply find_location_Some in E as (Hl & Hid & Hu). by destruct (H l).
Qed.

Lemma find_session_None_intro st sid uid :
  (∀ s, s ∈ fishing_sessions st → s_id s = sid → s_user_id s ≠ uid) →
  find_session st sid uid = None.
Proof.
  intros H. destruct (find_session st sid uid) as [s|] eqn:E; [|done].
  apply find_session_Some in E as (Hs & Hid & Hu). by destruct (H s).
Qed.

Lemma truthy_JStr s : s ≠ "" → truthy (JStr s) = true.
Proof.
  intros H. simpl. apply negb_true_iff, String.eqb_neq. done.
Qed.

(** ** The overview *)

Lemma wf_sessions_ok st : wf st → sessions_ok st.
Proof. by intros (_ & _ & ?). Qed.

Lemma wf_session_location st s :
  wf st → s ∈ fishing_sessions st →
  ∃ l, session_location st s = Some l ∧ l ∈ locations st
       ∧ l_id l = s_location_id s ∧ l_user_id l = s_user_id s.
Proof.
  intros (Hk & (_ & Ho & _) & _) Hs.
  rewrite Forall_forall in Ho. specialize (Ho s Hs).
  apply Exists_exists in Ho as (l & Hl & Hid & Hu).
  unfold session_location.
  destruct (filter _ (locations st)) as [|l' ls] eqn:E.
  - assert (l ∈ filter (λ l, l_id l = s_location_id s) (locations st)) as Hin
      by (by apply list_elem_of_filter).
    rewrite E in Hin. by apply elem_of_nil in Hin.
  - assert (l' ∈ filter (λ l, l_id l = s_location_id s) (locations st)) as Hin
      by (rewrite E; left).
    apply list_elem_of_filter in Hin as [Hid' Hl'].
    destruct Hk as (_ & Hnd & _).
    assert (l' = l) as ->
      by (eapply NoDup_key_inj; [exact Hnd|done..|congruence]).
    simpl. eauto.
Qed.

Lemma elem_of_order_by {A} (le : A → A → Prop) `{∀ x y, Decision (le x y)}
    (rows : list A) x :
  x ∈ order_by le rows ↔ x ∈ rows.
Proof. unfold order_by. by rewrite merge_sort_Permutation. Qed.

Lemma sql_sum_int_default xs : default 0 (sql_sum_int xs) = foldr Z.add 0 xs.
Proof. by destruct xs. Qed.

Lemma count_nonneg {A} (rows : list A) : 0 ≤ count rows.
Proof. unfold count. lia. Qed.

Lemma count_filter_le {A} (P : A → Prop) `{∀ x, Decision (P x)} (rows : list A) :
  count (filter P rows) ≤ count rows.
Proof. unfold count. pose proof (length_filter P rows). lia. Qed.

(** C5. On a well-formed store the overview is answered, with counts that
    are not negative and [kept_count + released_count = total_catches];
    the total weight is 0 when no catch of the user has a weight, the
    total of hours is 0 when no session of the user has a duration, and
    otherwise it is the float nearest to the sum of the durations over 60,
    rounded to one decimal (the integer 0 when the sum is 0). *)
Theorem C5_overview (current_user : User) (st : store) :
  wf st →
  ∃ o,
    get_overview_stats current_user st = (ok 200 (BOverview o), st)
    ∧ kept_count o + released_count o = total_catches o
    ∧ 0 ≤ total_sessions o ∧ 0 ≤ total_catches o ∧ 0 ≤ total_locations o
    ∧ 0 ≤ released_count o ∧ 0 ≤ kept_count o
    ∧ (omap c_weight_kg (catches_of st (u_id current_user)) = [] →
       total_weight_kg o = PInt 0)
    ∧ (omap s_duration_minutes (sessions_of st (u_id current_user)) = [] →
       total_hours o = PInt 0)
    ∧ total_hours o
      = (let total_minutes :=
           foldr Z.add 0
             (omap s_duration_minutes (sessions_of st (u_id current_user))) in
         if total_minutes =? 0 then PInt 0
         else PFloat (round_nd (int_truediv total_minutes 60) 1)).
Proof.
  intros Hwf. unfold get_overview_stats.
  assert (∃ name,
    match head (order_by recent_first (sessions_of st (u_id current_user))) with
    | Some s =>
        l ← of_option (R := response) (session_location st s) AttributeError;
        Done (Some (l_name l))
    | None => Done None
    end = Done name) as [name ->].
  { destruct (head _) as [s|] eqn:E; [|by eexists].
    apply head_Some_elem_of, elem_of_order_by in E.
    apply list_elem_of_filter in E as [_ Hs].
    destruct (wf_session_location _ _ Hwf Hs) as (l & -> & _). by eexists. }
  simpl. eexists. split; [reflexivity|]. simpl.
  rewrite sql_sum_int_default.
  set (cs := catches_of st (u_id current_user)).
  set (ss := sessions_of st (u_id current_user)).
  assert (0 ≤ foldr Z.add 0 (omap s_duration_minutes ss)) as Hsum.
  { apply sum_durations_nonneg. apply Forall_forall. intros s Hs.
    apply list_elem_of_filter in Hs as [_ Hs].
    by eapply sessions_ok_elem; [apply wf_sessions_ok|]. }
  pose proof (count_filter_le (λ c, c_released c = true) cs).
  pose proof (count_nonneg cs). pose proof (count_nonneg ss).
  pose proof (count_nonneg (locations_of st (u_id current_user))).
  pose proof (count_nonneg (filter (λ c, c_released c = true) cs)).
  repeat (split; [lia|]).
  split; [by intros ->|]. split; [by intros ->|].
  unfold hours_of.
  destruct (0 <? _) eqn:E1; destruct (_ =? 0) eqn:E2; try done; lia.
Qed.
(** ** The bait breakdown *)

Lemma fst_fmap_pair {K V} (g : K → V) (l : list K) :
  ((λ k, (k, g k)) <$> l).*1 = l.
Proof. induction l as [|k l IH]; simpl; [done|by f_equal]. Qed.

Lemma group_by_fst {A K} `{EqDecision K} (key : A → K) (rows : list A) :
  (group_by key rows).*1 = remove_dups (key <$> rows).
Proof. unfold group_by. apply fst_fmap_pair. Qed.

Lemma group_by_keys {A K} `{EqDecision K} (key : A → K) (rows : list A) k :
  k ∈ (group_by key rows).*1 ↔ ∃ r, r ∈ rows ∧ key r = k.
Proof.
  rewrite group_by_fst, elem_of_remove_dups, list_elem_of_fmap.
  split; intros (r & H1 & H2); exists r; done.
Qed.

Lemma group_by_NoDup {A K} `{EqDecision K} (key : A → K) (rows : list A) :
  NoDup (group_by key rows).*1.
Proof. rewrite group_by_fst. apply NoDup_remove_dups. Qed.

Lemma group_by_nonempty {A K} `{EqDecision K} (key : A → K) (rows : list A) r :
  r ∈ rows → group_by key rows ≠ [].
Proof.
  intros Hr Hnil.
  assert (key r ∈ (group_by key rows).*1) as Hin
    by (apply group_by_keys; eauto).
  rewrite Hnil in Hin. by apply elem_of_nil in Hin.
Qed.

Lemma order_by_nonempty {A} (le : A → A → Prop) `{∀ x y, Decision (le x y)}
    (rows : list A) :
  rows ≠ [] → order_by le rows ≠ [].
Proof.
  intros Hne Hnil. destruct rows as [|r rows]; [done|].
  assert (r ∈ order_by le (r :: rows)) as Hin
    by (apply elem_of_order_by; left).
  rewrite Hnil in Hin. by apply elem_of_nil in Hin.
Qed.

Lemma mapM_raise {A C} (f : A → outcome response C) e x l :
  f x = Raise e → mapM f (x :: l) = Raise e.
Proof. intros H. simpl. by rewrite H. Qed.

(** C2, what the route does. When a catch of the user names a bait, the
    first pass over the breakdown reads [total_catches] before the
    assignment further down, and the route answers 500; only a user
    without such a catch is answered, with an empty breakdown. *)
Theorem C2_bait_stats_unbound (limit_arg : option Z) (current_user : User)
    (st : store) (c : Catch) :
  c ∈ catches_of st (u_id current_user) → has_bait c →
  0 < default 10 limit_arg →
  get_bait_stats limit_arg current_user st
  = (error 500 (Unhandled UnboundLocalError), st).
Proof.
  intros Hc Hb Hlim. unfold get_bait_stats.
  set (rows := filter has_bait (catch_join_of st (u_id current_user)).*1).
  set (grouped := _ <$> group_by c_bait_used rows).
  set (ordered := order_by _ grouped).
  assert (ordered ≠ []) as Hne.
  { apply order_by_nonempty. unfold grouped. intros Hnil%fmap_nil_inv.
    eapply group_by_nonempty; [|exact Hnil].
    apply list_elem_of_filter. split; [exact Hb|exact Hc]. }
  destruct ordered as [|[[[bait cnt] avg] rel] rest] eqn:E; [done|].
  unfold limit. destruct (_ <? 0) eqn:El; [lia|]. simpl.
  destruct (Z.to_nat (default 10 limit_arg)) as [|n] eqn:En; [lia|].
  simpl. done.
Qed.

(** The other side of C2: without a catch that names a bait the route
    answers with an empty breakdown. *)
Lemma bait_stats_empty (limit_arg : option Z) (current_user : User) st :
  filter has_bait (catches_of st (u_id current_user)) = [] →
  0 ≤ default 10 limit_arg →
  get_bait_stats limit_arg current_user st = (ok 200 (BBaits []), st).
Proof.
  intros Hnil Hlim. unfold get_bait_stats. unfold catches_of in Hnil.
  rewrite Hnil. unfold group_by, order_by, limit. simpl.
  destruct (_ <? 0) eqn:El; [lia|]. unfold merge_sort. simpl.
  by rewrite take_nil.
Qed.

(** ** The location breakdown *)

(** C3, what the route does. The query of [get_location_stats] takes its
    columns from [Location], [FishingSession] and [Catch] and joins
    [FishingSession] without naming the table to join it to: a foreign key
    links it with [Location] and another with [Catch], and the mapping
    layer, which wants one candidate, refuses to build the statement. For
    every user and every store the route answers 500 and the text of that
    error, with no breakdown, and leaves the store as it was. *)
Theorem C3_location_stats_raises (current_user : User) (st : store) :
  filter (λ f, f ≠ TFishingSessions ∧ can_join f TFishingSessions)
    [TLocations; TFishingSessions; TCatches]
  = [TLocations; TCatches]
  ∧ get_location_stats current_user st
    = (error 500 (Unhandled InvalidRequestError), st).
Proof.
  split; [reflexivity|]. unfold get_location_stats.
  by rewrite location_stats_join.
Qed.
(** ** The monthly breakdown *)

Lemma dict_set_fst {V} k (v : V) d :
  (dict_set k v d).*1 = if dict_has k d then d.*1 else d.*1 ++ [k].
Proof.
  unfold dict_set. destruct (dict_has k d).
  - induction d as [|kv d IH]; simpl; [done|].
    f_equal; [by case_decide|exact IH].
  - by rewrite fmap_app.
Qed.

Lemma dict_alter_fst {V} (f : V → V) k d : (dict_alter f k d).*1 = d.*1.
Proof.
  unfold dict_alter. induction d as [|kv d IH]; simpl; [done|].
  f_equal; [by case_decide|exact IH].
Qed.

Lemma dict_set_NoDup {V} k (v : V) d : NoDup d.*1 → NoDup (dict_set k v d).*1.
Proof.
  intros Hnd. rewrite dict_set_fst. unfold dict_has.
  case_bool_decide as Hk; [done|].
  apply NoDup_app. split; [done|]. split; [|apply NoDup_singleton].
  intros x Hx ->%list_elem_of_singleton. done.
Qed.

Lemma dict_set_keyed k v d : keyed d → m_month v = k → keyed (dict_set k v d).
Proof.
  unfold keyed, dict_set. intros Hd Hv. destruct (dict_has k d).
  - apply Forall_fmap. eapply Forall_impl; [exact Hd|].
    intros kv Hkv. simpl. by case_decide.
  - apply Forall_app. split; [done|]. by apply Forall_singleton.
Qed.

Lemma dict_alter_keyed f k d :
  keyed d → (∀ e, m_month (f e) = m_month e) → keyed (dict_alter f k d).
Proof.
  unfold keyed, dict_alter. intros Hd Hf. apply Forall_fmap.
  eapply Forall_impl; [exact Hd|]. intros kv Hkv. simpl.
  case_decide; simpl; [by rewrite Hf|done].
Qed.

Lemma keyed_values d : keyed d → m_month <$> dict_values d = d.*1.
Proof.
  unfold keyed, dict_values. induction 1 as [|kv d Hkv _ IH]; simpl; [done|].
  f_equal; [exact Hkv|exact IH].
Qed.

Lemma add_session_month_fst d row :
  (add_session_month d row).*1
  = if dict_has (Calendar.strftime_Ym row.1.1) d then d.*1
    else d.*1 ++ [Calendar.strftime_Ym row.1.1].
Proof. destruct row as [[month n] m]. apply dict_set_fst. Qed.

Lemma add_sessions_fst rows d k :
  k ∈ (foldl add_session_month d rows).*1
  ↔ k ∈ d.*1 ∨ ∃ row, row ∈ rows ∧ Calendar.strftime_Ym row.1.1 = k.
Proof.
  revert d. induction rows as [|row rows IH]; intros d; simpl.
  - split; [by left|]. intros [?|(row & ?%elem_of_nil & _)]; done.
  - rewrite IH, add_session_month_fst. unfold dict_has.
    case_bool_decide as Hk.
    + split.
      * intros [?|(r & Hr & ?)]; [by left|]. right. exists r.
        split; [by right|done].
      * intros [?|(r & [->|Hr]%elem_of_cons & <-)]; [by left|by left|].
        right. by exists r.
    + rewrite elem_of_app, list_elem_of_singleton. split.
      * intros [[?| ->]|(r & Hr & ?)]; [by left| |].
        -- right. exists row. split; [by left|done].
        -- right. exists r. split; [by right|done].
      * intros [?|(r & [->|Hr]%elem_of_cons & <-)];
          [by left; left|by left; right|].
        right. by exists r.
Qed.

Lemma add_sessions_NoDup rows d :
  NoDup d.*1 → NoDup (foldl add_session_month d rows).*1.
Proof.
  revert d. induction rows as [|[[month n] m] rows IH]; intros d Hd; simpl;
    [done|].
  apply IH. by apply dict_set_NoDup.
Qed.

Lemma add_sessions_keyed rows d :
  keyed d → keyed (foldl add_session_month d rows).
Proof.
  revert d. induction rows as [|[[month n] m] rows IH]; intros d Hd; simpl;
    [done|].
  apply IH. by apply dict_set_keyed.
Qed.

Lemma add_catch_month_fst d row : (add_catch_month d row).*1 = d.*1.
Proof.
  destruct row as [[month n] w]. unfold add_catch_month.
  destruct (dict_has _ d); [apply dict_alter_fst|done].
Qed.

Lemma add_catches_fst rows d : (foldl add_catch_month d rows).*1 = d.*1.
Proof.
  revert d. induction rows as [|row rows IH]; intros d; simpl; [done|].
  by rewrite IH, add_catch_month_fst.
Qed.

Lemma add_catches_keyed rows d :
  keyed d → keyed (foldl add_catch_month d rows).
Proof.
  revert d. induction rows as [|[[month n] w] rows IH]; intros d Hd; simpl;
    [done|].
  apply IH. unfold add_catch_month.
  destruct (dict_has _ d); [by apply dict_alter_keyed|done].
Qed.

(** The months of the first query are the months of the sessions of the
    user dated [twelve_months_ago] or later. *)
Lemma monthly_sessions_months st uid cutoff k :
  (∃ row, row ∈ monthly_sessions st uid cutoff
          ∧ Calendar.strftime_Ym row.1.1 = k)
  ↔ ∃ s, s ∈ fishing_sessions st ∧ s_user_id s = uid ∧ cutoff ≤ s_date s
         ∧ month_of_session s = k.
Proof.
  unfold monthly_sessions, month_of_session. split.
  - intros (row & Hrow & <-).
    apply list_elem_of_fmap in Hrow as ([month g] & -> & Hg).
    apply elem_of_order_by in Hg.
    assert (month ∈ (group_by (λ s, Calendar.date_trunc_month (s_date s))
              (filter (λ s, cutoff ≤ s_date s) (sessions_of st uid))).*1)
      as Hm by (apply list_elem_of_fmap; by exists (month, g)).
    apply group_by_keys in Hm as (s & Hs & <-).
    apply list_elem_of_filter in Hs as [Hc Hs].
    apply list_elem_of_filter in Hs as [Hu Hs].
    by exists s.
  - intros (s & Hs & Hu & Hc & <-).
    assert (Calendar.date_trunc_month (s_date s)
            ∈ (group_by (λ s, Calendar.date_trunc_month (s_date s))
                 (filter (λ s, cutoff ≤ s_date s) (sessions_of st uid))).*1)
      as Hm.
    { apply group_by_keys. exists s. split; [|done].
      apply list_elem_of_filter. split; [done|].
      by apply list_elem_of_filter. }
    apply list_elem_of_fmap in Hm as ([month g] & Hmonth & Hg).
    simpl in Hmonth. subst month.
    eexists. split.
    + apply list_elem_of_fmap. eexists. split; [reflexivity|].
      apply elem_of_order_by. exact Hg.
    + done.
Qed.

Global Instance month_str_le_total : Total month_str_le.
Proof. intros a b. apply String.leb_total. Qed.

Lemma leb_ne_ltb (a b : string) :
  String.leb a b = true → a ≠ b → String.ltb a b = true.
Proof.
  unfold String.leb, String.ltb. destruct (String.compare a b) eqn:E; try done.
  intros _ Hne. by apply String.compare_eq_iff in E.
Qed.

Lemma Sorted_strict (l : list MonthStat) :
  Sorted month_str_le l → NoDup (m_month <$> l) → Sorted month_str_lt l.
Proof.
  induction 1 as [|a l Hl IH Hhd]; simpl; [constructor|].
  intros [Ha Hnd]%NoDup_cons. constructor; [by apply IH|].
  destruct Hhd as [|b l Hab]; constructor.
  apply leb_ne_ltb; [exact Hab|]. intros Heq. apply Ha. rewrite Heq. left.
Qed.

Lemma catch_join_of_session st uid c s :
  (c, s) ∈ catch_join_of st uid →
  c ∈ catches st ∧ s ∈ fishing_sessions st ∧ c_session_id c = s_id s
  ∧ s_user_id s = uid.
Proof.
  unfold catch_join_of, catch_join.
  intros [Hu H]%list_elem_of_filter.
  apply list_elem_of_bind in H as (c' & H & Hc).
  apply list_elem_of_bind in H as (s' & H & Hs).
  case_decide; [|by apply elem_of_nil in H].
  apply list_elem_of_singleton in H as [= -> ->]. done.
Qed.

(** X25. For a clock [today] past the first year, the monthly breakdown
    is answered with one entry for each month in which the user has a
    session dated [today - 365 days] or later (a catch counts under the
    month of its session, so a month with a catch has a session), no other
    entry, and the months strictly ascending, without duplicates. A month
    is named as the route names it, by the year and the month of the first
    day of the month of the date. No bound is applied at [today]. *)
Theorem X25_monthly_months (cx : context) (current_user : User) (st : store) :
  365 < today cx ≤ Calendar.MAXORDINAL + 365 →
  ∃ months,
    get_monthly_stats cx current_user st = (ok 200 (BMonthly months), st)
    ∧ (∀ e, e ∈ months →
         ∃ s, s ∈ fishing_sessions st ∧ s_user_id s = u_id current_user
              ∧ today cx - 365 ≤ s_date s ∧ m_month e = month_of_session s)
    ∧ (∀ s, s ∈ fishing_sessions st → s_user_id s = u_id current_user →
            today cx - 365 ≤ s_date s →
            ∃ e, e ∈ months ∧ m_month e = month_of_session s)
    ∧ (∀ c s, (c, s) ∈ catch_join_of st (u_id current_user) →
              today cx - 365 ≤ s_date s →
              ∃ e, e ∈ months ∧ m_month e = month_of_session s)
    ∧ NoDup (m_month <$> months)
    ∧ Sorted month_str_lt months.
Proof.
  intros Htoday. unfold get_monthly_stats, Calendar.date_add_days.
  replace (today cx + -365) with (today cx - 365) by lia.
  destruct (_ && _) eqn:E; [|lia]. simpl.
  set (cutoff := today cx - 365).
  set (d1 := foldl add_session_month []
               (monthly_sessions st (u_id current_user) cutoff)).
  set (d2 := foldl add_catch_month d1
               (monthly_catches st (u_id current_user) cutoff)).
  assert (keyed d2) as Hkeyed.
  { apply add_catches_keyed, add_sessions_keyed. constructor. }
  assert (d2.*1 = d1.*1) as Hfst by apply add_catches_fst.
  assert (NoDup d1.*1) as Hnd by (apply add_sessions_NoDup; constructor).
  assert (∀ k, k ∈ m_month <$> order_by month_str_le (dict_values d2)
               ↔ ∃ s, s ∈ fishing_sessions st
                      ∧ s_user_id s = u_id current_user
                      ∧ cutoff ≤ s_date s ∧ month_of_session s = k) as Hmem.
  { intros k. unfold order_by. rewrite merge_sort_Permutation.
    rewrite keyed_values, Hfst by done. unfold d1.
    rewrite add_sessions_fst, monthly_sessions_months.
    split; [intros [?%elem_of_nil|?]; done|by right]. }
  assert (∀ s, s ∈ fishing_sessions st → s_user_id s = u_id current_user →
            cutoff ≤ s_date s →
            ∃ e, e ∈ order_by month_str_le (dict_values d2)
                 ∧ m_month e = month_of_session s) as Hsess.
  { intros s Hs Hu Hc.
    assert (month_of_session s
            ∈ m_month <$> order_by month_str_le (dict_values d2)) as Hin
      by (apply Hmem; by exists s).
    apply list_elem_of_fmap in Hin as (e & He & Hin). by exists e. }
  assert (NoDup (m_month <$> order_by month_str_le (dict_values d2))) as Hnd2.
  { unfold order_by. rewrite merge_sort_Permutation.
    by rewrite keyed_values, Hfst. }
  eexists. split; [reflexivity|]. split; [|split; [|split; [|split]]].
  - intros e He.
    destruct (proj1 (Hmem (m_month e))) as (s & ? & ? & ? & ?).
    { by apply list_elem_of_fmap_2. }
    by exists s.
  - exact Hsess.
  - intros c s (_ & Hs & _ & Hu)%catch_join_of_session Hc. by apply Hsess.
  - exact Hnd2.
  - apply Sorted_strict; [|exact Hnd2]. apply Sorted_merge_sort. apply _.
Qed.
(** ** Every query reads the rows of the caller only *)

Lemma filter_filter_impl {A} (P Q : A → Prop) `{∀ x, Decision (P x)}
    `{∀ x, Decision (Q x)} (l : list A) :
  (∀ x, x ∈ l → P x → Q x) → filter P l = filter P (filter Q l).
Proof.
  induction l as [|x l IH]; intros HPQ; [done|].
  rewrite !filter_cons.
  assert (filter P l = filter P (filter Q l)) as IH'.
  { apply IH. intros y Hy. apply HPQ. by right. }
  destruct (decide (P x)) as [HP|HP].
  - rewrite decide_True by (apply HPQ; [left|done]).
    rewrite filter_cons, decide_True by done. by f_equal.
  - destruct (decide (Q x)); [|done].
    by rewrite filter_cons, decide_False by done.
Qed.

Lemma filter_all {A} (P : A → Prop) `{∀ x, Decision (P x)} (l : list A) :
  (∀ x, x ∈ l → P x) → filter P l = l.
Proof.
  induction l as [|x l IH]; intros HP; [done|].
  rewrite filter_cons, decide_True by (apply HP; left).
  f_equal. apply IH. intros y Hy. apply HP. by right.
Qed.

Lemma filter_none {A} (P : A → Prop) `{∀ x, Decision (P x)} (l : list A) :
  (∀ x, x ∈ l → ¬ P x) → filter P l = [].
Proof.
  induction l as [|x l IH]; intros HP; [done|].
  rewrite filter_cons, decide_False by (apply HP; left).
  apply IH. intros y Hy. apply HP. by right.
Qed.

Lemma filter_ext_in {A} (P Q : A → Prop) `{∀ x, Decision (P x)}
    `{∀ x, Decision (Q x)} (l : list A) :
  (∀ x, x ∈ l → P x ↔ Q x) → filter P l = filter Q l.
Proof.
  induction l as [|x l IH]; intros HPQ; [done|].
  rewrite !filter_cons.
  assert (filter P l = filter Q l) as ->
    by (apply IH; intros y Hy; apply HPQ; by right).
  destruct (decide (P x)) as [HP|HP].
  - by rewrite decide_True by (apply HPQ; [left|done]).
  - rewrite decide_False; [done|]. intros HQ. apply HP, HPQ; [left|done].
Qed.

Lemma filter_comm {A} (P Q : A → Prop) `{∀ x, Decision (P x)}
    `{∀ x, Decision (Q x)} (l : list A) :
  filter P (filter Q l) = filter Q (filter P l).
Proof.
  rewrite !list_filter_filter. apply filter_ext_in. intros x _. tauto.
Qed.

Lemma filter_key_NoDup {A} (key : A → string) (l : list A) x :
  NoDup (key <$> l) → x ∈ l → filter (λ r, key r = key x) l = [x].
Proof.
  induction l as [|y l IH]; simpl; [by intros _ ?%elem_of_nil|].
  intros [Hy Hnd]%NoDup_cons [->|Hx]%elem_of_cons.
  - rewrite filter_cons, decide_True by done. f_equal.
    destruct (filter _ l) as [|z zs] eqn:E; [done|].
    assert (z ∈ filter (λ r, key r = key y) l) as [Hz Hzl]%list_elem_of_filter
      by (rewrite E; left).
    exfalso. apply Hy. rewrite <- Hz. by apply list_elem_of_fmap_2.
  - rewrite filter_cons, decide_False; [by apply IH|].
    intros Heq. apply Hy. rewrite Heq. by apply list_elem_of_fmap_2.
Qed.

Lemma filter_replace_row_in {A} (key : A → string) (P : A → Prop)
    `{∀ x, Decision (P x)} (new : A) (l : list A) :
  P new → (∀ r, r ∈ l → key r = key new → P r) →
  filter P (replace_row key new l) = replace_row key new (filter P l).
Proof.
  intros Hnew Hold. unfold replace_row.
  induction l as [|r l IH]; [done|].
  assert (filter P ((λ r, if decide (key r = key new) then new else r) <$> l)
          = (λ r, if decide (key r = key new) then new else r) <$> filter P l)
    as IH' by (apply IH; intros y Hy; apply Hold; by right).
  rewrite fmap_cons. destruct (decide (key r = key new)) as [Hk|Hk].
  - rewrite !filter_cons, !decide_True by (done || (apply Hold; [left|done])).
    rewrite fmap_cons, decide_True by done. by f_equal.
  - rewrite !filter_cons. destruct (decide (P r)); [|done].
    rewrite fmap_cons, decide_False by done. by f_equal.
Qed.

Lemma filter_replace_row_out {A} (key : A → string) (P : A → Prop)
    `{∀ x, Decision (P x)} (new : A) (l : list A) :
  ¬ P new → (∀ r, r ∈ l → key r = key new → ¬ P r) →
  filter P (replace_row key new l) = filter P l.
Proof.
  intros Hnew Hold. unfold replace_row.
  induction l as [|r l IH]; [done|].
  assert (filter P ((λ r, if decide (key r = key new) then new else r) <$> l)
          = filter P l)
    as IH' by (apply IH; intros y Hy; apply Hold; by right).
  rewrite fmap_cons. destruct (decide (key r = key new)) as [Hk|Hk].
  - rewrite !filter_cons, !decide_False
      by (done || (apply Hold; [left|done])). done.
  - rewrite !filter_cons. destruct (decide (P r)); [by f_equal|done].
Qed.

Lemma NoDup_fmap_filter {A} (key : A → string) (P : A → Prop)
    `{∀ x, Decision (P x)} (l : list A) :
  NoDup (key <$> l) → NoDup (key <$> filter P l).
Proof.
  intros Hnd. eapply sublist_NoDup; [exact Hnd|].
  apply fmap_sublist, sublist_filter.
Qed.

Lemma find_location_view st lid uid :
  find_location st lid uid
  = head (filter (λ l, l_id l = lid) (locations_of st uid)).
Proof. unfold find_location, locations_of. by rewrite list_filter_filter. Qed.

Lemma find_location_named_view st uid name :
  find_location_named st uid name
  = head (filter (λ l, l_name l = name) (locations_of st uid)).
Proof.
  unfold find_location_named, locations_of. rewrite list_filter_filter.
  f_equal. apply filter_ext_in. intros l _. tauto.
Qed.

Lemma find_session_view st sid uid :
  find_session st sid uid
  = head (filter (λ s, s_id s = sid) (sessions_of st uid)).
Proof. unfold find_session, sessions_of. by rewrite list_filter_filter. Qed.

Lemma session_catches_view st uid s :
  s ∈ sessions_of st uid →
  session_catches st s
  = filter (λ c, c_session_id c = s_id s) (owned_catches st uid).
Proof.
  intros Hs. unfold session_catches, owned_catches.
  apply filter_filter_impl. intros c _ Hc. unfold owned.
  apply Exists_exists. by exists s.
Qed.

Lemma wf_location_ids st : wf st → NoDup (l_id <$> locations st).
Proof. by intros ((_ & ? & _) & _). Qed.

Lemma wf_session_ids st : wf st → NoDup (s_id <$> fishing_sessions st).
Proof. by intros ((_ & _ & ? & _) & _). Qed.

Lemma wf_catch_ids st : wf st → NoDup (c_id <$> catches st).
Proof. by intros ((_ & _ & _ & ? & _) & _). Qed.

Lemma wf_user_ids st : wf st → NoDup (u_id <$> users st).
Proof. by intros ((? & _) & _). Qed.

Lemma wf_location_nonempty st l : wf st → l ∈ locations st → l_id l ≠ "".
Proof.
  intros ((_ & _ & _ & _ & H & _) & _). rewrite Forall_forall in H. apply H.
Qed.

Lemma wf_session_nonempty st s : wf st → s ∈ fishing_sessions st → s_id s ≠ "".
Proof.
  intros ((_ & _ & _ & _ & _ & H) & _). rewrite Forall_forall in H. apply H.
Qed.

Lemma wf_catch_session st c :
  wf st → c ∈ catches st →
  ∃ s, s ∈ fishing_sessions st ∧ s_id s = c_session_id c.
Proof.
  intros (_ & (_ & _ & H) & _) Hc. rewrite Forall_forall in H.
  specialize (H c Hc). unfold has_session in H.
  apply bool_decide_eq_true in H.
  apply list_elem_of_fmap in H as (s & ? & ?). by exists s.
Qed.

(** The sessions at a location of the user are sessions of the user. *)
Lemma location_sessions_view st uid l :
  wf st → l ∈ locations_of st uid →
  location_sessions st l = filter (session_at l) (sessions_of st uid).
Proof.
  intros Hwf [Hu Hl]%list_elem_of_filter.
  unfold location_sessions, sessions_of.
  apply (filter_filter_impl (λ s, s_location_id s = l_id l)).
  intros s Hs Hat.
  destruct (wf_session_location _ _ Hwf Hs) as (l' & _ & Hl' & Hid & Hus).
  assert (l' = l) as ->.
  { eapply NoDup_key_inj; [by apply wf_location_ids|done..|congruence]. }
  congruence.
Qed.

(** The location of a session of the user is a location of the user. *)
Lemma location_by_id_view st uid lid l :
  wf st → l ∈ locations_of st uid → l_id l = lid →
  head (filter (λ l, l_id l = lid) (locations st)) = Some l
  ∧ head (filter (λ l, l_id l = lid) (locations_of st uid)) = Some l.
Proof.
  intros Hwf Hl <-.
  pose proof Hl as [Hu Hl']%list_elem_of_filter.
  rewrite (filter_key_NoDup l_id (locations st) l)
    by (by apply wf_location_ids || done).
  rewrite (filter_key_NoDup l_id (locations_of st uid) l); [done| |done].
  unfold locations_of. apply NoDup_fmap_filter. by apply wf_location_ids.
Qed.

(** *** The join of catches and sessions, catch by catch *)

Lemma bind_if_filter {A C} (P : A → Prop) `{∀ x, Decision (P x)}
    (f : A → C) (l : list A) :
  (x ← l; if decide (P x) then [f x] else []) = f <$> filter P l.
Proof.
  induction l as [|x l IH]; [done|].
  rewrite filter_cons, bind_cons, IH. by destruct (decide (P x)).
Qed.

Lemma filter_fmap_pair {A C} (Q : A * C → Prop) `{∀ x, Decision (Q x)}
    (a : A) (l : list C) :
  filter Q ((λ c, (a, c)) <$> l) = (λ c, (a, c)) <$> filter (λ c, Q (a, c)) l.
Proof.
  induction l as [|x l IH]; [done|].
  rewrite fmap_cons, !filter_cons, IH. by destruct (decide (Q (a, x))).
Qed.

Lemma filter_key_cases {A} (key : A → string) (l : list A) k :
  NoDup (key <$> l) →
  filter (λ r, key r = k) l = [] ∨ ∃ x, filter (λ r, key r = k) l = [x].
Proof.
  intros Hnd. destruct (filter (λ r, key r = k) l) as [|x xs] eqn:E;
    [by left|right].
  assert (x ∈ filter (λ r, key r = k) l) as [Hk Hx]%list_elem_of_filter
    by (rewrite E; left).
  subst k. rewrite (filter_key_NoDup key l x) in E by done.
  injection E as <-. by exists x.
Qed.

Lemma owned_iff st uid c :
  owned st uid c
  ↔ filter (λ s, s_id s = c_session_id c) (sessions_of st uid) ≠ [].
Proof.
  unfold owned. rewrite Exists_exists. split.
  - intros (s & Hs & Hid) Hnil.
    assert (s ∈ filter (λ s, s_id s = c_session_id c) (sessions_of st uid))
      as Hin by (by apply list_elem_of_filter).
    rewrite Hnil in Hin. by apply elem_of_nil in Hin.
  - intros Hne. destruct (filter _ _) as [|s ss] eqn:E; [done|].
    assert (s ∈ filter (λ s, s_id s = c_session_id c) (sessions_of st uid))
      as [? ?]%list_elem_of_filter by (rewrite E; left).
    by exists s.
Qed.

Lemma catch_join_rows st uid (cs : list Catch) :
  NoDup (s_id <$> fishing_sessions st) →
  filter (λ r : Catch * FishingSession, s_user_id r.2 = uid)
    (c ← cs; s ← fishing_sessions st;
     if decide (c_session_id c = s_id s) then [(c, s)] else [])
  = omap (λ c, (λ s, (c, s)) <$> session_for (sessions_of st uid) c)
      (filter (owned st uid) cs).
Proof.
  intros Hnd. induction cs as [|c cs IH]; [done|].
  rewrite bind_cons, filter_app, IH. clear IH.
  rewrite (bind_if_filter (λ s, c_session_id c = s_id s) (λ s, (c, s))).
  rewrite filter_fmap_pair.
  match goal with
  | |- context [(λ s, (c, s)) <$> ?X] =>
      assert (X = filter (λ s, s_id s = c_session_id c) (sessions_of st uid))
        as ->
  end.
  { unfold sessions_of. rewrite !list_filter_filter. apply filter_ext_in.
    intros s _. simpl. split; intros [? ?]; split; congruence. }
  rewrite filter_cons.
  destruct (filter_key_cases s_id (sessions_of st uid) (c_session_id c))
    as [E|[s E]].
  { unfold sessions_of. by apply NoDup_fmap_filter. }
  - rewrite decide_False by (rewrite owned_iff, E; auto). by rewrite E.
  - rewrite decide_True by (rewrite owned_iff, E; auto).
    simpl. unfold session_for. by rewrite E.
Qed.

(** On a well-formed store the join lists each catch of the user once,
    with its session. *)
Lemma catch_join_of_view st uid :
  wf st →
  catch_join_of st uid
  = omap (λ c, (λ s, (c, s)) <$> session_for (sessions_of st uid) c)
      (owned_catches st uid).
Proof.
  intros Hwf. apply catch_join_rows. by apply wf_session_ids.
Qed.

Lemma fst_omap_pair {A C} (g : A → option C) (l : list A) :
  (∀ a, a ∈ l → is_Some (g a)) →
  (omap (λ a, (λ c, (a, c)) <$> g a) l).*1 = l.
Proof.
  induction l as [|a l IH]; intros Hg; [done|]. simpl.
  destruct (Hg a) as [c Hc]; [left|]. rewrite Hc. simpl. f_equal.
  apply IH. intros a' Ha'. apply Hg. by right.
Qed.

Lemma owned_session_for st uid c :
  owned st uid c → is_Some (session_for (sessions_of st uid) c).
Proof.
  intros Hc%owned_iff. unfold session_for.
  destruct (filter _ _); [done|by eexists].
Qed.

Lemma catches_of_view st uid :
  wf st → catches_of st uid = owned_catches st uid.
Proof.
  intros Hwf. unfold catches_of. rewrite catch_join_of_view by done.
  apply fst_omap_pair. intros c [Hc _]%list_elem_of_filter.
  by apply owned_session_for.
Qed.

(** *** The outer joins of the location breakdown *)

Lemma outerjoin_cons {A C} (on : A → C → Prop) `{∀ a c, Decision (on a c)}
    (a : A) (left : list A) (right : list C) :
  outerjoin on (a :: left) right
  = match filter (on a) right with
    | [] => [(a, None)]
    | matches => (λ c, (a, Some c)) <$> matches
    end ++ outerjoin on left right.
Proof. unfold outerjoin. by rewrite bind_cons. Qed.

Lemma outerjoin_rows_fst {A C} (on : A → C → Prop)
    `{∀ a c, Decision (on a c)} (a : A) (right : list C) r :
  r ∈ match filter (on a) right with
      | [] => [(a, None)]
      | matches => (λ c, (a, Some c)) <$> matches
      end →
  r.1 = a ∧ ∀ c, r.2 = Some c → c ∈ right ∧ on a c.
Proof.
  destruct (filter (on a) right) as [|c cs] eqn:E.
  - intros ->%list_elem_of_singleton. by split.
  - intros (c' & -> & Hc')%list_elem_of_fmap. split; [done|].
    intros ? [= <-]. rewrite <- E in Hc'.
    apply list_elem_of_filter in Hc' as [? ?]. done.
Qed.

Lemma elem_of_outerjoin {A C} (on : A → C → Prop)
    `{∀ a c, Decision (on a c)} (left : list A) (right : list C) r :
  r ∈ outerjoin on left right →
  r.1 ∈ left ∧ ∀ c, r.2 = Some c → c ∈ right ∧ on r.1 c.
Proof.
  induction left as [|a left IH]; [by intros ?%elem_of_nil|].
  rewrite outerjoin_cons, elem_of_app. intros [Hr|Hr].
  - apply outerjoin_rows_fst in Hr as [Ha Hc]. rewrite Ha.
    split; [left|done].
  - destruct (IH Hr) as [? ?]. split; [by right|done].
Qed.

Lemma outerjoin_filter_left {A C} (on : A → C → Prop)
    `{∀ a c, Decision (on a c)} (P : A → Prop) `{∀ a, Decision (P a)}
    (left : list A) (right : list C) :
  filter (λ r, P r.1) (outerjoin on left right)
  = outerjoin on (filter P left) right.
Proof.
  induction left as [|a left IH]; [done|].
  rewrite outerjoin_cons, filter_app, IH, filter_cons.
  destruct (decide (P a)) as [Ha|Ha].
  - rewrite outerjoin_cons. f_equal. apply filter_all.
    intros r [-> _]%outerjoin_rows_fst. done.
  - rewrite <- (app_nil_l (outerjoin on (filter P left) right)) at 2. f_equal.
    apply filter_none. intros r [Hfst _]%outerjoin_rows_fst. by rewrite Hfst.
Qed.

Lemma outerjoin_ext {A C} (on : A → C → Prop) `{∀ a c, Decision (on a c)}
    (left : list A) (right1 right2 : list C) :
  (∀ a, a ∈ left → filter (on a) right1 = filter (on a) right2) →
  outerjoin on left right1 = outerjoin on left right2.
Proof.
  induction left as [|a left IH]; intros Hext; [done|].
  rewrite !outerjoin_cons, (Hext a) by left. f_equal.
  apply IH. intros a' Ha'. apply Hext. by right.
Qed.

(** The rows the location breakdown aggregates are joined from the rows of
    the caller. *)
Lemma location_rows_view st uid :
  wf st →
  filter (λ r, l_user_id r.1.1 = uid)
    (outerjoin catch_in
       (outerjoin session_at (locations st) (fishing_sessions st))
       (catches st))
  = outerjoin catch_in
      (outerjoin session_at (locations_of st uid) (sessions_of st uid))
      (owned_catches st uid).
Proof.
  intros Hwf.
  pose proof (outerjoin_filter_left catch_in (λ row, l_user_id row.1 = uid)
                (outerjoin session_at (locations st) (fishing_sessions st))
                (catches st)) as E1.
  pose proof (outerjoin_filter_left session_at (λ l, l_user_id l = uid)
                (locations st) (fishing_sessions st)) as E2.
  cbv beta in E1, E2. rewrite E1, E2. clear E1 E2.
  fold (locations_of st uid).
  rewrite (outerjoin_ext session_at (locations_of st uid)
             (fishing_sessions st) (sessions_of st uid)).
  2: { intros l Hl. by apply location_sessions_view. }
  apply outerjoin_ext. intros [l [s|]] Hrow.
  - apply elem_of_outerjoin in Hrow as [_ Hs]. simpl in Hs.
    destruct (Hs s eq_refl) as [Hs' _].
    unfold owned_catches. apply filter_filter_impl.
    intros c _ Hc. unfold catch_in in Hc. simpl in Hc.
    unfold owned. apply Exists_exists. by exists s.
  - unfold owned_catches. apply filter_filter_impl. by intros c _ [].
Qed.

(** *** Two stores with the same rows of a user *)

Lemma fmap_ext_in {A C} (f g : A → C) (l : list A) :
  (∀ x, x ∈ l → f x = g x) → f <$> l = g <$> l.
Proof.
  induction l as [|x l IH]; intros Hfg; [done|].
  rewrite !fmap_cons, Hfg by left. f_equal. apply IH.
  intros y Hy. apply Hfg. by right.
Qed.

Lemma elem_of_take_elem {A} (n : nat) (l : list A) x : x ∈ take n l → x ∈ l.
Proof. intros (i & Hi & _)%elem_of_take. by eapply list_elem_of_lookup_2. Qed.

Lemma elem_of_drop_elem {A} (n : nat) (l : list A) x : x ∈ drop n l → x ∈ l.
Proof.
  intros (i & Hi)%list_elem_of_lookup_1. rewrite lookup_drop in Hi.
  by eapply list_elem_of_lookup_2.
Qed.

Section Agree.
Variables (uid : string) (st1 st2 : store).
Hypothesis Hwf1 : wf st1.
Hypothesis Hwf2 : wf st2.
Hypothesis Hview : view_of st1 uid = view_of st2 uid.

Lemma agree_user : get_user st1 uid = get_user st2 uid.
Proof using Hview. by injection Hview. Qed.

Lemma agree_locations : locations_of st1 uid = locations_of st2 uid.
Proof using Hview. by injection Hview. Qed.

Lemma agree_sessions : sessions_of st1 uid = sessions_of st2 uid.
Proof using Hview. by injection Hview. Qed.

Lemma agree_owned : owned_catches st1 uid = owned_catches st2 uid.
Proof using Hview. by injection Hview. Qed.

Lemma agree_find_location lid :
  find_location st1 lid uid = find_location st2 lid uid.
Proof using Hview. by rewrite !find_location_view, agree_locations. Qed.

Lemma agree_find_location_named name :
  find_location_named st1 uid name = find_location_named st2 uid name.
Proof using Hview. by rewrite !find_location_named_view, agree_locations. Qed.

Lemma agree_find_session sid :
  find_session st1 sid uid = find_session st2 sid uid.
Proof using Hview. by rewrite !find_session_view, agree_sessions. Qed.

Lemma agree_catch_join_of : catch_join_of st1 uid = catch_join_of st2 uid.
Proof using Hview Hwf1 Hwf2.
  by rewrite !catch_join_of_view, agree_sessions, agree_owned.
Qed.

Lemma agree_catches_of : catches_of st1 uid = catches_of st2 uid.
Proof using Hview Hwf1 Hwf2. unfold catches_of. by rewrite agree_catch_join_of. Qed.

Lemma agree_find_catch cid : find_catch st1 cid uid = find_catch st2 cid uid.
Proof using Hview Hwf1 Hwf2. unfold find_catch. by rewrite agree_catches_of. Qed.

Lemma agree_location_by_id lid l :
  l ∈ locations_of st1 uid → l_id l = lid →
  head (filter (λ l, l_id l = lid) (locations st1)) = Some l
  ∧ head (filter (λ l, l_id l = lid) (locations st2)) = Some l.
Proof using Hview Hwf1 Hwf2.
  intros Hl Hid. split.
  - by apply (location_by_id_view st1 uid lid l).
  - apply (location_by_id_view st2 uid lid l); [done| |done].
    by rewrite <- agree_locations.
Qed.

Lemma agree_session_location s :
  s ∈ sessions_of st1 uid → session_location st1 s = session_location st2 s.
Proof using Hview Hwf1 Hwf2.
  intros [Hu Hs]%list_elem_of_filter.
  destruct (wf_session_location _ _ Hwf1 Hs) as (l & _ & Hl & Hid & Hlu).
  assert (l ∈ locations_of st1 uid) as Hin
    by (apply list_elem_of_filter; split; [congruence|done]).
  destruct (agree_location_by_id (s_location_id s) l Hin Hid) as [E1 E2].
  unfold session_location. by rewrite E1, E2.
Qed.

Lemma agree_session_catches s :
  s ∈ sessions_of st1 uid → session_catches st1 s = session_catches st2 s.
Proof using Hview.
  intros Hs. rewrite (session_catches_view st1 uid) by done.
  rewrite (session_catches_view st2 uid) by (by rewrite <- agree_sessions).
  by rewrite agree_owned.
Qed.

Lemma agree_session_to_dict s :
  s ∈ sessions_of st1 uid → session_to_dict st1 s = session_to_dict st2 s.
Proof using Hview Hwf1 Hwf2.
  intros Hs. unfold session_to_dict.
  by rewrite agree_session_location, agree_session_catches.
Qed.

Lemma agree_session_to_dicts (l : list FishingSession) :
  (∀ s, s ∈ l → s ∈ sessions_of st1 uid) →
  session_to_dict st1 <$> l = session_to_dict st2 <$> l.
Proof using Hview Hwf1 Hwf2.
  intros Hl. apply fmap_ext_in. intros s Hs. by apply agree_session_to_dict, Hl.
Qed.

Lemma agree_location_sessions l :
  l ∈ locations_of st1 uid → location_sessions st1 l = location_sessions st2 l.
Proof using Hview Hwf1 Hwf2.
  intros Hl. rewrite (location_sessions_view st1 uid) by done.
  rewrite (location_sessions_view st2 uid) by (by rewrite <- ?agree_locations).
  by rewrite agree_sessions.
Qed.

Lemma agree_location_rows :
  filter (λ r, l_user_id r.1.1 = uid)
    (outerjoin catch_in
       (outerjoin session_at (locations st1) (fishing_sessions st1))
       (catches st1))
  = filter (λ r, l_user_id r.1.1 = uid)
      (outerjoin catch_in
         (outerjoin session_at (locations st2) (fishing_sessions st2))
         (catches st2)).
Proof using Hview Hwf1 Hwf2.
  by rewrite !location_rows_view, agree_locations, agree_sessions, agree_owned.
Qed.

End Agree.

(** *** Two runs of a route, step by step *)

Lemma outcome_rel_bind {A C} (Q : C → C → Prop)
    (m1 m2 : outcome response A) (k1 k2 : A → outcome response C) :
  m1 = m2 →
  (∀ a, m1 = Done a → outcome_rel Q (k1 a) (k2 a)) →
  outcome_rel Q (m1 ≫= k1) (m2 ≫= k2).
Proof. intros <- Hk. destruct m1; simpl; [by apply Hk|done..]. Qed.

Lemma outcome_rel_bind_rel {A C} (Q' : A → A → Prop) (Q : C → C → Prop)
    (m1 m2 : outcome response A) (k1 k2 : A → outcome response C) :
  outcome_rel Q' m1 m2 →
  (∀ a1 a2, m1 = Done a1 → m2 = Done a2 → Q' a1 a2 →
            outcome_rel Q (k1 a1) (k2 a2)) →
  outcome_rel Q (m1 ≫= k1) (m2 ≫= k2).
Proof.
  intros Hm Hk. destruct m1, m2; simpl in *; try done. by apply Hk.
Qed.

Lemma try_except_rel (P : store → store → Prop) h st1 st2 (b1 b2 : route) :
  P st1 st2 → outcome_rel (same_answer P) b1 b2 →
  same_answer P (try_except h st1 b1) (try_except h st2 b2).
Proof.
  intros HP Hb. unfold same_answer.
  destruct b1 as [[]| |e1], b2 as [[]| |e2]; simpl in *; try done.
  subst. destruct h; [case_decide|]; done.
Qed.

(** *** The routes that only read *)

Section Reads.
Variables (current_user : User) (st1 st2 : store).
Hypothesis Hwf1 : wf st1.
Hypothesis Hwf2 : wf st2.
Hypothesis Hview :
  view_of st1 (u_id current_user) = view_of st2 (u_id current_user).


Ltac agree_rw :=
  rewrite ?(agree_find_location (u_id current_user) st1 st2 Hview),
    ?(agree_find_location_named (u_id current_user) st1 st2 Hview),
    ?(agree_find_session (u_id current_user) st1 st2 Hview),
    ?(agree_find_catch (u_id current_user) st1 st2 Hwf1 Hwf2 Hview),
    ?(agree_catch_join_of (u_id current_user) st1 st2 Hwf1 Hwf2 Hview),
    ?(agree_catches_of (u_id current_user) st1 st2 Hwf1 Hwf2 Hview),
    ?(agree_locations (u_id current_user) st1 st2 Hview),
    ?(agree_sessions (u_id current_user) st1 st2 Hview).

Ltac same_step :=
  apply outcome_rel_bind; [agree_rw; reflexivity|intros ? ?].

Ltac read_only :=
  apply try_except_rel; [exact Hview|];
  repeat same_step;
  try (cbv zeta; agree_rw; split; [reflexivity|exact Hview]).

Lemma get_location_agree lid :
  same_answer (same_view (u_id current_user)) (get_location lid current_user st1)
    (get_location lid current_user st2).
Proof using Hview. unfold get_location. read_only. Qed.

Lemma get_locations_agree :
  same_answer (same_view (u_id current_user)) (get_locations current_user st1)
    (get_locations current_user st2).
Proof using Hview. unfold get_locations. split; [simpl|exact Hview]. by agree_rw. Qed.

Lemma get_sessions_agree page per_page lid :
  same_answer (same_view (u_id current_user)) (get_sessions page per_page lid current_user st1)
    (get_sessions page per_page lid current_user st2).
Proof using Hview Hwf1 Hwf2.
  unfold get_sessions. apply try_except_rel; [exact Hview|].
  cbv zeta. agree_rw. split; [|exact Hview]. simpl. do 3 f_equal.
  apply (agree_session_to_dicts (u_id current_user) st1 st2 Hwf1 Hwf2 Hview).
  intros s Hs%elem_of_take_elem%elem_of_drop_elem%elem_of_order_by.
  rewrite (agree_sessions (u_id current_user) st1 st2 Hview).
  destruct (arg_given lid); [by apply list_elem_of_filter in Hs as [_ ?]|done].
Qed.

Lemma get_session_agree sid :
  same_answer (same_view (u_id current_user)) (get_session sid current_user st1)
    (get_session sid current_user st2).
Proof using Hview Hwf1 Hwf2.
  unfold get_session. apply try_except_rel; [exact Hview|].
  apply outcome_rel_bind; [agree_rw; reflexivity|intros s Hs].
  apply or_return_Done in Hs. rewrite find_session_view in Hs.
  apply head_Some_elem_of, list_elem_of_filter in Hs as [_ Hs].
  split; [|exact Hview]. simpl.
  by rewrite (agree_session_to_dict (u_id current_user) st1 st2 Hwf1 Hwf2 Hview),
    (agree_session_catches (u_id current_user) st1 st2 Hview).
Qed.

Lemma get_catches_agree page per_page sid sp rel :
  same_answer (same_view (u_id current_user)) (get_catches page per_page sid sp rel current_user st1)
    (get_catches page per_page sid sp rel current_user st2).
Proof using Hview Hwf1 Hwf2. unfold get_catches. read_only. Qed.

Lemma get_catch_agree cid :
  same_answer (same_view (u_id current_user)) (get_catch cid current_user st1)
    (get_catch cid current_user st2).
Proof using Hview Hwf1 Hwf2. unfold get_catch. read_only. Qed.

Lemma get_catches_by_session_agree sid :
  same_answer (same_view (u_id current_user)) (get_catches_by_session sid current_user st1)
    (get_catches_by_session sid current_user st2).
Proof using Hview Hwf1 Hwf2.
  unfold get_catches_by_session. apply try_except_rel; [exact Hview|].
  apply outcome_rel_bind; [agree_rw; reflexivity|intros s Hs].
  apply or_return_Done in Hs. rewrite find_session_view in Hs.
  apply head_Some_elem_of, list_elem_of_filter in Hs as [Hid Hs].
  cbv zeta.
  apply outcome_rel_bind.
  { by rewrite (agree_session_location (u_id current_user) st1 st2 Hwf1 Hwf2 Hview). }
  intros l _. split; [|exact Hview]. simpl. f_equal. f_equal.
  pose proof (agree_session_catches (u_id current_user) st1 st2 Hview s Hs) as E.
  unfold session_catches in E. rewrite Hid in E. by rewrite E.
Qed.

Lemma get_overview_stats_agree :
  same_answer (same_view (u_id current_user)) (get_overview_stats current_user st1)
    (get_overview_stats current_user st2).
Proof using Hview Hwf1 Hwf2.
  unfold get_overview_stats. apply try_except_rel; [exact Hview|].
  cbv zeta. agree_rw.
  apply outcome_rel_bind.
  { destruct (head _) as [s|] eqn:E; [|done].
    apply head_Some_elem_of, elem_of_order_by in E.
    rewrite <- (agree_sessions (u_id current_user) st1 st2 Hview) in E.
    by rewrite (agree_session_location (u_id current_user) st1 st2 Hwf1 Hwf2 Hview). }
  intros name _. split; [reflexivity|exact Hview].
Qed.

Lemma get_species_stats_agree lim :
  same_answer (same_view (u_id current_user)) (get_species_stats lim current_user st1)
    (get_species_stats lim current_user st2).
Proof using Hview Hwf1 Hwf2. unfold get_species_stats. read_only. Qed.

Lemma get_location_stats_agree :
  same_answer (same_view (u_id current_user)) (get_location_stats current_user st1)
    (get_location_stats current_user st2).
Proof using Hview Hwf1 Hwf2.
  rewrite !get_location_stats_raises. split; [reflexivity|exact Hview].
Qed.

Lemma get_bait_stats_agree lim :
  same_answer (same_view (u_id current_user)) (get_bait_stats lim current_user st1)
    (get_bait_stats lim current_user st2).
Proof using Hview Hwf1 Hwf2. unfold get_bait_stats. read_only. Qed.

Lemma get_monthly_stats_agree cx :
  same_answer (same_view (u_id current_user)) (get_monthly_stats cx current_user st1)
    (get_monthly_stats cx current_user st2).
Proof using Hview Hwf1 Hwf2.
  unfold get_monthly_stats, monthly_sessions, monthly_catches. read_only.
Qed.

Lemma get_recent_activity_agree lim :
  same_answer (same_view (u_id current_user)) (get_recent_activity lim current_user st1)
    (get_recent_activity lim current_user st2).
Proof using Hview Hwf1 Hwf2.
  unfold get_recent_activity. apply try_except_rel; [exact Hview|].
  cbv zeta.
  apply outcome_rel_bind; [agree_rw; reflexivity|intros ss Hss].
  apply outcome_rel_bind; [agree_rw; reflexivity|intros cs _].
  split; [|exact Hview]. simpl. f_equal. f_equal.
  apply (agree_session_to_dicts (u_id current_user) st1 st2 Hwf1 Hwf2 Hview).
  intros s Hs. unfold limit in Hss. destruct (_ <? 0); [done|].
  injection Hss as <-.
  by apply elem_of_take_elem, elem_of_order_by in Hs.
Qed.

End Reads.

(** *** The writers, seen from one user *)

Lemma stamp_if_changed_key {A K} `{EqDecision A} (key : A → K)
    (touched : bool) (stamp : A → A) (old new : A) :
  (∀ x, key (stamp x) = key x) →
  key (stamp_if_changed touched stamp old new) = key new.
Proof.
  intros Hk. unfold stamp_if_changed. destruct touched; [apply Hk|].
  case_decide; [by subst|apply Hk].
Qed.

Lemma head_replace_row {A} (key : A → string) (new : A) (l : list A) :
  head (replace_row key new l)
  = (λ r, if decide (key r = key new) then new else r) <$> head l.
Proof. by destruct l. Qed.

Lemma replace_row_keys {A} (key : A → string) (new : A) (l : list A) :
  key <$> replace_row key new l = key <$> l.
Proof.
  unfold replace_row. rewrite <- list_fmap_compose. apply fmap_ext_in.
  intros x _. simpl. by case_decide.
Qed.

Lemma Exists_key {A} (key : A → string) (l : list A) k :
  Exists (λ r, key r = k) l ↔ k ∈ key <$> l.
Proof.
  rewrite Exists_exists, list_elem_of_fmap. split.
  - intros (x & ? & ?). by exists x.
  - intros (x & ? & ?). by exists x.
Qed.

Lemma Exists_key_replace_row {A} (key : A → string) (new : A) (l : list A) k :
  Exists (λ r, key r = k) (replace_row key new l)
  ↔ Exists (λ r, key r = k) l.
Proof. by rewrite !Exists_key, replace_row_keys. Qed.

Lemma filter_replace_row_old {A} (key : A → string) (P : A → Prop)
    `{∀ x, Decision (P x)} (old new : A) (l : list A) :
  NoDup (key <$> l) → old ∈ l → key new = key old → P old → P new →
  filter P (replace_row key new l) = replace_row key new (filter P l).
Proof.
  intros Hnd Hold Hk Ho Hn. apply filter_replace_row_in; [done|].
  intros r Hr Hkr. by rewrite (NoDup_key_inj key l r old) by congruence.
Qed.

Lemma filter_replace_row_not_old {A} (key : A → string) (P : A → Prop)
    `{∀ x, Decision (P x)} (old new : A) (l : list A) :
  NoDup (key <$> l) → old ∈ l → key new = key old → ¬ P old → ¬ P new →
  filter P (replace_row key new l) = filter P l.
Proof.
  intros Hnd Hold Hk Ho Hn. apply filter_replace_row_out; [done|].
  intros r Hr Hkr. by rewrite (NoDup_key_inj key l r old) by congruence.
Qed.

Lemma owned_exclusive st uid other c :
  wf st → owned st uid c → owned st other c → uid = other.
Proof.
  intros Hwf (s & [Hu Hs]%list_elem_of_filter & Hid)%Exists_exists
    (s' & [Hu' Hs']%list_elem_of_filter & Hid')%Exists_exists.
  assert (s = s') as <-; [|congruence].
  apply (NoDup_key_inj s_id (fishing_sessions st));
    [by apply wf_session_ids|done..|congruence].
Qed.

Lemma has_location_empty st : wf st → has_location st "" = false.
Proof.
  intros Hwf. apply bool_decide_eq_false. intros (l & Hid & Hl)%list_elem_of_fmap.
  by apply (wf_location_nonempty st l).
Qed.

Lemma has_session_empty st : wf st → has_session st "" = false.
Proof.
  intros Hwf. apply bool_decide_eq_false. intros (s & Hid & Hs)%list_elem_of_fmap.
  by apply (wf_session_nonempty st s).
Qed.

Lemma has_location_owned st uid lid :
  lid ∈ l_id <$> locations_of st uid → has_location st lid = true.
Proof.
  intros (l & -> & [_ Hl]%list_elem_of_filter)%list_elem_of_fmap.
  apply bool_decide_eq_true. by apply list_elem_of_fmap_2.
Qed.

Lemma has_session_owned st uid sid :
  sid ∈ s_id <$> sessions_of st uid → has_session st sid = true.
Proof.
  intros (s & -> & [_ Hs]%list_elem_of_filter)%list_elem_of_fmap.
  apply bool_decide_eq_true. by apply list_elem_of_fmap_2.
Qed.

(** A parent key of an update that went through: it is empty, or the old
    one, or one the route has looked up. *)
Lemma checked_key {A} (data : payload) k (old_key new_key : string)
    (find : string → option A) (r : response) :
  (if truthy (get data k) && json_ne_str (get data k) old_key
   then x ← to_text_nn (get data k); _ ← or_return (find x) r; Done ()
   else Done ()) = Done () →
  match data !! k with
  | Some v => bind_key v
  | None => Done old_key
  end = Done (R := response) new_key →
  new_key = "" ∨ new_key = old_key ∨ is_Some (find new_key).
Proof.
  unfold get. destruct (data !! k) as [v|]; simpl.
  - intros Hcheck Hv.
    assert (v = JStr new_key) as ->.
    { destruct v; simpl in Hv; try discriminate. by injection Hv as ->. }
    simpl in Hcheck.
    destruct (String.eqb_spec new_key ""); [by left|].
    destruct (String.eqb_spec new_key old_key); [by right; left|].
    simpl in Hcheck. destruct (find new_key); [by right; right|done].
  - intros _ [= ->]. by right; left.
Qed.

(** The rows of a user after a row was deleted. *)
Lemma sessions_of_delete_session st uid s :
  sessions_of (delete_session_row st s) uid
  = filter (λ s', s_id s' ≠ s_id s) (sessions_of st uid).
Proof. unfold sessions_of, delete_session_row. simpl. apply filter_comm. Qed.

Lemma owned_catches_delete_session st uid s :
  owned_catches (delete_session_row st s) uid
  = filter (λ c, c_session_id c ≠ s_id s) (owned_catches st uid).
Proof.
  unfold owned_catches. rewrite (filter_comm _ (owned st uid)).
  unfold delete_session_row at 2. simpl.
  apply filter_ext_in. intros c [Hc _]%list_elem_of_filter.
  unfold owned. rewrite sessions_of_delete_session, !Exists_exists. split.
  - intros (s' & [_ Hs']%list_elem_of_filter & Hid). by exists s'.
  - intros (s' & Hs' & Hid). exists s'. split; [|done].
    apply list_elem_of_filter. split; [congruence|done].
Qed.

Lemma owned_catches_delete_catch st uid c :
  owned_catches (delete_catch_row st c) uid
  = filter (λ c', c_id c' ≠ c_id c) (owned_catches st uid).
Proof.
  unfold owned_catches. rewrite (filter_comm _ (owned st uid)). done.
Qed.

Lemma delete_location_row_empty st l :
  location_sessions st l = [] →
  delete_location_row st l
  = set_locations st (filter (λ l', l_id l' ≠ l_id l) (locations st)).
Proof. unfold delete_location_row. by intros ->. Qed.

Lemma locations_of_delete_location st uid l :
  locations_of
    (set_locations st (filter (λ l', l_id l' ≠ l_id l) (locations st))) uid
  = filter (λ l', l_id l' ≠ l_id l) (locations_of st uid).
Proof. unfold locations_of. simpl. apply filter_comm. Qed.

Lemma owned_catches_set_sessions st uid (ss : list FishingSession) :
  (∀ k, Exists (λ s, s_id s = k) (sessions_of (set_sessions st ss) uid)
        ↔ Exists (λ s, s_id s = k) (sessions_of st uid)) →
  owned_catches (set_sessions st ss) uid = owned_catches st uid.
Proof.
  intros H. unfold owned_catches. simpl. apply filter_ext_in.
  intros c _. apply H.
Qed.

Section WriteAgree.
Variables (uid : string) (st1 st2 : store).
Hypothesis Hwf1 : wf st1.
Hypothesis Hwf2 : wf st2.
Hypothesis Hview : view_of st1 uid = view_of st2 uid.

Lemma update_user_agree cx old new :
  u_id new = uid →
  same_view uid (update_user cx st1 old new) (update_user cx st2 old new).
Proof using Hview.
  intros Hn. unfold same_view, view_of in *.
  injection Hview as Hu Hl Hs Hc. f_equal; try done.
  unfold update_user, get_user in *.
  set (stored := stamp_if_changed _ _ old new). simpl.
  assert (u_id stored = uid) as Hk.
  { unfold stored. by rewrite (stamp_if_changed_key u_id). }
  rewrite !(filter_replace_row_in u_id (λ u, u_id u = uid))
    by (done || (intros; congruence)).
  by rewrite !head_replace_row, Hu.
Qed.

Lemma update_location_row_agree cx touched old new :
  old ∈ locations_of st1 uid → l_id new = l_id old →
  l_user_id new = l_user_id old →
  outcome_rel (same_view uid) (update_location_row cx st1 touched old new)
    (update_location_row cx st2 touched old new).
Proof using Hview Hwf1 Hwf2.
  intros Hold Hid Hown. simpl. unfold same_view, view_of in *.
  injection Hview as Hu Hl Hs Hc. f_equal; try done.
  assert (old ∈ locations_of st2 uid) as Hold2 by by rewrite <- Hl.
  set (stored := stamp_if_changed _ _ old new).
  assert (l_id stored = l_id old) as Hk.
  { unfold stored. by rewrite (stamp_if_changed_key l_id). }
  assert (l_user_id stored = uid) as Hku.
  { unfold stored. rewrite (stamp_if_changed_key l_user_id), Hown by done.
    by apply list_elem_of_filter in Hold as [? _]. }
  apply list_elem_of_filter in Hold as [Ho ?].
  apply list_elem_of_filter in Hold2 as [_ ?].
  unfold locations_of in *. simpl.
  rewrite !(filter_replace_row_old l_id (λ l, l_user_id l = uid) old)
    by (done || by apply wf_location_ids).
  by rewrite Hl.
Qed.

Lemma delete_location_row_agree l :
  l ∈ locations_of st1 uid → location_sessions st1 l = [] →
  same_view uid (delete_location_row st1 l) (delete_location_row st2 l).
Proof using Hview Hwf1 Hwf2.
  intros Hl Hnone.
  rewrite !delete_location_row_empty
    by (done || by rewrite <- (agree_location_sessions uid st1 st2 Hwf1 Hwf2 Hview)).
  unfold same_view, view_of in *.
  injection Hview as Hu Hls Hs Hc. f_equal; try done.
  by rewrite !locations_of_delete_location, Hls.
Qed.

Lemma update_session_row_agree cx touched old new :
  old ∈ sessions_of st1 uid → s_id new = s_id old →
  s_user_id new = s_user_id old →
  (s_location_id new = "" ∨ s_location_id new ∈ l_id <$> locations_of st1 uid) →
  outcome_rel
    (λ s1 s2,
       same_view uid s1 s2
       ∧ session_to_dict s1 (stamp_if_changed touched (stamp_session (now cx)) old new)
         = session_to_dict s2 (stamp_if_changed touched (stamp_session (now cx)) old new))
    (update_session_row cx st1 touched old new) (update_session_row cx st2 touched old new).
Proof using Hview Hwf1 Hwf2.
  intros Hold Hid Hown Hloc. unfold update_session_row.
  pose proof (agree_locations uid st1 st2 Hview) as Hl.
  pose proof (agree_sessions uid st1 st2 Hview) as Hs.
  assert (old ∈ sessions_of st2 uid) as Hold2 by by rewrite <- Hs.
  set (stored := stamp_if_changed _ _ old new).
  assert (s_id stored = s_id old) as Hk.
  { unfold stored. by rewrite (stamp_if_changed_key s_id). }
  assert (s_location_id stored = s_location_id new) as Hkl.
  { unfold stored. by rewrite (stamp_if_changed_key s_location_id). }
  assert (s_user_id stored = uid) as Hku.
  { unfold stored. rewrite (stamp_if_changed_key s_user_id), Hown by done.
    by apply list_elem_of_filter in Hold as [? _]. }
  assert (∀ st, wf st → old ∈ sessions_of st uid →
            sessions_of
              (set_sessions st (replace_row s_id stored (fishing_sessions st)))
              uid
            = replace_row s_id stored (sessions_of st uid)) as Hss.
  { intros st Hwf [Ho ?]%list_elem_of_filter. unfold sessions_of. simpl.
    by rewrite (filter_replace_row_old s_id (λ s, s_user_id s = uid) old)
      by (done || by apply wf_session_ids). }
  destruct Hloc as [Hloc|Hloc].
  { rewrite Hloc, !has_location_empty by done. done. }
  rewrite !(has_location_owned _ uid) by (by rewrite <- ?Hl). simpl.
  split.
  - unfold same_view, view_of in *.
    injection Hview as Hu _ _ Hc. f_equal; try done.
    + by rewrite !Hss, Hs by done.
    + rewrite !owned_catches_set_sessions; [done|..]; intros k;
        rewrite Hss by done; apply Exists_key_replace_row.
  - unfold session_to_dict. f_equal.
    + apply list_elem_of_fmap in Hloc as (l & Hlid & Hlin).
      destruct (agree_location_by_id uid st1 st2 Hwf1 Hwf2 Hview
                  (s_location_id new) l) as [E1 E2]; [done..|].
      unfold session_location. simpl. rewrite Hkl. by rewrite E1, E2.
    + pose proof (agree_session_catches uid st1 st2 Hview old Hold) as E.
      unfold session_catches in *. simpl. rewrite Hk. by rewrite E.
Qed.

Lemma delete_session_row_agree s :
  same_view uid (delete_session_row st1 s) (delete_session_row st2 s).
Proof using Hview.
  unfold same_view, view_of in *. injection Hview as Hu Hl Hs Hc.
  f_equal; try done.
  - by rewrite !sessions_of_delete_session, Hs.
  - by rewrite !owned_catches_delete_session, Hc.
Qed.

Lemma update_catch_row_agree cx touched old new :
  old ∈ owned_catches st1 uid → c_id new = c_id old →
  (c_session_id new = "" ∨ c_session_id new ∈ s_id <$> sessions_of st1 uid) →
  outcome_rel (same_view uid) (update_catch_row cx st1 touched old new)
    (update_catch_row cx st2 touched old new).
Proof using Hview Hwf1 Hwf2.
  intros Hold Hid Hses. unfold update_catch_row.
  pose proof (agree_sessions uid st1 st2 Hview) as Hs.
  pose proof (agree_owned uid st1 st2 Hview) as Hc.
  assert (old ∈ owned_catches st2 uid) as Hold2 by by rewrite <- Hc.
  set (stored := stamp_if_changed _ _ old new).
  assert (c_id stored = c_id old) as Hk.
  { unfold stored. by rewrite (stamp_if_changed_key c_id). }
  assert (c_session_id stored = c_session_id new) as Hks.
  { unfold stored. by rewrite (stamp_if_changed_key c_session_id). }
  destruct Hses as [Hses|Hses].
  { rewrite Hses, !has_session_empty by done. done. }
  rewrite !(has_session_owned _ uid) by (by rewrite <- ?Hs). simpl.
  assert (∀ st, wf st → old ∈ owned_catches st uid →
            c_session_id new ∈ s_id <$> sessions_of st uid →
            owned_catches
              (set_catches st (replace_row c_id stored (catches st))) uid
            = replace_row c_id stored (owned_catches st uid)) as Hcs.
  { intros st Hwf [Ho ?]%list_elem_of_filter Hin. unfold owned_catches. simpl.
    apply (filter_replace_row_old c_id (owned st uid) old);
      [by apply wf_catch_ids|done..|].
    unfold owned. rewrite Hks. by apply Exists_key. }
  unfold same_view, view_of in *.
  injection Hview as Hu Hl _ _. f_equal; try done.
  rewrite !Hcs by (done || by rewrite <- ?Hs). by rewrite Hc.
Qed.

Lemma delete_catch_row_agree c :
  same_view uid (delete_catch_row st1 c) (delete_catch_row st2 c).
Proof using Hview.
  unfold same_view, view_of in *. injection Hview as Hu Hl Hs Hc.
  f_equal; try done.
  by rewrite !owned_catches_delete_catch, Hc.
Qed.

End WriteAgree.

Lemma find_session_owned st sid uid s :
  find_session st sid uid = Some s → s ∈ sessions_of st uid ∧ s_id s = sid.
Proof.
  intros (? & ? & ?)%find_session_Some. split; [|done].
  by apply list_elem_of_filter.
Qed.

Lemma find_location_owned st lid uid l :
  find_location st lid uid = Some l → l ∈ locations_of st uid ∧ l_id l = lid.
Proof.
  intros (? & ? & ?)%find_location_Some. split; [|done].
  by apply list_elem_of_filter.
Qed.

Lemma find_catch_owned st cid uid c :
  wf st → find_catch st cid uid = Some c →
  c ∈ owned_catches st uid ∧ c_id c = cid.
Proof.
  intros Hwf. unfold find_catch. rewrite catches_of_view by done.
  intros [? ?]%head_Some_elem_of%list_elem_of_filter. done.
Qed.

Lemma session_location_owned st uid s :
  wf st → s ∈ sessions_of st uid →
  s_location_id s ∈ l_id <$> locations_of st uid.
Proof.
  intros Hwf [Hu Hs]%list_elem_of_filter.
  destruct (wf_session_location st s Hwf Hs) as (l & _ & Hl & Hid & Hown).
  apply list_elem_of_fmap. exists l. split; [done|].
  apply list_elem_of_filter. split; [congruence|done].
Qed.

Lemma catch_session_owned st uid c :
  c ∈ owned_catches st uid → c_session_id c ∈ s_id <$> sessions_of st uid.
Proof. intros [Ho _]%list_elem_of_filter. by apply Exists_key. Qed.

(** The location an update of a session writes, when the route let it
    through: none, or one of the caller's. *)
Lemma location_key_ok st uid s (data : payload) r new_key :
  wf st → s ∈ sessions_of st uid →
  (if truthy (get data "location_id")
      && json_ne_str (get data "location_id") (s_location_id s)
   then
     location_id ← to_text_nn (get data "location_id");
     _ ← or_return (find_location st location_id uid) r;
     Done ()
   else Done ()) = Done () →
  match data !! "location_id" with
  | Some v => bind_key v
  | None => Done (s_location_id s)
  end = Done (R := response) new_key →
  new_key = "" ∨ new_key ∈ l_id <$> locations_of st uid.
Proof.
  intros Hwf Hs Hcheck Hkey.
  destruct (checked_key data "location_id" (s_location_id s) new_key
              (λ x, find_location st x uid) r Hcheck Hkey)
    as [->| [->|[l Hl]]]; [by left|right..].
  - by apply session_location_owned.
  - apply find_location_owned in Hl as [? <-]. by apply list_elem_of_fmap_2.
Qed.

(** The same for the session an update of a catch writes. *)
Lemma session_key_ok st uid c (data : payload) r new_key :
  c ∈ owned_catches st uid →
  (if truthy (get data "session_id")
      && json_ne_str (get data "session_id") (c_session_id c)
   then
     session_id ← to_text_nn (get data "session_id");
     _ ← or_return (find_session st session_id uid) r;
     Done ()
   else Done ()) = Done () →
  match data !! "session_id" with
  | Some v => bind_key v
  | None => Done (c_session_id c)
  end = Done (R := response) new_key →
  new_key = "" ∨ new_key ∈ s_id <$> sessions_of st uid.
Proof.
  intros Hc Hcheck Hkey.
  destruct (checked_key data "session_id" (c_session_id c) new_key
              (λ x, find_session st x uid) r Hcheck Hkey)
    as [->| [->|[s Hs]]]; [by left|right..].
  - by apply catch_session_owned.
  - apply find_session_owned in Hs as [? <-]. by apply list_elem_of_fmap_2.
Qed.

(** *** The routes that write *)

Section Writes.
Variables (current_user : User) (st1 st2 : store).
Hypothesis Hwf1 : wf st1.
Hypothesis Hwf2 : wf st2.
Hypothesis Hview :
  view_of st1 (u_id current_user) = view_of st2 (u_id current_user).

Ltac agree_rw :=
  rewrite ?(agree_find_location (u_id current_user) st1 st2 Hview),
    ?(agree_find_location_named (u_id current_user) st1 st2 Hview),
    ?(agree_find_session (u_id current_user) st1 st2 Hview),
    ?(agree_find_catch (u_id current_user) st1 st2 Hwf1 Hwf2 Hview).

Ltac same_step :=
  cbv beta zeta; apply outcome_rel_bind; [agree_rw; reflexivity|intros ? ?].

Ltac same_check :=
  apply outcome_rel_bind;
  [destruct (truthy _ && _); [|reflexivity];
   destruct (to_text_nn _); simpl; [agree_rw; reflexivity|reflexivity..]
  |intros [] ?].

Lemma change_password_agree cx data :
  same_answer (same_view (u_id current_user))
    (change_password cx data current_user st1)
    (change_password cx data current_user st2).
Proof using Hview.
  unfold change_password. apply try_except_rel; [exact Hview|].
  repeat same_step. cbv zeta. split; [reflexivity|].
  by apply update_user_agree.
Qed.

Lemma update_location_agree cx lid data :
  same_answer (same_view (u_id current_user))
    (update_location cx lid data current_user st1)
    (update_location cx lid data current_user st2).
Proof using Hview Hwf1 Hwf2.
  unfold update_location. apply try_except_rel; [exact Hview|].
  apply outcome_rel_bind; [agree_rw; reflexivity|intros location Hl].
  apply or_return_Done, find_location_owned in Hl as [Hl _].
  same_check. do 4 same_step. cbv zeta.
  eapply outcome_rel_bind_rel; [by apply update_location_row_agree|].
  intros st1' st2' _ _ Hv. split; [reflexivity|exact Hv].
Qed.

Lemma delete_location_agree lid :
  same_answer (same_view (u_id current_user))
    (delete_location lid current_user st1)
    (delete_location lid current_user st2).
Proof using Hview Hwf1 Hwf2.
  unfold delete_location. apply try_except_rel; [exact Hview|].
  apply outcome_rel_bind; [agree_rw; reflexivity|intros location Hl].
  apply or_return_Done, find_location_owned in Hl as [Hl _].
  apply outcome_rel_bind.
  { by rewrite (agree_location_sessions (u_id current_user) st1 st2
                  Hwf1 Hwf2 Hview). }
  intros [] Hnone%return_if_Done%bool_decide_eq_false.
  split; [reflexivity|]. apply delete_location_row_agree; try done.
  by destruct (location_sessions st1 location); [|destruct Hnone].
Qed.

Lemma update_session_agree cx sid data :
  same_answer (same_view (u_id current_user))
    (update_session cx sid data current_user st1)
    (update_session cx sid data current_user st2).
Proof using Hview Hwf1 Hwf2.
  unfold update_session. apply try_except_rel; [exact Hview|].
  apply outcome_rel_bind; [agree_rw; reflexivity|intros session Hs].
  apply or_return_Done, find_session_owned in Hs as [Hs _].
  same_check. do 5 same_step.
  apply outcome_rel_bind; [reflexivity|intros location_id Hkey].
  do 2 same_step. cbv zeta.
  eapply outcome_rel_bind_rel.
  { apply update_session_row_agree; try done. simpl.
    by eapply location_key_ok. }
  intros st1' st2' _ _ [Hv Hd]. split; [|exact Hv]. simpl. by rewrite Hd.
Qed.

Lemma delete_session_agree sid :
  same_answer (same_view (u_id current_user))
    (delete_session sid current_user st1)
    (delete_session sid current_user st2).
Proof using Hview Hwf1 Hwf2.
  unfold delete_session. apply try_except_rel; [exact Hview|].
  apply outcome_rel_bind; [agree_rw; reflexivity|intros session Hs].
  apply or_return_Done, find_session_owned in Hs as [Hs _].
  apply outcome_rel_bind.
  { by rewrite (agree_session_location (u_id current_user) st1 st2
                  Hwf1 Hwf2 Hview). }
  intros location _. split; [reflexivity|].
  by apply delete_session_row_agree.
Qed.

Lemma update_catch_agree cx cid data :
  same_answer (same_view (u_id current_user))
    (update_catch cx cid data current_user st1)
    (update_catch cx cid data current_user st2).
Proof using Hview Hwf1 Hwf2.
  unfold update_catch. apply try_except_rel; [exact Hview|].
  apply outcome_rel_bind; [agree_rw; reflexivity|intros catch Hc].
  apply or_return_Done, find_catch_owned in Hc as [Hc _]; [|done].
  same_check. do 2 same_step. cbv zeta.
  apply outcome_rel_bind; [reflexivity|intros session_id Hkey].
  do 3 same_step. cbv zeta.
  eapply outcome_rel_bind_rel.
  { apply update_catch_row_agree; try done. simpl.
    by eapply session_key_ok. }
  intros st1' st2' _ _ Hv. split; [reflexivity|exact Hv].
Qed.

Lemma delete_catch_agree cid :
  same_answer (same_view (u_id current_user))
    (delete_catch cid current_user st1)
    (delete_catch cid current_user st2).
Proof using Hview Hwf1 Hwf2.
  unfold delete_catch. apply try_except_rel; [exact Hview|].
  apply outcome_rel_bind; [agree_rw; reflexivity|intros catch Hc].
  cbv zeta. split; [reflexivity|]. by apply delete_catch_row_agree.
Qed.

End Writes.

(** *** What a write leaves alone: the rows of everybody else *)

Section Frame.
Variables (uid other : string) (st : store).
Hypothesis Hwf : wf st.
Hypothesis Hother : other ≠ uid.

Lemma update_user_frame cx old new :
  u_id new = uid →
  view_of (update_user cx st old new) other = view_of st other.
Proof using Hother.
  intros Hn. unfold view_of. f_equal; try done.
  unfold update_user, get_user.
  set (stored := stamp_if_changed _ _ old new). simpl.
  assert (u_id stored = uid) as Hk.
  { unfold stored. by rewrite (stamp_if_changed_key u_id). }
  by rewrite (filter_replace_row_out u_id (λ u, u_id u = other))
    by (intros; congruence).
Qed.

Lemma update_location_row_frame cx touched old new st' :
  old ∈ locations_of st uid → l_id new = l_id old →
  l_user_id new = l_user_id old →
  update_location_row (R := response) cx st touched old new = Done st' →
  view_of st' other = view_of st other.
Proof using Hwf Hother.
  intros [Ho Hold]%list_elem_of_filter Hid Hown H.
  unfold update_location_row in H. injection H as <-.
  unfold view_of. f_equal; try done.
  unfold locations_of. simpl.
  apply (filter_replace_row_not_old l_id (λ l, l_user_id l = other) old);
    [by apply wf_location_ids|done| |congruence|].
  - by rewrite (stamp_if_changed_key l_id).
  - rewrite (stamp_if_changed_key l_user_id) by done. congruence.
Qed.

Lemma delete_location_row_frame l :
  l ∈ locations_of st uid → location_sessions st l = [] →
  view_of (delete_location_row st l) other = view_of st other.
Proof using Hwf Hother.
  intros [Ho Hl]%list_elem_of_filter Hnone.
  rewrite delete_location_row_empty by done.
  unfold view_of. f_equal; try done.
  rewrite locations_of_delete_location. apply filter_all.
  intros l' [Ho' Hl']%list_elem_of_filter Heq.
  assert (l' = l) as ->; [|congruence].
  by apply (NoDup_key_inj l_id (locations st)); [apply wf_location_ids|..].
Qed.

Lemma update_session_row_frame cx touched old new st' :
  old ∈ sessions_of st uid → s_id new = s_id old →
  s_user_id new = s_user_id old →
  update_session_row (R := response) cx st touched old new = Done st' →
  view_of st' other = view_of st other.
Proof using Hwf Hother.
  intros [Ho Hold]%list_elem_of_filter Hid Hown
    (_ & ->)%update_session_row_Done.
  set (stored := stamp_if_changed _ _ old new).
  assert (sessions_of
            (set_sessions st (replace_row s_id stored (fishing_sessions st)))
            other
          = sessions_of st other) as Hss.
  { unfold sessions_of. simpl.
    apply (filter_replace_row_not_old s_id (λ s, s_user_id s = other) old);
      [by apply wf_session_ids|done| |congruence|].
    - unfold stored. by rewrite (stamp_if_changed_key s_id).
    - unfold stored. rewrite (stamp_if_changed_key s_user_id) by done.
      congruence. }
  unfold view_of. f_equal; try done.
  apply owned_catches_set_sessions. intros k. by rewrite Hss.
Qed.

Lemma delete_session_row_frame s :
  s ∈ sessions_of st uid →
  view_of (delete_session_row st s) other = view_of st other.
Proof using Hwf Hother.
  intros Hin. pose proof Hin as [Ho Hs]%list_elem_of_filter.
  unfold view_of. f_equal; try done.
  - rewrite sessions_of_delete_session. apply filter_all.
    intros s' [Ho' Hs']%list_elem_of_filter Heq.
    assert (s' = s) as ->; [|congruence].
    by apply (NoDup_key_inj s_id (fishing_sessions st));
      [apply wf_session_ids|..].
  - rewrite owned_catches_delete_session. apply filter_all.
    intros c [Hc _]%list_elem_of_filter Heq. apply Hother.
    apply (owned_exclusive st other uid c); [done..|].
    apply Exists_exists. by exists s.
Qed.

Lemma update_catch_row_frame cx touched old new st' :
  old ∈ owned_catches st uid → c_id new = c_id old →
  (c_session_id new = "" ∨ c_session_id new ∈ s_id <$> sessions_of st uid) →
  update_catch_row (R := response) cx st touched old new = Done st' →
  view_of st' other = view_of st other.
Proof using Hwf Hother.
  intros [Ho Hold]%list_elem_of_filter Hid Hses
    (Hhas & ->)%update_catch_row_Done.
  destruct Hses as [Hses|Hses].
  { by rewrite Hses, has_session_empty in Hhas. }
  unfold view_of. f_equal; try done.
  unfold owned_catches. simpl.
  apply (filter_replace_row_not_old c_id (owned st other) old);
    [by apply wf_catch_ids|done| | |].
  - by rewrite (stamp_if_changed_key c_id).
  - intros Ho'. apply Hother. by apply (owned_exclusive st other uid old).
  - intros Ho'. apply Hother.
    apply (owned_exclusive st other uid
             (stamp_if_changed touched (stamp_catch (now cx)) old new)); [done..|].
    unfold owned. rewrite (stamp_if_changed_key c_session_id) by done.
    by apply Exists_key.
Qed.

Lemma delete_catch_row_frame c :
  c ∈ owned_catches st uid →
  view_of (delete_catch_row st c) other = view_of st other.
Proof using Hwf Hother.
  intros [Ho Hc]%list_elem_of_filter.
  unfold view_of. f_equal; try done.
  rewrite owned_catches_delete_catch. apply filter_all.
  intros c' [Ho' Hc']%list_elem_of_filter Heq.
  assert (c' = c) as ->.
  { by apply (NoDup_key_inj c_id (catches st)); [apply wf_catch_ids|..]. }
  apply Hother. by apply (owned_exclusive st other uid c).
Qed.

End Frame.

(** ** The stores the API produces are well formed *)

Lemma NoDup_fmap_snoc {A} (key : A → string) (l : list A) x :
  NoDup (key <$> l) → key x ∉ key <$> l → NoDup (key <$> (l ++ [x])).
Proof.
  intros Hnd Hx. rewrite fmap_app. apply NoDup_app. split; [done|].
  split; [|apply NoDup_singleton].
  intros k Hk ->%list_elem_of_singleton. done.
Qed.

Lemma Forall_replace_row {A} (key : A → string) (P : A → Prop) new
    (l : list A) :
  Forall P l → P new → Forall P (replace_row key new l).
Proof.
  intros Hl Hn. unfold replace_row. apply Forall_fmap.
  eapply Forall_impl; [exact Hl|]. intros r Hr. simpl. by case_decide.
Qed.

Lemma Exists_replace_row {A} (key : A → string) (P : A → Prop) new
    (l : list A) :
  Exists P l → (∀ r, r ∈ l → key r = key new → P r → P new) →
  Exists P (replace_row key new l).
Proof.
  rewrite !Exists_exists. intros (r & Hr & HP) Hn.
  exists (if decide (key r = key new) then new else r). split.
  - unfold replace_row. apply list_elem_of_fmap. by exists r.
  - case_decide; [by eapply Hn|done].
Qed.

Lemma Forall_filter_keep {A} (P Q : A → Prop) `{∀ x, Decision (P x)}
    (l : list A) :
  Forall Q l → Forall Q (filter P l).
Proof.
  rewrite !Forall_forall. intros Hl x [_ Hx]%list_elem_of_filter. auto.
Qed.

Lemma wf_schema_ok st : wf st → schema_ok st.
Proof. by intros (? & ? & _). Qed.

Lemma schema_ok_set_users st us :
  schema_ok st → NoDup (u_id <$> us) →
  (∀ uid, has_user st uid = true → uid ∈ u_id <$> us) →
  schema_ok (set_users st us).
Proof.
  intros [(Hu & Hl & Hs & Hc & Hln & Hsn) (Hlu & Hsl & Hcs)] Hnd Hsub.
  split; [by repeat split|]. split; [|done].
  eapply Forall_impl; [exact Hlu|]. intros l Hx.
  apply bool_decide_eq_true. by apply Hsub.
Qed.

Lemma schema_ok_set_locations st ls :
  schema_ok st → NoDup (l_id <$> ls) → Forall (λ l, l_id l ≠ "") ls →
  Forall (λ l, has_user st (l_user_id l) = true) ls →
  Forall (λ s, Exists (λ l, l_id l = s_location_id s
                            ∧ l_user_id l = s_user_id s) ls)
    (fishing_sessions st) →
  schema_ok (set_locations st ls).
Proof.
  intros [(Hu & Hl & Hs & Hc & Hln & Hsn) (Hlu & Hsl & Hcs)] Hnd Hne Hus Hex.
  split; [by repeat split|]. by repeat split.
Qed.

Lemma schema_ok_set_sessions st ss :
  schema_ok st → NoDup (s_id <$> ss) → Forall (λ s, s_id s ≠ "") ss →
  Forall (owned_location_of st) ss →
  Forall (λ c, c_session_id c ∈ s_id <$> ss) (catches st) →
  schema_ok (set_sessions st ss).
Proof.
  intros [(Hu & Hl & Hs & Hc & Hln & Hsn) (Hlu & Hsl & Hcs)] Hnd Hne Hls Hex.
  split; [by repeat split|]. split; [done|]. split; [done|].
  eapply Forall_impl; [exact Hex|]. intros c Hin.
  by apply bool_decide_eq_true.
Qed.

Lemma schema_ok_set_catches st cs :
  schema_ok st → NoDup (c_id <$> cs) →
  Forall (λ c, has_session st (c_session_id c) = true) cs →
  schema_ok (set_catches st cs).
Proof.
  intros [(Hu & Hl & Hs & Hc & Hln & Hsn) (Hlu & Hsl & Hcs)] Hnd Hex.
  split; [by repeat split|]. by repeat split.
Qed.

Section Steps.
Variable st : store.
Hypothesis Hwf : wf st.

Lemma insert_user_schema_ok u st' :
  insert_user (R := response) st u = Done st' → schema_ok st'.
Proof using Hwf.
  intros (Hfresh & ->)%insert_user_Done.
  apply schema_ok_set_users; [by apply wf_schema_ok| |].
  - apply NoDup_fmap_snoc; [by apply wf_user_ids|].
    by apply bool_decide_eq_false in Hfresh.
  - intros uid Hin%bool_decide_eq_true. rewrite fmap_app.
    apply elem_of_app. by left.
Qed.

Lemma update_user_schema_ok cx old new :
  schema_ok (update_user cx st old new).
Proof using Hwf.
  apply schema_ok_set_users; [by apply wf_schema_ok| |].
  - rewrite replace_row_keys. by apply wf_user_ids.
  - intros uid Hin%bool_decide_eq_true. by rewrite replace_row_keys.
Qed.

Lemma insert_location_schema_ok l st' :
  l_id l ≠ "" →
  insert_location (R := response) st l = Done st' → schema_ok st'.
Proof using Hwf.
  intros Hne (Hfresh & Huser & ->)%insert_location_Done.
  destruct Hwf as ((_ & _ & _ & _ & Hln & _) & (Hlu & Hsl & _) & _).
  apply schema_ok_set_locations; [by apply wf_schema_ok|..].
  - apply NoDup_fmap_snoc; [by apply wf_location_ids|].
    by apply bool_decide_eq_false in Hfresh.
  - apply Forall_app. split; [done|]. by apply Forall_singleton.
  - apply Forall_app. split; [done|]. by apply Forall_singleton.
  - eapply Forall_impl; [exact Hsl|]. intros s Hs.
    apply Exists_app. by left.
Qed.

Lemma update_location_row_schema_ok cx touched old new st' :
  old ∈ locations st → l_id new = l_id old →
  l_user_id new = l_user_id old →
  update_location_row (R := response) cx st touched old new = Done st' →
  schema_ok st'.
Proof using Hwf.
  intros Hold Hid Hown H. unfold update_location_row in H. injection H as <-.
  destruct Hwf as ((_ & _ & _ & _ & Hln & _) & (Hlu & Hsl & _) & _).
  rewrite Forall_forall in Hln, Hlu.
  set (stored := stamp_if_changed _ _ old new).
  assert (l_id stored = l_id old) as Hk.
  { unfold stored. by rewrite (stamp_if_changed_key l_id). }
  assert (l_user_id stored = l_user_id old) as Hku.
  { unfold stored. by rewrite (stamp_if_changed_key l_user_id). }
  apply schema_ok_set_locations; [by apply wf_schema_ok|..].
  - rewrite replace_row_keys. by apply wf_location_ids.
  - apply Forall_replace_row; [by apply Forall_forall|].
    rewrite Hk. by apply Hln.
  - apply Forall_replace_row; [by apply Forall_forall|].
    rewrite Hku. by apply Hlu.
  - eapply Forall_impl; [exact Hsl|]. intros s Hs.
    apply Exists_replace_row; [exact Hs|].
    intros r Hr Hkr [Hrid Hru].
    assert (r = old) as ->.
    { apply (NoDup_key_inj l_id (locations st));
        [by apply wf_location_ids|done..|congruence]. }
    split; congruence.
Qed.

Lemma delete_location_row_schema_ok l :
  location_sessions st l = [] → schema_ok (delete_location_row st l).
Proof using Hwf.
  intros Hnone. rewrite delete_location_row_empty by done.
  destruct Hwf as ((_ & _ & _ & _ & Hln & _) & (Hlu & Hsl & _) & _).
  apply schema_ok_set_locations; [by apply wf_schema_ok|..].
  - apply NoDup_fmap_filter. by apply wf_location_ids.
  - by apply Forall_filter_keep.
  - by apply Forall_filter_keep.
  - rewrite Forall_forall in Hsl. apply Forall_forall. intros s Hs.
    specialize (Hsl s Hs). unfold owned_location_of in Hsl.
    rewrite Exists_exists in Hsl. destruct Hsl as (l' & Hl' & Hid & Hu).
    apply Exists_exists. exists l'. split; [|done].
    apply list_elem_of_filter. split; [|done]. intros Heq.
    assert (s ∈ location_sessions st l) as Hin.
    { apply list_elem_of_filter. split; [congruence|done]. }
    rewrite Hnone in Hin. by apply elem_of_nil in Hin.
Qed.

Lemma insert_session_schema_ok s st' :
  s_id s ≠ "" → owned_location_of st s →
  insert_session (R := response) st s = Done st' → schema_ok st'.
Proof using Hwf.
  intros Hne Hloc (Hfresh & _ & _ & ->)%insert_session_Done.
  destruct Hwf as ((_ & _ & _ & _ & _ & Hsn) & (_ & Hsl & Hcs) & _).
  apply schema_ok_set_sessions; [by apply wf_schema_ok|..].
  - apply NoDup_fmap_snoc; [by apply wf_session_ids|].
    by apply bool_decide_eq_false in Hfresh.
  - apply Forall_app. split; [done|]. by apply Forall_singleton.
  - apply Forall_app. split; [done|]. by apply Forall_singleton.
  - eapply Forall_impl; [exact Hcs|]. intros c Hc%bool_decide_eq_true.
    rewrite fmap_app. apply elem_of_app. by left.
Qed.

Lemma update_session_row_schema_ok cx touched old new st' :
  old ∈ fishing_sessions st → s_id new = s_id old →
  owned_location_of st new →
  update_session_row (R := response) cx st touched old new = Done st' →
  schema_ok st'.
Proof using Hwf.
  intros Hold Hid Hloc (_ & ->)%update_session_row_Done.
  destruct Hwf as ((_ & _ & _ & _ & _ & Hsn) & (_ & Hsl & Hcs) & _).
  rewrite Forall_forall in Hsn.
  set (stored := stamp_if_changed _ _ old new).
  assert (s_id stored = s_id old) as Hk.
  { unfold stored. by rewrite (stamp_if_changed_key s_id). }
  apply schema_ok_set_sessions; [by apply wf_schema_ok|..].
  - rewrite replace_row_keys. by apply wf_session_ids.
  - apply Forall_replace_row; [by apply Forall_forall|].
    rewrite Hk. by apply Hsn.
  - apply Forall_replace_row; [done|].
    unfold owned_location_of, stored in *.
    by rewrite (stamp_if_changed_key s_location_id),
      (stamp_if_changed_key s_user_id).
  - rewrite replace_row_keys. eapply Forall_impl; [exact Hcs|].
    by intros c Hc%bool_decide_eq_true.
Qed.

Lemma delete_session_row_schema_ok s : schema_ok (delete_session_row st s).
Proof using Hwf.
  destruct Hwf as ((_ & _ & _ & _ & _ & Hsn) & (_ & Hsl & Hcs) & _).
  unfold delete_session_row.
  apply schema_ok_set_sessions.
  - apply schema_ok_set_catches; [by apply wf_schema_ok| |].
    + apply NoDup_fmap_filter. by apply wf_catch_ids.
    + by apply Forall_filter_keep.
  - apply NoDup_fmap_filter. by apply wf_session_ids.
  - by apply Forall_filter_keep.
  - by apply Forall_filter_keep.
  - simpl. rewrite Forall_forall in Hcs. apply Forall_forall.
    intros c [Hne Hc]%list_elem_of_filter.
    specialize (Hcs c Hc). apply bool_decide_eq_true in Hcs.
    apply list_elem_of_fmap in Hcs as (s' & Hid & Hs').
    apply list_elem_of_fmap. exists s'. split; [done|].
    apply list_elem_of_filter. split; [congruence|done].
Qed.

Lemma insert_catch_schema_ok c st' :
  insert_catch (R := response) st c = Done st' → schema_ok st'.
Proof using Hwf.
  intros (Hfresh & Hses & ->)%insert_catch_Done.
  destruct Hwf as (_ & (_ & _ & Hcs) & _).
  apply schema_ok_set_catches; [by apply wf_schema_ok|..].
  - apply NoDup_fmap_snoc; [by apply wf_catch_ids|].
    by apply bool_decide_eq_false in Hfresh.
  - apply Forall_app. split; [done|]. by apply Forall_singleton.
Qed.

Lemma update_catch_row_schema_ok cx touched old new st' :
  update_catch_row (R := response) cx st touched old new = Done st' → schema_ok st'.
Proof using Hwf.
  intros (Hses & ->)%update_catch_row_Done.
  destruct Hwf as (_ & (_ & _ & Hcs) & _).
  apply schema_ok_set_catches; [by apply wf_schema_ok|..].
  - rewrite replace_row_keys. by apply wf_catch_ids.
  - apply Forall_replace_row; [done|].
    by rewrite (stamp_if_changed_key c_session_id).
Qed.

Lemma delete_catch_row_schema_ok c : schema_ok (delete_catch_row st c).
Proof using Hwf.
  destruct Hwf as (_ & (_ & _ & Hcs) & _).
  apply schema_ok_set_catches; [by apply wf_schema_ok|..].
  - apply NoDup_fmap_filter. by apply wf_catch_ids.
  - by apply Forall_filter_keep.
Qed.

End Steps.

Lemma uuid_drawn_nonempty cx : uuid_drawn cx → new_id cx ≠ "".
Proof. unfold uuid_drawn. intros H Heq. by rewrite Heq in H. Qed.

Lemma run_schema_ok c current_user st :
  wf st →
  (∀ cx, context_of (Protected NoToken c) = Some cx → uuid_drawn cx) →
  schema_ok (run c current_user st).2.
Proof.
  intros Hwf Hid. pose proof (wf_schema_ok st Hwf) as Hok.
  destruct c; simpl; unfold_routes; unfold create_session, update_session;
    try done;
    (apply (try_except_snd schema_ok); [done|]; intros resp st' H;
     steps_back H; subst; try done);
    repeat match goal with x : unit |- _ => destruct x end.
  - (* change_password *)
    by apply update_user_schema_ok.
  - (* create_location *)
    match goal with
    | H : insert_location _ _ = Done _ |- _ =>
        eapply (insert_location_schema_ok st Hwf) in H; [exact H|]
    end.
    simpl. by apply uuid_drawn_nonempty, Hid.
  - (* update_location *)
    match goal with
    | H : find_location _ _ _ = Some _ |- _ =>
        apply find_location_Some in H as (? & _ & _)
    end.
    match goal with
    | H : update_location_row _ _ _ _ _ = Done _ |- _ =>
        by eapply (update_location_row_schema_ok st Hwf) in H
    end.
  - (* delete_location *)
    apply delete_location_row_schema_ok; [done|].
    match goal with
    | H : bool_decide _ = false |- _ => apply bool_decide_eq_false in H
    end.
    by destruct (location_sessions st _); [|exfalso; auto].
  - (* create_session *)
    match goal with
    | H : find_location _ _ _ = Some _ |- _ =>
        apply find_location_Some in H as (? & ? & ?)
    end.
    match goal with
    | H : insert_session _ _ = Done _ |- _ =>
        eapply (insert_session_schema_ok st Hwf) in H; [exact H| |]
    end.
    + simpl. by apply uuid_drawn_nonempty, Hid.
    + apply Exists_exists. eexists. split; [eassumption|]. done.
  - (* update_session *)
    match goal with
    | H : find_session _ _ _ = Some _ |- _ =>
        pose proof H as (? & _ & _)%find_session_Some;
        apply find_session_owned in H as [H _]
    end.
    match goal with
    | H : update_session_row _ _ _ _ _ = Done _ |- _ =>
        pose proof H as [Hhas _]%update_session_row_Done;
        eapply (update_session_row_schema_ok st Hwf) in H; [exact H|done..|]
    end.
    simpl in Hhas.
    match goal with
    | Hs : _ ∈ sessions_of st _, Hc : _ = Done (), Hk : _ = Done ?k
      |- owned_location_of _ {| s_location_id := ?k |} =>
        destruct (location_key_ok _ _ _ _ _ _ Hwf Hs Hc Hk) as [->|Hin]
    end.
    + by rewrite has_location_empty in Hhas.
    + apply list_elem_of_fmap in Hin as (l & -> & [Hu Hl]%list_elem_of_filter).
      apply Exists_exists. exists l. split; [done|]. simpl. split; [done|].
      match goal with
      | Hs : _ ∈ sessions_of st _ |- _ =>
          by apply list_elem_of_filter in Hs as [-> _]
      end.
  - (* delete_session *)
    by apply delete_session_row_schema_ok.
  - (* create_catch *)
    match goal with
    | H : insert_catch _ _ = Done _ |- _ =>
        by eapply (insert_catch_schema_ok st Hwf) in H
    end.
  - (* update_catch *)
    match goal with
    | H : update_catch_row _ _ _ _ _ = Done _ |- _ =>
        by eapply (update_catch_row_schema_ok st Hwf) in H
    end.
  - (* delete_catch *)
    by apply delete_catch_row_schema_ok.
Qed.

Lemma handle_wf rq st :
  wf st → (∀ cx, context_of rq = Some cx → uuid_drawn cx) →
  wf (handle rq st).2.
Proof.
  intros Hwf Hid.
  assert (schema_ok (handle rq st).2) as [? ?].
  { pose proof (wf_schema_ok st Hwf) as Hok.
    destruct rq as [cx data|data|tk c]; simpl.
    - unfold register. apply (try_except_snd schema_ok); [done|].
      intros resp st' H. steps_back H. subst.
      match goal with
      | H : insert_user _ _ = Done _ |- _ =>
          by eapply (insert_user_schema_ok st Hwf) in H
      end.
    - unfold login. apply (try_except_snd schema_ok); [done|].
      intros resp st' H. steps_back H.
      repeat case_match; steps_back H; by subst.
    - apply (token_required_snd schema_ok); [done|]. intros cu.
      apply run_schema_ok; [done|]. intros cx Hcx. apply Hid.
      by destruct c. }
  pose proof (handle_sessions_ok rq st (wf_sessions_ok st Hwf)).
  split; [done|]. by split.
Qed.

(** Every store the API produces is well formed. *)
Lemma reachable_wf st : reachable st → wf st.
Proof.
  induction 1 as [|st rq _ IH Hid]; [|by apply handle_wf].
  repeat split; simpl; by constructor.
Qed.

(** *** Every call but the creates *)

Lemma run_agree c current_user st1 st2 :
  wf st1 → wf st2 → is_create c = false →
  view_of st1 (u_id current_user) = view_of st2 (u_id current_user) →
  same_answer (same_view (u_id current_user))
    (run c current_user st1) (run c current_user st2).
Proof.
  intros Hwf1 Hwf2 Hc Hview. destruct c; try discriminate Hc; simpl.
  - split; [reflexivity|exact Hview].
  - by apply change_password_agree.
  - by apply get_locations_agree.
  - by apply get_location_agree.
  - by apply update_location_agree.
  - by apply delete_location_agree.
  - by apply get_sessions_agree.
  - by apply get_session_agree.
  - by apply update_session_agree.
  - by apply delete_session_agree.
  - by apply get_catches_agree.
  - by apply get_catch_agree.
  - by apply update_catch_agree.
  - by apply delete_catch_agree.
  - by apply get_catches_by_session_agree.
  - by apply get_overview_stats_agree.
  - by apply get_species_stats_agree.
  - by apply get_location_stats_agree.
  - by apply get_bait_stats_agree.
  - by apply get_monthly_stats_agree.
  - by apply get_recent_activity_agree.
Qed.

Lemma run_frame c current_user st other :
  wf st → is_create c = false → other ≠ u_id current_user →
  view_of (run c current_user st).2 other = view_of st other.
Proof.
  intros Hwf Hc Hother.
  destruct c; try discriminate Hc; simpl; unfold_routes;
    unfold update_session; try done;
    (apply (try_except_snd (λ s, view_of s other = view_of st other));
     [done|]; intros resp st' H; steps_back H; subst; try done);
    repeat match goal with
           | x : unit |- _ => destruct x
           | H : find_location _ _ _ = Some _ |- _ =>
               apply find_location_owned in H as [H _]
           | H : find_session _ _ _ = Some _ |- _ =>
               apply find_session_owned in H as [H _]
           | H : find_catch _ _ _ = Some _ |- _ =>
               apply find_catch_owned in H as [H _]; [|done]
           end.
  - (* change_password *)
    by apply (update_user_frame (u_id current_user)).
  - (* update_location *)
    match goal with
    | H : update_location_row _ _ _ _ _ = Done _ |- _ =>
        by eapply (update_location_row_frame (u_id current_user) other st
                     Hwf Hother) in H
    end.
  - (* delete_location *)
    apply (delete_location_row_frame (u_id current_user)); try done.
    match goal with
    | H : bool_decide _ = false |- _ => apply bool_decide_eq_false in H
    end.
    by destruct (location_sessions st _); [|exfalso; auto].
  - (* update_session *)
    match goal with
    | H : update_session_row _ _ _ _ _ = Done _ |- _ =>
        by eapply (update_session_row_frame (u_id current_user) other st
                     Hwf Hother) in H
    end.
  - (* delete_session *)
    by apply (delete_session_row_frame (u_id current_user)).
  - (* update_catch *)
    match goal with
    | H : update_catch_row _ _ _ _ _ = Done _ |- _ =>
        eapply (update_catch_row_frame (u_id current_user) other st
                  Hwf Hother) in H; [exact H|done..|]
    end.
    simpl. eapply session_key_ok; eassumption.
  - (* delete_catch *)
    by apply (delete_catch_row_frame (u_id current_user)).
Qed.

(** C9. A protected read, statistics, update or delete sees and touches
    the rows of its caller only. On two well-formed stores (as every store
    the API produces is, [reachable_wf]) that hold the same rows of one
    user (the user's own row, the user's locations and sessions, and the
    catches of those sessions), a call made with that user's token is
    answered alike, leaves that user's rows alike, and leaves the rows of
    everybody else as they were. *)
Theorem C9_owner_scoped (c : call) (uid : string) (st1 st2 : store) :
  wf st1 → wf st2 → is_create c = false →
  view_of st1 uid = view_of st2 uid →
  (handle (Protected (ValidToken uid) c) st1).1
  = (handle (Protected (ValidToken uid) c) st2).1
  ∧ view_of (handle (Protected (ValidToken uid) c) st1).2 uid
    = view_of (handle (Protected (ValidToken uid) c) st2).2 uid
  ∧ (∀ other, other ≠ uid →
       view_of (handle (Protected (ValidToken uid) c) st1).2 other
       = view_of st1 other).
Proof.
  intros Hwf1 Hwf2 Hc Hview. simpl.
  rewrite <- (agree_user uid st1 st2 Hview).
  destruct (get_user st1 uid) as [current_user|] eqn:Hu; [|done].
  assert (u_id current_user = uid) as <-.
  { by apply head_Some_elem_of, list_elem_of_filter in Hu as [? _]. }
  destruct (run_agree c current_user st1 st2 Hwf1 Hwf2 Hc Hview) as [Hr Hv].
  split; [exact Hr|]. split; [exact Hv|].
  intros other Hother. by apply run_frame.
Qed.

(** * More of the routes *)

(** ** What every store of the API satisfies *)

(** X1. The keys and references of a store the API has produced: no two
    rows of a table share an id, the user of every location is there, every
    session is at a location that is there and belongs to the user of the
    session, and the session of every catch is there. *)
Theorem X1_reachable_integrity (st : store) :
  reachable st →
  NoDup (u_id <$> users st) ∧ NoDup (l_id <$> locations st)
  ∧ NoDup (s_id <$> fishing_sessions st) ∧ NoDup (c_id <$> catches st)
  ∧ (∀ l, l ∈ locations st → ∃ u, u ∈ users st ∧ u_id u = l_user_id l)
  ∧ (∀ s, s ∈ fishing_sessions st →
       ∃ l, l ∈ locations st ∧ l_id l = s_location_id s
            ∧ l_user_id l = s_user_id s)
  ∧ (∀ c, c ∈ catches st →
       ∃ s, s ∈ fishing_sessions st ∧ s_id s = c_session_id c).
Proof.
  intros Hwf%reachable_wf.
  pose proof Hwf as ((Hu & Hl & Hs & Hc & _ & _) & (Hlu & Hsl & Hcs) & _).
  rewrite Forall_forall in Hlu.
  repeat (split; [done|]). split; [|split].
  - intros l Hin. specialize (Hlu l Hin).
    apply bool_decide_eq_true, list_elem_of_fmap in Hlu as (u & ? & ?).
    by exists u.
  - intros s Hin.
    destruct (wf_session_location st s Hwf Hin) as (l & _ & ? & ? & ?).
    by exists l.
  - intros c Hin. by apply wf_catch_session.
Qed.

(** ** What an answer says about the store *)

Lemma try_except_error_keeps h st (r : route) :
  (∀ resp st', r = Done (resp, st') → status resp < 400) →
  400 ≤ status (try_except h st r).1 → (try_except h st r).2 = st.
Proof.
  intros Hr. destruct r as [[resp st']| |e]; simpl.
  - intros Hs. specialize (Hr _ _ eq_refl). lia.
  - done.
  - by destruct h; [case_decide|].
Qed.

Ltac done_below_400 :=
  let H := fresh "H" in
  intros ? ? H; steps_back H; repeat case_match; steps_back H; subst;
  simpl; lia.

(** X2. An answer of 400 or more means that nothing was written: whatever
    the request, the store is the one before it. *)
Theorem X2_error_keeps_store (rq : request) (st : store) :
  400 ≤ status (handle rq st).1 → (handle rq st).2 = st.
Proof.
  destruct rq as [cx data|data|tk c]; simpl.
  - unfold register. apply try_except_error_keeps. done_below_400.
  - unfold login. apply try_except_error_keeps. done_below_400.
  - destruct tk; simpl; try done.
    destruct (get_user st user_id) as [cu|]; [|done].
    destruct c; simpl; unfold_routes; unfold create_session, update_session;
      try done; apply try_except_error_keeps; done_below_400.
Qed.

(** X3. [login] and the [GET] routes never write: with any token and any
    arguments, the store after the request is the store before it. *)
Theorem X3_reads_keep_store (rq : request) (st : store) :
  reads_only rq = true → (handle rq st).2 = st.
Proof.
  destruct rq as [cx data|data|tk c]; simpl; [done| |].
  - intros _. unfold login. apply (try_except_snd (λ s, s = st)); [done|].
    intros resp st' H. steps_back H. repeat case_match; steps_back H.
    by subst.
  - intros Hc. apply (token_required_snd (λ s, s = st)); [done|]. intros cu.
    destruct c; try discriminate Hc; simpl; unfold_routes; try done;
      (apply (try_except_snd (λ s, s = st)); [done|]; intros resp st' H;
       steps_back H; by subst).
Qed.

(** ** Create, then fetch *)

Lemma head_filter_snoc {A} (P : A → Prop) `{∀ x, Decision (P x)}
    (l : list A) x :
  (∀ y, y ∈ l → ¬ P y) → P x → head (filter P (l ++ [x])) = Some x.
Proof.
  intros Hl Hx. rewrite filter_app, (filter_none P l) by done.
  by rewrite filter_cons_True.
Qed.

Lemma head_all_eq {A} (l : list A) x :
  (∀ y, y ∈ l → y = x) → x ∈ l → head l = Some x.
Proof.
  destruct l as [|y l]; [by intros _ ?%elem_of_nil|].
  intros Hl _. simpl. f_equal. apply Hl. by left.
Qed.

Lemma has_location_false st lid l :
  has_location st lid = false → l ∈ locations st → l_id l ≠ lid.
Proof.
  unfold has_location. intros H%bool_decide_eq_false Hl <-.
  apply H. by apply list_elem_of_fmap_2.
Qed.

Lemma has_catch_false st cid c :
  has_catch st cid = false → c ∈ catches st → c_id c ≠ cid.
Proof.
  unfold has_catch. intros H%bool_decide_eq_false Hc <-.
  apply H. by apply list_elem_of_fmap_2.
Qed.

Lemma find_location_snoc st l :
  has_location st (l_id l) = false →
  find_location (set_locations st (locations st ++ [l])) (l_id l) (l_user_id l)
  = Some l.
Proof.
  intros Hfresh. unfold find_location. simpl.
  apply head_filter_snoc; [|done].
  intros y Hy [Hid _]. by apply (has_location_false st (l_id l) y).
Qed.

Lemma find_session_snoc st s :
  has_session st (s_id s) = false →
  find_session (set_sessions st (fishing_sessions st ++ [s])) (s_id s)
    (s_user_id s)
  = Some s.
Proof.
  intros Hfresh. unfold find_session. simpl.
  apply head_filter_snoc; [|done].
  intros y Hy [Hid _]. by apply (has_session_false st (s_id s) y).
Qed.

Lemma elem_of_catch_join_rows (cs : list Catch) (ss : list FishingSession) r :
  r ∈ (c ← cs; s ← ss; if decide (c_session_id c = s_id s) then [(c, s)] else [])
  ↔ r.1 ∈ cs ∧ r.2 ∈ ss ∧ c_session_id r.1 = s_id r.2.
Proof.
  rewrite list_elem_of_bind. split.
  - intros (c & (s & Hr & Hs)%list_elem_of_bind & Hc).
    case_decide; [|by apply elem_of_nil in Hr].
    apply list_elem_of_singleton in Hr as ->. done.
  - intros (Hc & Hs & Heq). destruct r as [c s]. simpl in *.
    exists c. split; [|done]. apply list_elem_of_bind. exists s.
    split; [|done]. rewrite decide_True by done. by left.
Qed.

Lemma find_catch_snoc st c uid s :
  has_catch st (c_id c) = false →
  find_session st (c_session_id c) uid = Some s →
  find_catch (set_catches st (catches st ++ [c])) (c_id c) uid = Some c.
Proof.
  intros Hfresh (Hs & Hid & Hu)%find_session_Some.
  unfold find_catch, catches_of, catch_join_of, catch_join. simpl.
  apply head_all_eq.
  - intros y [Hy Hin]%list_elem_of_filter.
    apply list_elem_of_fmap in Hin as ([c' s'] & -> & Hin).
    apply list_elem_of_filter in Hin as [_ Hin].
    apply elem_of_catch_join_rows in Hin as (Hc' & _ & _). simpl in *.
    apply elem_of_app in Hc' as [Hc'|Hc'].
    + by destruct (has_catch_false st (c_id c) c').
    + by apply list_elem_of_singleton in Hc'.
  - apply list_elem_of_filter. split; [done|].
    apply list_elem_of_fmap. exists (c, s). split; [done|].
    apply list_elem_of_filter. split; [done|].
    apply elem_of_catch_join_rows. simpl. split; [|done].
    apply elem_of_app. right. by left.
Qed.

(** X4. A location that [create_location] has answered 201 for is the last
    row of the table, under the id drawn and the caller's id, and
    [get_location] with that id gives the caller the very same row. *)
Theorem X4_create_location_then_get cx data current_user st resp st' :
  create_location cx data current_user st = (resp, st') →
  status resp = 201 →
  ∃ l, resp = ok 201 (BLocation (Some LocationCreated) l)
       ∧ l_id l = new_id cx ∧ l_user_id l = u_id current_user
       ∧ locations st' = locations st ++ [l]
       ∧ get_location (new_id cx) current_user st'
         = (ok 200 (BLocation None l), st').
Proof.
  unfold create_location. intros H Hst.
  apply try_except_cases in H as [H|[_ ?]]; [|lia|errs].
  steps_back H. subst.
  match goal with
  | H : insert_location _ ?l = Done _ |- _ =>
      apply insert_location_Done in H as (Hfresh & _ & ->); exists l
  end.
  repeat (split; [done|]).
  pose proof (find_location_snoc st _ Hfresh) as E. simpl in E.
  unfold get_location. by rewrite E.
Qed.

(** X5. A session that [create_session] has answered 201 for is the last
    row of the table, and [get_session] with the id drawn gives the caller
    the same session, as the create answered it; on a well-formed store it
    has no catch yet. *)
Theorem X5_create_session_then_get cx data current_user st resp st' :
  create_session cx data current_user st = (resp, st') →
  status resp = 201 →
  ∃ s, resp = ok 201 (BSession (Some SessionCreated) (session_to_dict st' s))
       ∧ s_id s = new_id cx ∧ s_user_id s = u_id current_user
       ∧ fishing_sessions st' = fishing_sessions st ++ [s]
       ∧ get_session (new_id cx) current_user st'
         = (ok 200 (BSessionDetail (session_to_dict st' s)
                      (session_catches st' s)), st')
       ∧ (wf st → session_catches st' s = []
                  ∧ sd_catches_count (session_to_dict st' s) = 0).
Proof.
  intros H Hst.
  apply create_session_cases in H
    as (lid & l & d & t1 & t2 & m & temp & w & n & _ & _ & _ & _ & _ & _ & _
        & _ & _ & Hfresh & H); [|lia].
  cbv zeta in H. destruct H as [-> ->].
  eexists. repeat (split; [reflexivity|]). split.
  - match goal with
    | |- context [session_to_dict _ ?s] =>
        pose proof (find_session_snoc st s Hfresh) as E
    end.
    simpl in E. unfold get_session. by rewrite E.
  - intros Hwf.
    assert (session_catches
              (set_sessions st (fishing_sessions st ++ [
                 {| s_id := new_id cx; s_user_id := u_id current_user;
                    s_location_id := lid; s_date := d; s_start_time := t1;
                    s_end_time := t2; s_duration_minutes := Some m;
                    s_weather_conditions := w; s_temperature_celsius := temp;
                    s_notes := n; s_created_at := now cx;
                    s_updated_at := now cx |}]))
              {| s_id := new_id cx; s_user_id := u_id current_user;
                 s_location_id := lid; s_date := d; s_start_time := t1;
                 s_end_time := t2; s_duration_minutes := Some m;
                 s_weather_conditions := w; s_temperature_celsius := temp;
                 s_notes := n; s_created_at := now cx;
                 s_updated_at := now cx |} = []) as E.
    { unfold session_catches. simpl. apply filter_none. intros c Hc Heq.
      destruct (wf_catch_session st c Hwf Hc) as (s & Hs & Hid).
      apply (has_session_false st (new_id cx) s Hfresh Hs). congruence. }
    split; [exact E|]. unfold session_to_dict. cbn [sd_catches_count].
    by rewrite E.
Qed.

(** X6. A catch that [create_catch] has answered 201 for is the last row of
    the table, in a session of the caller, and [get_catch] with the id
    drawn gives the caller the very same row. *)
Theorem X6_create_catch_then_get cx data current_user st resp st' :
  create_catch cx data current_user st = (resp, st') →
  status resp = 201 →
  ∃ c, resp = ok 201 (BCatch (Some CatchCreated) c)
       ∧ c_id c = new_id cx
       ∧ is_Some (find_session st (c_session_id c) (u_id current_user))
       ∧ catches st' = catches st ++ [c]
       ∧ get_catch (new_id cx) current_user st'
         = (ok 200 (BCatch None c), st').
Proof.
  unfold create_catch. intros H Hst.
  apply try_except_cases in H as [H|[_ ?]]; [|lia|errs].
  steps_back H. subst.
  match goal with
  | H : insert_catch _ ?c = Done _ |- _ =>
      apply insert_catch_Done in H as (Hfresh & _ & ->); exists c
  end.
  do 2 (split; [done|]). split; [simpl; by eexists|]. split; [done|].
  match goal with
  | H : find_session _ _ _ = Some _ |- context [BCatch None ?c] =>
      pose proof (find_catch_snoc st c _ _ Hfresh H) as E
  end.
  simpl in E. unfold get_catch. by rewrite E.
Qed.

(** ** Delete, then fetch *)

(** X7. A session that [delete_session] has answered 200 for is gone with
    all its catches, and nothing else is: the other sessions and catches,
    the locations and the users are as before, and the caller is answered
    404 for the session and for its catches from then on. *)
Theorem X7_delete_session_cascade sid current_user st resp st' :
  delete_session sid current_user st = (resp, st') →
  status resp = 200 →
  fishing_sessions st' = filter (λ s, s_id s ≠ sid) (fishing_sessions st)
  ∧ catches st' = filter (λ c, c_session_id c ≠ sid) (catches st)
  ∧ locations st' = locations st ∧ users st' = users st
  ∧ get_session sid current_user st' = (error 404 SessionNotFound, st')
  ∧ get_catches_by_session sid current_user st'
    = (error 404 SessionNotFound, st').
Proof.
  unfold delete_session. intros H Hst.
  apply try_except_cases in H as [H|[_ ?]]; [|lia|errs].
  steps_back H. subst.
  match goal with
  | H : find_session _ _ _ = Some _ |- _ =>
      apply find_session_Some in H as (_ & <- & _)
  end.
  repeat (split; [done|]).
  match goal with
  | |- context [delete_session_row st ?s] =>
      assert (find_session (delete_session_row st s) (s_id s)
                (u_id current_user) = None) as E
  end.
  { apply find_session_None_intro. simpl.
    by intros s' [Hne _]%list_elem_of_filter Heq. }
  unfold get_session, get_catches_by_session. by rewrite E.
Qed.

(** X8. [delete_location] answers 200 exactly for a location of the caller
    that has no session. The location is then gone and nothing else is, and
    [get_location] answers the caller 404 for it. *)
Theorem X8_delete_location_free lid current_user st :
  (status (delete_location lid current_user st).1 = 200
   ↔ ∃ l, find_location st lid (u_id current_user) = Some l
          ∧ location_sessions st l = [])
  ∧ (status (delete_location lid current_user st).1 = 200 →
     locations (delete_location lid current_user st).2
     = filter (λ l, l_id l ≠ lid) (locations st)
     ∧ fishing_sessions (delete_location lid current_user st).2
       = fishing_sessions st
     ∧ catches (delete_location lid current_user st).2 = catches st
     ∧ users (delete_location lid current_user st).2 = users st
     ∧ (get_location lid current_user
          (delete_location lid current_user st).2).1
       = error 404 LocationNotFound).
Proof.
  unfold delete_location.
  destruct (find_location st lid (u_id current_user)) as [l|] eqn:Hl; simpl.
  - pose proof Hl as (_ & <- & _)%find_location_Some.
    destruct (location_sessions st l) as [|s ss] eqn:Hs.
    2: { rewrite bool_decide_eq_true_2 by done. simpl.
         split; [|done]. split; [done|]. intros (? & [= <-] & ?). congruence. }
    rewrite bool_decide_eq_false_2 by (intros H; by apply H). simpl.
    + split; [split; [by exists l|done]|]. intros _.
      rewrite ?Hs. simpl. repeat (split; [done|]).
      unfold get_location. rewrite find_location_None_intro; [done|]. simpl.
      by intros l' [Hne _]%list_elem_of_filter Heq.
  - split; [|done]. split; [done|]. by intros (? & ? & _).
Qed.

(** ** The accounts *)

Lemma fmap_replace_row_same {A C} (key : A → string) (f : A → C) new
    (l : list A) :
  (∀ r, r ∈ l → key r = key new → f new = f r) →
  f <$> replace_row key new l = f <$> l.
Proof.
  intros H. unfold replace_row. rewrite <- list_fmap_compose.
  apply fmap_ext_in. intros r Hr. simpl. case_decide; [by apply H|done].
Qed.

Lemma truthy_text_nonempty (v : json) s :
  negb (truthy v) = false → to_text_nn (R := response) v = Done s → s ≠ "".
Proof.
  intros Ht Hv. destruct v; simpl in Hv; try discriminate.
  injection Hv as ->. simpl in Ht.
  apply negb_false_iff, negb_true_iff, String.eqb_neq in Ht. done.
Qed.

Lemma delete_sessions_users st (ss : list FishingSession) :
  users (foldr (λ s acc, delete_session_row acc s) st ss) = users st.
Proof. induction ss as [|s ss IH]; simpl; done. Qed.

(** Only [register] and [change_password] write to the users. *)
Lemma run_users c current_user st :
  (∀ cx data, c ≠ ChangePassword cx data) →
  users (run c current_user st).2 = users st.
Proof.
  intros Hc.
  destruct c; simpl; unfold_routes; unfold create_session, update_session;
    try done; try (by destruct (Hc cx data));
    (apply (try_except_snd (λ s, users s = users st)); [done|];
     intros resp st' H; steps_back H; subst; try done).
  - match goal with
    | H : insert_location _ _ = Done _ |- _ =>
        by apply insert_location_Done in H as (_ & _ & ->)
    end.
  - match goal with
    | H : update_location_row _ _ _ _ _ = Done _ |- _ =>
        unfold update_location_row in H; by injection H as <-
    end.
  - unfold delete_location_row. simpl. apply delete_sessions_users.
  - match goal with
    | H : insert_session _ _ = Done _ |- _ =>
        by apply insert_session_Done in H as (_ & _ & _ & ->)
    end.
  - match goal with
    | H : update_session_row _ _ _ _ _ = Done _ |- _ =>
        by apply update_session_row_Done in H as (_ & ->)
    end.
  - match goal with
    | H : insert_catch _ _ = Done _ |- _ =>
        by apply insert_catch_Done in H as (_ & _ & ->)
    end.
  - match goal with
    | H : update_catch_row _ _ _ _ _ = Done _ |- _ =>
        by apply update_catch_row_Done in H as (_ & ->)
    end.
Qed.

Lemma register_accounts_ok cx data st :
  accounts_ok st → accounts_ok (register cx data st).2.
Proof.
  intros Hok. unfold register. apply (try_except_snd accounts_ok); [done|].
  intros resp st' H. steps_back H. subst.
  destruct Hok as (He & Hn & Hne).
  match goal with
  | H : insert_user _ _ = Done _ |- _ =>
      pose proof (insert_user_unique _ _ _ H) as [Hfe Hfn];
      apply insert_user_Done in H as (_ & ->)
  end.
  split; [|split]; simpl.
  - by apply NoDup_fmap_snoc.
  - by apply NoDup_fmap_snoc.
  - apply Forall_app. split; [done|]. apply Forall_singleton. simpl.
    split;
      match goal with
      | H : varchar ?n ?s = Done ?s', H' : to_text_nn ?v = Done ?s
        |- ?s' ≠ "" =>
          apply (varchar_nonempty (R := response) n s s' ltac:(lia) H);
          by apply (truthy_text_nonempty v s)
      end.
Qed.

Lemma change_password_accounts_ok cx data current_user st :
  wf st → current_user ∈ users st →
  accounts_ok st → accounts_ok (change_password cx data current_user st).2.
Proof.
  intros Hwf Hcu Hok. unfold change_password.
  apply (try_except_snd accounts_ok); [done|].
  intros resp st' H. steps_back H. subst.
  destruct Hok as (He & Hn & Hne).
  unfold update_user. set (stored := stamp_if_changed _ _ _ _).
  assert (u_id stored = u_id current_user) as Hk.
  { unfold stored. by rewrite (stamp_if_changed_key u_id). }
  assert (u_email stored = u_email current_user) as Hke.
  { unfold stored. by rewrite (stamp_if_changed_key u_email). }
  assert (u_username stored = u_username current_user) as Hkn.
  { unfold stored. by rewrite (stamp_if_changed_key u_username). }
  assert (∀ r, r ∈ users st → u_id r = u_id stored → r = current_user)
    as Hsame.
  { intros r Hr Hid. apply (NoDup_key_inj u_id (users st));
      [by apply wf_user_ids|done..|congruence]. }
  split; [|split]; simpl.
  - rewrite fmap_replace_row_same; [done|].
    intros r Hr Hid. rewrite (Hsame r Hr Hid). done.
  - rewrite fmap_replace_row_same; [done|].
    intros r Hr Hid. rewrite (Hsame r Hr Hid). done.
  - apply Forall_replace_row; [done|]. rewrite Hke, Hkn.
    rewrite Forall_forall in Hne. by apply Hne.
Qed.

Lemma handle_accounts_ok rq st :
  wf st → accounts_ok st → accounts_ok (handle rq st).2.
Proof.
  intros Hwf Hok. destruct rq as [cx data|data|tk c]; simpl.
  - by apply register_accounts_ok.
  - unfold login. apply (try_except_snd accounts_ok); [done|].
    intros resp st' H. steps_back H. repeat case_match; steps_back H.
    by subst.
  - destruct tk; simpl; try done.
    destruct (get_user st user_id) as [cu|] eqn:Hcu; [|done].
    apply head_Some_elem_of, list_elem_of_filter in Hcu as [_ Hcu].
    assert ((∃ cx data, c = ChangePassword cx data)
            ∨ (∀ cx data, c ≠ ChangePassword cx data))
      as [(cx & data & ->)|Hc].
    { destruct c; first [left; by eauto|right; by intros]. }
    + by apply change_password_accounts_ok.
    + unfold accounts_ok. by rewrite run_users.
Qed.

Lemma reachable_accounts_ok st : reachable st → accounts_ok st.
Proof.
  induction 1 as [|st rq Hst IH Hid].
  - repeat split; simpl; constructor.
  - apply handle_accounts_ok; [by apply reachable_wf|done].
Qed.

(** X9. In every store the API produces, no two users share an email and
    no two share a username, and no user has an empty email or an empty
    username. *)
Theorem X9_accounts_unique (st : store) :
  reachable st →
  NoDup (u_email <$> users st) ∧ NoDup (u_username <$> users st)
  ∧ (∀ u, u ∈ users st → u_email u ≠ "" ∧ u_username u ≠ "").
Proof.
  intros (He & Hn & Hne)%reachable_accounts_ok.
  split; [done|]. split; [done|]. by apply Forall_forall.
Qed.

(** X10. Register, then log in. When [register] answers 201, the new user
    is the last row of the table under the id drawn, and, the email being
    one the column has room for (120 characters) and the hash one that
    accepts the password it was made from, [login] with the same payload
    answers 200 with that user. *)
Theorem X10_register_then_login cx data st resp st' :
  register cx data st = (resp, st') → status resp = 201 →
  (∀ email, get data "email" = JStr email → Text.char_length email ≤ 120) →
  (∀ pw, to_password (get data "password") = Done (R := response) pw →
         check_password_hash (generate_password_hash (salt cx) pw) pw = true) →
  ∃ u, resp = ok 201 (BUser (Some UserCreated) (user_to_dict u))
       ∧ u_id u = new_id cx ∧ users st' = users st ++ [u]
       ∧ login data st' = (ok 200 (BUser None (user_to_dict u)), st').
Proof.
  unfold register. intros H Hst Hroom Hhash.
  apply try_except_cases in H as [H|[_ ?]]; [|lia|errs].
  steps_back H. subst.
  match goal with
  | H : to_text_nn (get data "email") = Done ?e, H' : varchar 120 ?e = Done _
    |- _ =>
      rewrite (varchar_fits 120 e) in H'
        by (by apply Hroom, (to_text_nn_Done (R := response)));
      injection H' as <-
  end.
  match goal with
  | H : insert_user _ ?u = Done _ |- _ =>
      apply insert_user_Done in H as (_ & ->); exists u
  end.
  do 3 (split; [done|]).
  match goal with
  | H : to_password _ = Done ?pw |- _ => specialize (Hhash pw H)
  end.
  repeat match goal with
         | H : bool_decide _ = false |- _ => apply bool_decide_eq_false in H
         end.
  unfold login.
  repeat match goal with
         | H : negb _ = false |- _ => rewrite H
         | H : to_text_nn _ = Done _ |- _ => rewrite H
         | H : to_password _ = Done _ |- _ => rewrite H
         end.
  simpl. rewrite head_filter_snoc; simpl.
  - by rewrite Hhash.
  - intros u Hu Heq.
    match goal with
    | H : ?e ∉ u_email <$> users st |- _ =>
        apply H; rewrite <- Heq; by apply list_elem_of_fmap_2
    end.
  - done.
Qed.

Lemma get_insert (data : gmap string json) k v :
  get (<[k := v]> data) k = v.
Proof. unfold get, payload. by rewrite lookup_insert_eq. Qed.

Lemma get_insert_ne (data : gmap string json) k k' v :
  k ≠ k' → get (<[k := v]> data) k' = get data k'.
Proof. intros. unfold get, payload. by rewrite lookup_insert_ne. Qed.

(** X11. Change the password, then log in. When [change_password] answers
    200 to a user of a store the API has produced, the user's row carries
    the hash of the new password, and, the hash being one that accepts the
    password it was made from, [login] with the user's email and the new
    password answers 200 with that user. *)
Theorem X11_change_password_then_login cx data uid st resp st' :
  reachable st →
  handle (Protected (ValidToken uid) (ChangePassword cx data)) st
  = (resp, st') →
  status resp = 200 →
  (∀ pw, to_password (get data "new_password") = Done (R := response) pw →
         check_password_hash (generate_password_hash (salt cx) pw) pw = true) →
  ∃ u pw,
    get_user st' uid = Some u
    ∧ to_password (get data "new_password") = Done (R := response) pw
    ∧ u_password_hash u = generate_password_hash (salt cx) pw
    ∧ login (<["email" := JStr (u_email u)]>
               (<["password" := get data "new_password"]> ∅)) st'
      = (ok 200 (BUser None (user_to_dict u)), st').
Proof.
  intros Hreach H Hst Hhash.
  pose proof (reachable_wf st Hreach) as Hwf.
  pose proof (reachable_accounts_ok st Hreach) as (He & _ & Hne).
  simpl in H. destruct (get_user st uid) as [cu|] eqn:Hcu;
    [|injection H as <- <-; simpl in Hst; lia].
  pose proof Hcu as [Huid Hin]%head_Some_elem_of%list_elem_of_filter.
  unfold change_password in H.
  apply try_except_cases in H as [H|[_ ?]]; [|lia|errs].
  steps_back H. subst.
  match goal with
  | H : to_password (get data "new_password") = Done ?pw |- _ =>
      specialize (Hhash pw H); rename H into Hpw; set (new := pw) in *
  end.
  unfold update_user.
  set (user := {| u_id := u_id cu;
                  u_password_hash := generate_password_hash (salt cx) new |}).
  set (stored := stamp_if_changed false (stamp_user (now cx)) cu user).
  assert (u_id stored = u_id cu) as Hk.
  { unfold stored. by rewrite (stamp_if_changed_key u_id). }
  assert (u_email stored = u_email cu) as Hke.
  { unfold stored. by rewrite (stamp_if_changed_key u_email). }
  assert (u_password_hash stored = generate_password_hash (salt cx) new)
    as Hkh.
  { unfold stored. by rewrite (stamp_if_changed_key u_password_hash). }
  assert (∀ r, r ∈ users st → u_id r = u_id stored → r = cu) as Hsame.
  { intros r Hr Hid. apply (NoDup_key_inj u_id (users st));
      [by apply wf_user_ids|done..|congruence]. }
  assert (stored ∈ replace_row u_id stored (users st)) as Hstored.
  { unfold replace_row. apply list_elem_of_fmap. exists cu.
    by rewrite decide_True. }
  assert (u_email <$> replace_row u_id stored (users st)
          = u_email <$> users st) as Hemails.
  { apply fmap_replace_row_same. intros r Hr Hid.
    by rewrite (Hsame r Hr Hid). }
  exists stored, new. split; [|split; [done|split; [done|]]].
  - unfold get_user. simpl.
    rewrite (filter_replace_row_in u_id (λ u, u_id u = u_id cu))
      by (done || (intros; congruence)).
    rewrite head_replace_row. fold (get_user st (u_id cu)).
    rewrite Hcu. simpl. by rewrite decide_True.
  - unfold login.
    rewrite get_insert, get_insert_ne, get_insert by done.
    assert (u_email stored ≠ "") as Hnonempty.
    { rewrite Hke. rewrite Forall_forall in Hne. by apply Hne. }
    rewrite (truthy_JStr _ Hnonempty). simpl.
    match goal with
    | H : negb (truthy (get data "new_password")) = false |- _ => rewrite H
    end.
    simpl. rewrite Hpw.
    pose proof (filter_key_NoDup u_email
                  (replace_row u_id stored (users st)) stored) as E.
    rewrite Hemails in E. rewrite (E He Hstored). simpl.
    by rewrite Hkh, Hhash.
Qed.

(** ** The names of the locations *)







Lemma names_unique_filter st (P : Location → Prop) `{∀ l, Decision (P l)} :
  names_unique st →
  names_unique (set_locations st (filter P (locations st))).
Proof.
  intros Hst l1 l2. simpl.
  intros [_ H1]%list_elem_of_filter [_ H2]%list_elem_of_filter.
  by apply Hst.
Qed.




(** ** The method of the model that the routes do not call *)

(** X13. [FishingSession.calculate_duration] gives the minutes the routes
    store when the end is not before the start, and [None] when a time is
    missing; when the end is before the start (a session past midnight) it
    raises [NameError], where the routes store the minutes to the end on
    the next day. *)
Theorem X13_calculate_duration (date : Calendar.date)
    (start_time end_time : Calendar.time) :
  valid_time start_time → valid_time end_time →
  (Calendar.seconds_of_time start_time ≤ Calendar.seconds_of_time end_time →
   calculate_duration date (Some start_time) (Some end_time)
   = Minutes (Some (spec_duration date start_time end_time))
   ∧ duration_minutes_of (R := response) date start_time end_time
     = Done (spec_duration date start_time end_time))
  ∧ (Calendar.seconds_of_time end_time < Calendar.seconds_of_time start_time →
     calculate_duration date (Some start_time) (Some end_time)
     = NameError "timedelta"
     ∧ (0 < date + 1 ≤ Calendar.MAXORDINAL →
        duration_minutes_of (R := response) date start_time end_time
        = Done (spec_duration date start_time end_time)))
  ∧ calculate_duration date None (Some end_time) = Minutes None
  ∧ calculate_duration date (Some start_time) None = Minutes None.
Proof.
  intros Hs He.
  pose proof (seconds_of_time_range _ Hs) as [Hs' _].
  pose proof (seconds_of_time_range _ He) as [He' _].
  assert (∀ d, duration_minutes_of (R := response) date start_time end_time
               = Done d →
               duration_minutes_of (R := response) date start_time end_time
               = Done (spec_duration date start_time end_time)) as Hspec.
  { intros d Hd. rewrite Hd. f_equal. by eapply duration_minutes_of_spec. }
  split; [|split; [|done]].
  - intros Hle.
    assert (Calendar.datetime_ltb (Calendar.combine date end_time)
              (Calendar.combine date start_time) = false) as Hlt.
    { unfold Calendar.datetime_ltb, Calendar.combine. simpl.
      rewrite Z.ltb_irrefl, Z.eqb_refl. simpl. lia. }
    split.
    + unfold calculate_duration. rewrite Hlt. do 2 f_equal.
      unfold spec_duration, Calendar.int_div60, Calendar.total_seconds,
        Calendar.combine. simpl.
      assert ((date * 86400 + Calendar.seconds_of_time end_time
               <? date * 86400 + Calendar.seconds_of_time start_time) = false)
        as -> by lia.
      rewrite Z.quot_div_nonneg by lia. f_equal. lia.
    + eapply Hspec. unfold duration_minutes_of. rewrite Hlt. reflexivity.
  - intros Hlt'.
    assert (Calendar.datetime_ltb (Calendar.combine date end_time)
              (Calendar.combine date start_time) = true) as Hlt.
    { unfold Calendar.datetime_ltb, Calendar.combine. simpl.
      rewrite Z.ltb_irrefl, Z.eqb_refl. simpl. lia. }
    split.
    + unfold calculate_duration. by rewrite Hlt.
    + intros Hdate. eapply Hspec. unfold duration_minutes_of. rewrite Hlt.
      unfold Calendar.date_add_days.
      assert ((0 <? date + 1) && (date + 1 <=? Calendar.MAXORDINAL) = true)
        as -> by lia.
      reflexivity.
Qed.

(** ** The lists: what a page holds *)






Global Instance recent_first_total : Total recent_first.
Proof. intros a b. unfold recent_first. lia. Qed.

Global Instance count_desc_total {A} (cnt : A → Z) : Total (count_desc cnt).
Proof. intros a b. unfold count_desc. lia. Qed.


(** ** The statistics by species *)




(** ** More of the deletes, the updates and the refusals *)

(** X17. A catch that [delete_catch] has answered 200 for is gone, and
    nothing else is: the rows with that id leave the catches, the other
    tables are as before, and [get_catch] answers the caller 404 for it. *)
Theorem X17_delete_catch_removes cid current_user st resp st' :
  delete_catch cid current_user st = (resp, st') →
  status resp = 200 →
  catches st' = filter (λ c, c_id c ≠ cid) (catches st)
  ∧ fishing_sessions st' = fishing_sessions st
  ∧ locations st' = locations st ∧ users st' = users st
  ∧ get_catch cid current_user st' = (error 404 CatchNotFound, st').
Proof.
  unfold delete_catch. intros H Hst.
  apply try_except_cases in H as [H|[_ ?]]; [|lia|errs].
  steps_back H. subst.
  match goal with
  | H : find_catch _ _ _ = Some _ |- _ =>
      unfold find_catch in H;
      apply head_Some_elem_of, list_elem_of_filter in H as [<- _]
  end.
  repeat (split; [done|]).
  match goal with
  | |- context [delete_catch_row st ?c] =>
      assert (find_catch (delete_catch_row st c) (c_id c) (u_id current_user)
              = None) as E
  end.
  { unfold find_catch. rewrite filter_none; [done|].
    intros y Hy. unfold catches_of, catch_join_of, catch_join in Hy.
    apply list_elem_of_fmap in Hy as ([c' s'] & -> & Hin).
    apply list_elem_of_filter in Hin as [_ Hin].
    apply elem_of_catch_join_rows in Hin as (Hc' & _ & _). simpl in Hc'.
    by apply list_elem_of_filter in Hc' as [? _]. }
  unfold get_catch. by rewrite E.
Qed.




(** X18. [login] lets in only who it should: it answers 200 only when a
    user has the email of the payload and the hash of that user accepts
    the password of the payload, and then with that user; and a 401 of it
    carries one and the same text, whether the email is unknown or the
    password wrong. *)
Theorem X18_login_sound (data : payload) (st : store) :
  (status (login data st).1 = 200 →
   ∃ u pw, u ∈ users st
           ∧ to_text_nn (get data "email") = Done (R := response) (u_email u)
           ∧ to_password (get data "password") = Done pw
           ∧ check_password_hash (u_password_hash u) pw = true
           ∧ login data st = (ok 200 (BUser None (user_to_dict u)), st))
  ∧ (status (login data st).1 = 401 →
     login data st = (error 401 BadCredentials, st)).
Proof.
  split.
  - destruct (login data st) as [resp st'] eqn:H. simpl. intros Hst.
    pose proof H as H'. unfold login in H'.
    apply try_except_cases in H' as [H'|[_ ?]];
      [|lia|errs; intros ? [= <-]; simpl; lia].
    steps_back H'.
    destruct (head _) as [u|] eqn:Hu; [|done].
    steps_back H'. subst.
    apply head_Some_elem_of, list_elem_of_filter in Hu as [Hmail Hu].
    repeat match goal with
           | H : negb (check_password_hash _ _) = false |- _ =>
               apply negb_false_iff in H
           end.
    eexists u, _. split; [done|]. split; [by rewrite Hmail|].
    split; [eassumption|]. split; [eassumption|reflexivity].
  - unfold login, try_except.
    destruct (get data "email"), (get data "password"); simpl;
    repeat first
      [ progress simpl
      | match goal with
        | |- context [match get data ?k with _ => _ end] =>
            destruct (get data k)
        | |- context [if ?c then _ else _] => destruct c
        | |- context [return_if ?c _] => destruct c
        | |- context [match head ?l with _ => _ end] => destruct (head l)
        end ];
      intros; (lia || done).
Qed.


(** X20. What [update_location] writes when it answers 200: the caller's
    location of that id is replaced by a row with the same id, owner and
    creation time, in which each of name, latitude, longitude and
    description holds the value of the payload when the payload has the
    key and the old value when it has not. A text is held as the database
    keeps it: a string as it is when the column has room for it, a number
    or a boolean as its text. The row is left as it was, time of update
    included, or carries the time of the request. No other table is
    written. *)
Theorem X20_update_location_partial cx lid data current_user st resp st' :
  update_location cx lid data current_user st = (resp, st') →
  status resp = 200 →
  ∃ old new,
    find_location st lid (u_id current_user) = Some old
    ∧ resp = ok 200 (BLocation (Some LocationUpdated) new)
    ∧ locations st' = replace_row l_id new (locations st)
    ∧ users st' = users st ∧ fishing_sessions st' = fishing_sessions st
    ∧ catches st' = catches st
    ∧ l_id new = l_id old ∧ l_user_id new = l_user_id old
    ∧ l_created_at new = l_created_at old
    ∧ match data !! "name" with
      | Some v => holds_text (Some 200) v (Some (l_name new))
      | None => l_name new = l_name old
      end
    ∧ match data !! "latitude" with
      | Some v => float_of v (l_latitude new)
      | None => l_latitude new = l_latitude old
      end
    ∧ match data !! "longitude" with
      | Some v => float_of v (l_longitude new)
      | None => l_longitude new = l_longitude old
      end
    ∧ match data !! "description" with
      | Some v => holds_text None v (l_description new)
      | None => l_description new = l_description old
      end
    ∧ (new = old ∨ l_updated_at new = now cx).
Proof.
  unfold update_location. intros H Hst.
  apply try_except_cases in H as [H|[_ ?]]; [|lia|errs].
  steps_back H. subst.
  match goal with
  | H : update_location_row _ _ ?touched ?old ?new = Done _ |- _ =>
      unfold update_location_row in H; injection H as <-;
      exists old, (stamp_if_changed touched (stamp_location (now cx)) old new)
  end.
  do 6 (split; [done|]).
  rewrite (stamp_if_changed_key l_id), (stamp_if_changed_key l_user_id),
    (stamp_if_changed_key l_created_at), (stamp_if_changed_key l_name),
    (stamp_if_changed_key l_latitude), (stamp_if_changed_key l_longitude),
    (stamp_if_changed_key l_description) by done.
  simpl. do 3 (split; [done|]).
  split; [|split; [|split; [|split]]].
  - destruct (data !! "name"); [|congruence].
    eapply set_text_nn_holds; [|eassumption]. lia.
  - destruct (data !! "latitude"); [by eapply to_float_holds|congruence].
  - destruct (data !! "longitude"); [by eapply to_float_holds|congruence].
  - destruct (data !! "description"); [|congruence].
    eapply set_text_holds; [|eassumption]. simpl. lia.
  - unfold stamp_if_changed. destruct (_ || _); [by right|].
    case_decide; [by left|by right].
Qed.

(** X21. What [create_location] refuses, each time with 400 and the store
    as it was: a payload without a name, then one without a latitude, then
    one without a longitude, a value that is not there or empty or zero
    counting as missing (so that no location is created on the equator or
    on the prime meridian); a name that a location of the caller has
    already; and a latitude that is a text and no number. *)
Theorem X21_create_location_refusals cx data current_user st :
  (truthy (get data "name") = false →
   create_location cx data current_user st = (error 400 NameRequired, st))
  ∧ (truthy (get data "name") = true →
     truthy (get data "latitude") = false →
     create_location cx data current_user st
     = (error 400 LatitudeRequired, st))
  ∧ (truthy (get data "name") = true →
     truthy (get data "latitude") = true →
     truthy (get data "longitude") = false →
     create_location cx data current_user st
     = (error 400 LongitudeRequired, st))
  ∧ (truthy (get data "name") = true →
     get data "latitude" = JInt 0 ∨ get data "longitude" = JInt 0 →
     status (create_location cx data current_user st).1 = 400
     ∧ (create_location cx data current_user st).2 = st)
  ∧ (∀ name l,
       get data "name" = JStr name → name ≠ "" →
       truthy (get data "latitude") = true →
       truthy (get data "longitude") = true →
       find_location_named st (u_id current_user) name = Some l →
       create_location cx data current_user st
       = (error 400 LocationNameTaken, st))
  ∧ (∀ name s,
       get data "name" = JStr name → name ≠ "" →
       get data "latitude" = JStr s → s ≠ "" → float_of_str s = None →
       truthy (get data "longitude") = true →
       find_location_named st (u_id current_user) name = None →
       create_location cx data current_user st
       = (error 400 LatLonInvalid, st)).
Proof.
  unfold create_location.
  split; [by intros ->|]. split; [by intros -> ->|].
  split; [by intros -> -> ->|]. split; [|split].
  - intros -> [Hz|Hz]; rewrite Hz; simpl; [done|].
    by destruct (truthy (get data "latitude")).
  - intros name l Hn Hne -> -> Hl. rewrite Hn, (truthy_JStr _ Hne). simpl.
    by rewrite Hl.
  - intros name s Hn Hne Hs Hse Hf -> Hl.
    rewrite Hn, Hs, !truthy_JStr by done. simpl. rewrite Hl. simpl.
    by rewrite Hf.
Qed.

(** ** The catches of a session, the recent activity, the update of a catch *)

Global Instance newest_first_total : Total newest_first.
Proof. intros a b. unfold newest_first. lia. Qed.



(** X24. What [update_catch] writes when it answers 200: the caller's catch
    of that id is replaced by a row with the same id and creation time, in
    which each column holds the value of the payload when the payload has
    its key and the old value when it has not: the session the string of
    the payload, the species its text, the weight and the length its
    number or, for a value that is empty or zero, none, the bait and the
    photo its text or none, and [released] the truth of the value. A text
    is held as the database keeps it: a string as it is when the column
    has room for it, a number or a boolean as its text. The row is left as
    it was, time of update included, or carries the time of the request.
    No other table is written. *)
Theorem X24_update_catch_partial cx cid data current_user st resp st' :
  update_catch cx cid data current_user st = (resp, st') →
  status resp = 200 →
  ∃ old new,
    find_catch st cid (u_id current_user) = Some old
    ∧ resp = ok 200 (BCatch (Some CatchUpdated) new)
    ∧ catches st' = replace_row c_id new (catches st)
    ∧ users st' = users st ∧ locations st' = locations st
    ∧ fishing_sessions st' = fishing_sessions st
    ∧ c_id new = c_id old ∧ c_created_at new = c_created_at old
    ∧ match data !! "session_id" with
      | Some v => v = JStr (c_session_id new)
      | None => c_session_id new = c_session_id old
      end
    ∧ match data !! "species" with
      | Some v => holds_text (Some 100) v (Some (c_species new))
      | None => c_species new = c_species old
      end
    ∧ match data !! "weight_kg" with
      | Some v => holds_float v (c_weight_kg new)
      | None => c_weight_kg new = c_weight_kg old
      end
    ∧ match data !! "length_cm" with
      | Some v => holds_float v (c_length_cm new)
      | None => c_length_cm new = c_length_cm old
      end
    ∧ match data !! "bait_used" with
      | Some v => holds_text (Some 100) v (c_bait_used new)
      | None => c_bait_used new = c_bait_used old
      end
    ∧ match data !! "released" with
      | Some v => c_released new = truthy v
      | None => c_released new = c_released old
      end
    ∧ match data !! "photo_url" with
      | Some v => holds_text (Some 500) v (c_photo_url new)
      | None => c_photo_url new = c_photo_url old
      end
    ∧ (new = old ∨ c_updated_at new = now cx).
Proof.
  unfold update_catch. intros H Hst.
  apply try_except_cases in H as [H|[_ ?]]; [|lia|errs].
  steps_back H. subst.
  match goal with
  | H : update_catch_row _ _ ?touched ?old ?new = Done _ |- _ =>
      apply update_catch_row_Done in H as (_ & ->);
      exists old, (stamp_if_changed touched (stamp_catch (now cx)) old new)
  end.
  do 6 (split; [done|]).
  rewrite (stamp_if_changed_key c_id), (stamp_if_changed_key c_created_at),
    (stamp_if_changed_key c_session_id), (stamp_if_changed_key c_species),
    (stamp_if_changed_key c_weight_kg), (stamp_if_changed_key c_length_cm),
    (stamp_if_changed_key c_bait_used), (stamp_if_changed_key c_released),
    (stamp_if_changed_key c_photo_url) by done.
  simpl. do 2 (split; [done|]).
  split; [|split; [|split; [|split; [|split; [|split; [|split]]]]]].
  - destruct (data !! "session_id"); [|congruence].
    by eapply bind_key_Done.
  - destruct (data !! "species"); [|congruence].
    eapply set_text_nn_holds; [|eassumption]. lia.
  - destruct (data !! "weight_kg"); [|congruence].
    by eapply to_float_or_none_holds.
  - destruct (data !! "length_cm"); [|congruence].
    by eapply to_float_or_none_holds.
  - destruct (data !! "bait_used"); [|congruence].
    eapply set_text_holds; [|eassumption]. simpl. lia.
  - by destruct (data !! "released").
  - destruct (data !! "photo_url"); [|congruence].
    eapply set_text_holds; [|eassumption]. simpl. lia.
  - unfold stamp_if_changed. destruct (_ || _); [by right|].
    case_decide; [by left|by right].
Qed.
End Proofs.
(** ** The theorems at work on the demonstration store *)

(** A decidable statement about concrete rows, settled by evaluation. *)
Ltac by_evaluation := apply (bool_decide_unpack _); vm_compute; exact I.


Lemma C1_stored_duration_witness :
  s_duration_minutes Demo.evening_overnight
  = Some (spec_duration (s_date Demo.evening_overnight)
            (s_start_time Demo.evening_overnight)
            (s_end_time Demo.evening_overnight))
  ∧ (s_start_time Demo.evening_overnight = Calendar.MkTime 22 0 →
     s_end_time Demo.evening_overnight = Calendar.MkTime 2 0 →
     s_duration_minutes Demo.evening_overnight = Some 240).
Proof.
  apply (C1_stored_duration Demo.overnight Demo.alice Demo.scenario
           (s_id Demo.evening) Demo.evening_overnight).
  - by_evaluation.
  - reflexivity.
  - reflexivity.
  - vm_compute. reflexivity.
  - by_evaluation.
  - reflexivity.
Defined.

Lemma reachable_built : reachable Demo.built.
Proof.
  unfold Demo.built.
  repeat (apply reachable_step;
          [|intros cx [= <-]; reflexivity]).
  apply reachable_empty.
Qed.

Lemma C10_duration_range_witness :
  (∀ s, s ∈ fishing_sessions Demo.built →
     ∃ d, s_duration_minutes s = Some d ∧ 0 ≤ d < 1440
          ∧ (s_start_time s = s_end_time s → d = 0))
  ∧ (∀ ss, ss ⊆ fishing_sessions Demo.built →
       0 ≤ default 0 (sql_sum_int (omap s_duration_minutes ss))).
Proof.
  apply (C10_duration_range Demo.built).
  unfold Demo.built.
  repeat (apply reachable_step;
          [|intros cx [= <-]; reflexivity]).
  apply reachable_empty.
Defined.

Example built_is_scenario : Demo.built = Demo.scenario.
Proof. by_evaluation. Qed.

Lemma wf_scenario : wf Demo.scenario.
Proof. by_evaluation. Qed.

Lemma wf_two_users : wf Demo.two_users.
Proof. by_evaluation. Qed.

(** Alice's one session lasts 210 minutes: 3.5 hours. *)
Lemma C5_overview_witness :
  ∃ o,
    get_overview_stats Demo.alice Demo.scenario
    = (ok 200 (BOverview o), Demo.scenario)
    ∧ kept_count o + released_count o = total_catches o
    ∧ total_sessions o = 1 ∧ total_catches o = 1 ∧ kept_count o = 1
    ∧ total_hours o = @PFloat Fixed.backend 3500000.
Proof.
  destruct (C5_overview Demo.alice Demo.scenario)
    as (o & Heq & Hsum & _ & _ & _ & _ & _ & _ & _ & Hhours).
  - by_evaluation.
  - exists o. split; [exact Heq|]. split; [exact Hsum|].
    split; [|split; [|split; [|rewrite Hhours; by_evaluation]]].
    all: assert (get_overview_stats Demo.alice Demo.scenario
                 = (ok 200 (BOverview Demo.scenario_overview), Demo.scenario))
           as H by by_evaluation;
         rewrite H in Heq; by injection Heq as <-.
Defined.

Lemma C6_delete_location_guard_witness :
  (delete_location (l_id Demo.lake1) Demo.alice Demo.scenario).2
  = Demo.scenario
  ∧ (delete_location (l_id Demo.lake1) Demo.alice Demo.scenario).1
    = error 400 LocationHasSessions.
Proof.
  destruct (C6_delete_location_guard (l_id Demo.lake1) Demo.alice
              Demo.scenario Demo.lake1) as (Hst & _ & Hresp).
  - by_evaluation.
  - reflexivity.
  - by_evaluation.
  - split; [exact Hst|]. apply Hresp. reflexivity.
Defined.




Lemma C2_bait_stats_unbound_witness :
  get_bait_stats None Demo.alice Demo.two_users
  = (error 500 (Unhandled UnboundLocalError), Demo.two_users).
Proof.
  apply (C2_bait_stats_unbound None Demo.alice Demo.two_users Demo.trout).
  - by_evaluation.
  - by_evaluation.
  - reflexivity.
Defined.

(** C4, the route at work. On 2024-06-15 Alice enters a session dated
    2030-01-01, and the monthly breakdown she is then answered has an entry
    for 2030-01, a month that begins after the day of the request: the
    query bounds the dates from below, at 365 days before that day, and not
    from above. *)
Theorem C4_monthly_future_month :
  today Demo.plan_cx = Calendar.ymd2ord 2024 6 15
  ∧ create_session Demo.plan_cx Demo.plan_data Demo.alice Demo.scenario
    = (ok 201 (BSession (Some SessionCreated)
                 (session_to_dict Demo.planner Demo.planned)), Demo.planner)
  ∧ get_monthly_stats Demo.plan_cx Demo.alice Demo.planner
    = (ok 200 (BMonthly Demo.planner_months), Demo.planner)
  ∧ m_month <$> Demo.planner_months = ["2024-01"; "2030-01"]
  ∧ today Demo.plan_cx < Calendar.ymd2ord 2030 1 1.
Proof. repeat split; by_evaluation. Qed.

Lemma wf_with_bob : wf Demo.with_bob.
Proof. by_evaluation. Qed.

(** Alice moves her session past midnight, once on the store where she is
    alone and once next to Bob: the same answer, and Bob's rows stay. *)
Lemma C9_owner_scoped_witness :
  (handle (Protected (ValidToken (u_id Demo.alice)) Demo.overnight)
     Demo.with_bob).1
  = (handle (Protected (ValidToken (u_id Demo.alice)) Demo.overnight)
       Demo.scenario).1
  ∧ view_of
      (handle (Protected (ValidToken (u_id Demo.alice)) Demo.overnight)
         Demo.with_bob).2 (u_id Demo.bob)
    = view_of Demo.with_bob (u_id Demo.bob).
Proof.
  destruct (C9_owner_scoped Demo.overnight (u_id Demo.alice) Demo.with_bob
              Demo.scenario) as (Hr & _ & Hframe).
  - by_evaluation.
  - by_evaluation.
  - reflexivity.
  - by_evaluation.
  - split; [exact Hr|]. apply Hframe. by_evaluation.
Defined.

(** ** The further theorems at work *)

Lemma X1_reachable_integrity_witness :
  NoDup (u_id <$> users Demo.built)
  ∧ (∀ c, c ∈ catches Demo.built →
       ∃ s, s ∈ fishing_sessions Demo.built ∧ s_id s = c_session_id c).
Proof.
  destruct (X1_reachable_integrity Demo.built) as (Hu & _ & _ & _ & _ & _ & Hc).
  - unfold Demo.built.
    repeat (apply reachable_step; [|intros cx [= <-]; reflexivity]).
    apply reachable_empty.
  - split; [exact Hu|exact Hc].
Defined.

(** Alice's location has a session: deleting it is refused, and the store
    stays. *)
Lemma X2_error_keeps_store_witness :
  (handle (Protected (ValidToken (u_id Demo.alice))
             (DeleteLocation (l_id Demo.lake1))) Demo.scenario).2
  = Demo.scenario.
Proof.
  apply (X2_error_keeps_store
           (Protected (ValidToken (u_id Demo.alice))
              (DeleteLocation (l_id Demo.lake1))) Demo.scenario).
  by_evaluation.
Defined.

Lemma X3_reads_keep_store_witness :
  (handle (Protected (ValidToken (u_id Demo.alice)) GetOverviewStats)
     Demo.two_users).2
  = Demo.two_users.
Proof.
  apply (X3_reads_keep_store
           (Protected (ValidToken (u_id Demo.alice)) GetOverviewStats)
           Demo.two_users).
  reflexivity.
Defined.

Lemma X4_create_location_then_get_witness :
  ∃ l, l_id l = new_id Demo.river_cx
       ∧ get_location (new_id Demo.river_cx) Demo.alice
           (create_location Demo.river_cx Demo.river_data Demo.alice
              Demo.scenario).2
         = (ok 200 (BLocation None l),
            (create_location Demo.river_cx Demo.river_data Demo.alice
               Demo.scenario).2).
Proof.
  destruct (X4_create_location_then_get Demo.river_cx Demo.river_data
              Demo.alice Demo.scenario
              (create_location Demo.river_cx Demo.river_data Demo.alice
                 Demo.scenario).1
              (create_location Demo.river_cx Demo.river_data Demo.alice
                 Demo.scenario).2)
    as (l & _ & Hid & _ & _ & Hget).
  - apply surjective_pairing.
  - by_evaluation.
  - exists l. split; [exact Hid|exact Hget].
Defined.

Lemma X5_create_session_then_get_witness :
  ∃ s, s_id s = new_id Demo.dawn_cx
       ∧ get_session (new_id Demo.dawn_cx) Demo.alice
           (create_session Demo.dawn_cx Demo.dawn_data Demo.alice
              Demo.scenario).2
         = (ok 200
              (BSessionDetail
                 (session_to_dict
                    (create_session Demo.dawn_cx Demo.dawn_data Demo.alice
                       Demo.scenario).2 s) []),
            (create_session Demo.dawn_cx Demo.dawn_data Demo.alice
               Demo.scenario).2).
Proof.
  destruct (X5_create_session_then_get Demo.dawn_cx Demo.dawn_data
              Demo.alice Demo.scenario
              (create_session Demo.dawn_cx Demo.dawn_data Demo.alice
                 Demo.scenario).1
              (create_session Demo.dawn_cx Demo.dawn_data Demo.alice
                 Demo.scenario).2)
    as (s & _ & Hid & _ & _ & Hget & Hnone).
  - apply surjective_pairing.
  - by_evaluation.
  - exists s. split; [exact Hid|].
    destruct Hnone as [Hnone _]; [by_evaluation|].
    rewrite Hnone in Hget. exact Hget.
Defined.

Lemma X6_create_catch_then_get_witness :
  ∃ c, c_id c = new_id Demo.perch_cx
       ∧ get_catch (new_id Demo.perch_cx) Demo.alice
           (create_catch Demo.perch_cx Demo.perch_data Demo.alice
              Demo.scenario).2
         = (ok 200 (BCatch None c),
            (create_catch Demo.perch_cx Demo.perch_data Demo.alice
               Demo.scenario).2).
Proof.
  destruct (X6_create_catch_then_get Demo.perch_cx Demo.perch_data
              Demo.alice Demo.scenario
              (create_catch Demo.perch_cx Demo.perch_data Demo.alice
                 Demo.scenario).1
              (create_catch Demo.perch_cx Demo.perch_data Demo.alice
                 Demo.scenario).2)
    as (c & _ & Hid & _ & _ & Hget).
  - apply surjective_pairing.
  - by_evaluation.
  - exists c. split; [exact Hid|exact Hget].
Defined.

(** Alice deletes her evening on [two_users]: both catches go with it. *)
Lemma X7_delete_session_cascade_witness :
  catches (delete_session (s_id Demo.evening) Demo.alice Demo.two_users).2
  = []
  ∧ get_session (s_id Demo.evening) Demo.alice
      (delete_session (s_id Demo.evening) Demo.alice Demo.two_users).2
    = (error 404 SessionNotFound,
       (delete_session (s_id Demo.evening) Demo.alice Demo.two_users).2).
Proof.
  destruct (X7_delete_session_cascade (s_id Demo.evening) Demo.alice
              Demo.two_users
              (delete_session (s_id Demo.evening) Demo.alice
                 Demo.two_users).1
              (delete_session (s_id Demo.evening) Demo.alice
                 Demo.two_users).2)
    as (_ & Hc & _ & _ & Hget & _).
  - apply surjective_pairing.
  - by_evaluation.
  - split; [|exact Hget]. rewrite Hc. by_evaluation.
Defined.

(** Bob's pond has no session: Bob may delete it. *)
Lemma X8_delete_location_free_witness :
  locations (delete_location (l_id Demo.pond) Demo.bob Demo.two_users).2
  = [Demo.lake1].
Proof.
  destruct (X8_delete_location_free (l_id Demo.pond) Demo.bob
              Demo.two_users) as [Hiff Hthen].
  destruct Hthen as (Hl & _).
  - apply Hiff. exists Demo.pond. split; by_evaluation.
  - rewrite Hl. by_evaluation.
Defined.

Lemma X9_accounts_unique_witness :
  NoDup (u_email <$> users Demo.built).
Proof.
  destruct (X9_accounts_unique Demo.built) as (He & _).
  - unfold Demo.built.
    repeat (apply reachable_step; [|intros cx [= <-]; reflexivity]).
    apply reachable_empty.
  - exact He.
Defined.

(** The hash of the demonstration backend accepts the password it was
    made from. *)
Lemma fixed_hash_accepts pw :
  @check_password_hash Fixed.backend
    (@generate_password_hash Fixed.backend "salt" pw) pw = true.
Proof. cbn. apply String.eqb_refl. Qed.

Lemma X10_register_then_login_witness :
  ∃ u, u_id u = u_id Demo.bob
       ∧ login Demo.bob_data
           (register Demo.bob_cx Demo.bob_data Demo.scenario).2
         = (ok 200 (BUser None (user_to_dict u)),
            (register Demo.bob_cx Demo.bob_data Demo.scenario).2).
Proof.
  destruct (X10_register_then_login Demo.bob_cx Demo.bob_data Demo.scenario
              (register Demo.bob_cx Demo.bob_data Demo.scenario).1
              (register Demo.bob_cx Demo.bob_data Demo.scenario).2)
    as (u & _ & Hid & _ & Hlogin).
  - apply surjective_pairing.
  - by_evaluation.
  - intros email Hemail.
    assert (get Demo.bob_data "email" = JStr "b@x.com") as E by by_evaluation.
    rewrite E in Hemail. injection Hemail as <-. by vm_compute.
  - intros pw _. apply fixed_hash_accepts.
  - exists u. split; [exact Hid|exact Hlogin].
Defined.

(** The email has to fit. Carol's, of 127 characters, is stored without
    the seven spaces the column has no room for, and the login with the
    payload that registered her finds no user of that email. *)
Example padded_email_login :
  status (register Demo.carol_cx Demo.carol_data Demo.scenario).1 = 201
  ∧ u_email <$> users (register Demo.carol_cx Demo.carol_data Demo.scenario).2
    = ["a@x.com"; "c@x.com" +:+ spaces 113]
  ∧ status (login Demo.carol_data
              (register Demo.carol_cx Demo.carol_data Demo.scenario).2).1
    = 401.
Proof. repeat split; by_evaluation. Qed.

Lemma X11_change_password_then_login_witness :
  ∃ u, get_user
         (handle (Protected (ValidToken (u_id Demo.alice)) Demo.new_password)
            Demo.built).2 (u_id Demo.alice) = Some u
       ∧ login (<["email" := JStr (u_email u)]>
                  (<["password" := JStr "tr0ut"]> ∅))
           (handle (Protected (ValidToken (u_id Demo.alice))
                      Demo.new_password) Demo.built).2
         = (ok 200 (BUser None (user_to_dict u)),
            (handle (Protected (ValidToken (u_id Demo.alice))
                       Demo.new_password) Demo.built).2).
Proof.
  destruct (X11_change_password_then_login (Demo.at_time 140 "")
              (Demo.data_of [("current_password", JStr "pw123");
                             ("new_password", JStr "tr0ut")])
              (u_id Demo.alice) Demo.built
              (handle (Protected (ValidToken (u_id Demo.alice))
                         Demo.new_password) Demo.built).1
              (handle (Protected (ValidToken (u_id Demo.alice))
                         Demo.new_password) Demo.built).2)
    as (u & pw & Hu & _ & _ & Hlogin).
  - unfold Demo.built.
    repeat (apply reachable_step; [|intros cx [= <-]; reflexivity]).
    apply reachable_empty.
  - apply surjective_pairing.
  - by_evaluation.
  - intros pw _. apply fixed_hash_accepts.
  - exists u. split; [exact Hu|exact Hlogin].
Defined.



(** The empty name is an exception: [update_location] writes it without
    looking for it, and two locations of Alice end up sharing it. *)
Example empty_name_shared :
  reachable Demo.unnamed
  ∧ l_name <$> locations Demo.unnamed = [""; ""]
  ∧ l_user_id <$> locations Demo.unnamed = [u_id Demo.alice; u_id Demo.alice].
Proof.
  split; [|split; by_evaluation].
  unfold Demo.unnamed, Demo.built.
  repeat (apply reachable_step; [|intros cx [= <-]; reflexivity]).
  apply reachable_empty.
Qed.

(** So is the name [false]: it is no string, the route does not look for
    it, and the database stores its text. *)
Example false_name_shared :
  reachable Demo.both_false
  ∧ l_name <$> locations Demo.both_false = ["false"; "false"]
  ∧ l_user_id <$> locations Demo.both_false
    = [u_id Demo.alice; u_id Demo.alice].
Proof.
  split; [|split; by_evaluation].
  unfold Demo.both_false, Demo.built.
  repeat (apply reachable_step; [|intros cx [= <-]; reflexivity]).
  apply reachable_empty.
Qed.

(** 22:00 to 02:00: the method fails where the routes store 240. *)
Lemma X13_calculate_duration_witness :
  calculate_duration 738886 (Some (Calendar.MkTime 22 0))
    (Some (Calendar.MkTime 2 0))
  = NameError "timedelta"
  ∧ calculate_duration 738886 (Some (Calendar.MkTime 20 0))
      (Some (Calendar.MkTime 23 30))
    = Minutes (Some 210).
Proof.
  split.
  - destruct (@X13_calculate_duration Fixed.backend 738886 (Calendar.MkTime 22 0)
                (Calendar.MkTime 2 0)) as (_ & Hlt & _).
    + unfold valid_time. simpl. lia.
    + unfold valid_time. simpl. lia.
    + apply Hlt. unfold Calendar.seconds_of_time. simpl. lia.
  - destruct (@X13_calculate_duration Fixed.backend 738886 (Calendar.MkTime 20 0)
                (Calendar.MkTime 23 30)) as (Hle & _).
    + unfold valid_time. simpl. lia.
    + unfold valid_time. simpl. lia.
    + destruct Hle as [Hle _];
        [unfold Calendar.seconds_of_time; simpl; lia|].
      exact Hle.
Defined.

(** [released=false] asks for the released catches. *)
Example released_false_is_true :
  get_catches None None None None (Some "false") Demo.alice Demo.two_users
  = (ok 200 (BCatches
       {| pg_items := [Demo.trout]; pg_total := 1; pg_pages := 1;
          pg_current_page := 1; pg_per_page := 20 |}), Demo.two_users).
Proof. by_evaluation. Qed.


Lemma X17_delete_catch_removes_witness :
  catches (delete_catch (c_id Demo.bass) Demo.alice Demo.two_users).2
  = [Demo.trout]
  ∧ get_catch (c_id Demo.bass) Demo.alice
      (delete_catch (c_id Demo.bass) Demo.alice Demo.two_users).2
    = (error 404 CatchNotFound,
       (delete_catch (c_id Demo.bass) Demo.alice Demo.two_users).2).
Proof.
  destruct (X17_delete_catch_removes (c_id Demo.bass) Demo.alice
              Demo.two_users
              (delete_catch (c_id Demo.bass) Demo.alice Demo.two_users).1
              (delete_catch (c_id Demo.bass) Demo.alice Demo.two_users).2)
    as (Hc & _ & _ & _ & Hget).
  - apply surjective_pairing.
  - by_evaluation.
  - split; [|exact Hget]. rewrite Hc. by_evaluation.
Defined.

Lemma X20_update_location_partial_witness :
  ∃ new,
    locations (update_location (Demo.at_time 160 "") (l_id Demo.lake1)
                 Demo.deep Demo.alice Demo.scenario).2
    = replace_row l_id new (locations Demo.scenario)
    ∧ l_name new = "Lake1" ∧ l_description new = Some "deep"
    ∧ l_updated_at new = 160.
Proof.
  destruct (X20_update_location_partial (Demo.at_time 160 "")
              (l_id Demo.lake1) Demo.deep Demo.alice Demo.scenario
              (update_location (Demo.at_time 160 "") (l_id Demo.lake1)
                 Demo.deep Demo.alice Demo.scenario).1
              (update_location (Demo.at_time 160 "") (l_id Demo.lake1)
                 Demo.deep Demo.alice Demo.scenario).2)
    as (old & new & Hold & _ & Hl & _ & _ & _ & _ & _ & _ & Hn & _ & _
        & Hd & Hu).
  - apply surjective_pairing.
  - by_evaluation.
  - assert (find_location Demo.scenario (l_id Demo.lake1) (u_id Demo.alice)
            = Some Demo.lake1) as E by by_evaluation.
    rewrite E in Hold. injection Hold as <-.
    assert (Demo.deep !! "name" = None) as En by by_evaluation.
    assert (Demo.deep !! "description" = Some (JStr "deep")) as Ed
      by by_evaluation.
    rewrite En in Hn. rewrite Ed in Hd. destruct Hd as (text & Hd & ->).
    exists new. split; [exact Hl|]. split; [exact Hn|].
    split; [exact Hd|].
    destruct Hu as [->|Hu]; [discriminate Hd|exact Hu].
Defined.



Lemma X24_update_catch_partial_witness :
  ∃ new,
    catches (update_catch (Demo.at_time 170 "") (c_id Demo.bass)
               Demo.let_go Demo.alice Demo.scenario).2
    = replace_row c_id new (catches Demo.scenario)
    ∧ c_species new = "Bass" ∧ c_released new = true
    ∧ c_updated_at new = 170.
Proof.
  destruct (X24_update_catch_partial (Demo.at_time 170 "")
              (c_id Demo.bass) Demo.let_go Demo.alice Demo.scenario
              (update_catch (Demo.at_time 170 "") (c_id Demo.bass)
                 Demo.let_go Demo.alice Demo.scenario).1
              (update_catch (Demo.at_time 170 "") (c_id Demo.bass)
                 Demo.let_go Demo.alice Demo.scenario).2)
    as (old & new & Hold & _ & Hc & _ & _ & _ & _ & _ & _ & Hsp & _ & _ & _
        & Hrel & _ & Hu).
  - apply surjective_pairing.
  - by_evaluation.
  - assert (find_catch Demo.scenario (c_id Demo.bass) (u_id Demo.alice)
            = Some Demo.bass) as E by by_evaluation.
    rewrite E in Hold. injection Hold as <-.
    assert (Demo.let_go !! "species" = None) as Es by by_evaluation.
    assert (Demo.let_go !! "released" = Some (JInt 1)) as Er by by_evaluation.
    rewrite Es in Hsp. rewrite Er in Hrel.
    exists new. split; [exact Hc|]. split; [exact Hsp|].
    split; [exact Hrel|].
    destruct Hu as [->|Hu]; [discriminate Hrel|exact Hu].
Defined.

Lemma X25_monthly_months_witness :
  ∃ months,
    get_monthly_stats (Demo.at_time 200 "") Demo.alice Demo.scenario
    = (ok 200 (BMonthly months), Demo.scenario)
    ∧ m_month <$> months = ["2024-01"]
    ∧ NoDup (m_month <$> months) ∧ Sorted month_str_lt months.
Proof.
  destruct (X25_monthly_months (Demo.at_time 200 "") Demo.alice Demo.scenario)
    as (months & Heq & _ & _ & _ & Hnd & Hsorted).
  - vm_compute. split; [reflexivity|discriminate].
  - exists months. split; [exact Heq|].
    split; [|split; [exact Hnd|exact Hsorted]].
    assert (get_monthly_stats (Demo.at_time 200 "") Demo.alice Demo.scenario
            = (ok 200 (BMonthly Demo.scenario_months), Demo.scenario))
      as H by by_evaluation.
    rewrite H in Heq. by injection Heq as <-.
Defined.

(** ** The parsers and the calendar on examples *)

Example strptime_time_2200 :
  Calendar.strptime_time Fixed.decimal_of "22:00"
  = Some (Calendar.MkTime 22 0).
Proof. reflexivity. Qed.

Example strptime_time_bad :
  Calendar.strptime_time Fixed.decimal_of "24:00" = None.
Proof. reflexivity. Qed.

(** A digit of another script where the pattern has [\d]: 1, ARABIC-INDIC
    DIGIT TWO, a colon, 0, ARABIC-INDIC DIGIT ZERO. Not where it has a
    class of ASCII digits. *)
Example strptime_time_arabic_indic :
  Calendar.strptime_time Fixed.decimal_of "1٢:0٠"
  = Some (Calendar.MkTime 12 0)
  ∧ Calendar.strptime_time Fixed.decimal_of "١2:00" = None.
Proof. split; reflexivity. Qed.

Example strptime_date_2024 :
  Calendar.strptime_date Fixed.decimal_of "2024-01-01" = Some 738886.
Proof. reflexivity. Qed.

Example strptime_date_feb30 :
  Calendar.strptime_date Fixed.decimal_of "2023-02-29" = None.
Proof. reflexivity. Qed.

Example ord2ymd_2024 : Calendar.ord2ymd 738886 = (2024, 1, 1).
Proof. reflexivity. Qed.

Example ord2ymd_max : Calendar.ord2ymd Calendar.MAXORDINAL = (9999, 12, 31).
Proof. reflexivity. Qed.

Example ymd2ord_epoch : Calendar.ymd2ord 1970 1 1 = 719163.
Proof. reflexivity. Qed.

Example ymd2ord_2030 : Calendar.ymd2ord 2030 1 1 = 741078.
Proof. reflexivity. Qed.

(** A column of five characters: what fits is kept, spaces past the end
    are cut, anything else is refused; the length is in characters. *)
Example varchar_examples :
  varchar (R := unit) 5 "perch" = Done "perch"
  ∧ varchar (R := unit) 5 "perch  " = Done "perch"
  ∧ varchar (R := unit) 5 "perches" = Raise DataError
  ∧ varchar (R := unit) 5 "traíra" = Raise DataError
  ∧ varchar (R := unit) 6 "traíra" = Done "traíra".
Proof. repeat split; reflexivity. Qed.

